(** * Baseline Command Center: the feature-detection core

    A shallow embedding of the scanners, the classifier, the scorer and the
    threshold gates of the repository, followed by the properties that the
    specification states about them.

    Conventions of the embedding.
    - A JavaScript string is the list of its UTF-16 code units, each an [N].
    - Offsets into a text and line numbers are [nat]; usage counters are [N].
      A counter only ever grows by [++], one step per regular-expression
      match, so it stays far inside the range in which a JavaScript Number
      holds integers exactly.
    - The division and the multiplication inside the score are IEEE 754
      binary64 operations; they are taken from the Standard Library's
      [SpecFloat] (precision 53, [emax] 1024).
    - A regular expression with the [g] flag driven by a
      [while ((m = re.exec(text)) !== null)] loop is the list of its
      successive leftmost matches. *)

From Stdlib Require Import ZArith NArith QArith Qround Qpower Lia Lqa Sorted.
From Stdlib Require Import Ascii String DecimalNat.
From Stdlib Require Import Floats.SpecFloat.
From stdpp Require Import gmap.

(** ** Strings as code units *)

Abbreviation text := (list N).

Fixpoint codes (s : string) : text :=
  match s with
  | EmptyString => []
  | String a s' => N_of_ascii a :: codes s'
  end.

(** [\w] of an ECMAScript regular expression without the [u] and [i] flags:
    the ASCII letters, the digits and the underscore. *)
Definition isWord (c : N) : bool :=
  ((65 <=? c) && (c <=? 90) || (97 <=? c) && (c <=? 122)
   || (48 <=? c) && (c <=? 57) || (c =? 95))%N.

(** [\s], which is also the set that [String.prototype.trim] removes: the
    WhiteSpace and LineTerminator code points. *)
Definition isSpace (c : N) : bool :=
  ((9 <=? c) && (c <=? 13) || (c =? 32) || (c =? 160) || (c =? 5760)
   || (8192 <=? c) && (c <=? 8202) || (c =? 8232) || (c =? 8233)
   || (c =? 8239) || (c =? 8287) || (c =? 12288) || (c =? 65279))%N.

Definition text_eqb (a b : text) : bool := bool_decide (a = b).

Fixpoint startsWith (s p : text) : bool :=
  match p, s with
  | [], _ => true
  | _ :: _, [] => false
  | c :: p', d :: s' => (c =? d)%N && startsWith s' p'
  end.

(** [s.includes(p)] *)
Fixpoint includes (s p : text) : bool :=
  startsWith s p ||
  match s with
  | [] => false
  | _ :: s' => includes s' p
  end.

Fixpoint trimStart (s : text) : text :=
  match s with
  | c :: s' => if isSpace c then trimStart s' else s
  | [] => []
  end.

Definition trimEnd (s : text) : text := rev (trimStart (rev s)).

Definition trim (s : text) : text := trimEnd (trimStart s).

(** [s.substring(a, b)]: the arguments are clamped to the length and swapped
    when they come in the wrong order. *)
Definition substring (s : text) (a b : nat) : text :=
  let a' := Nat.min a (length s) in
  let b' := Nat.min b (length s) in
  take (Nat.max a' b' - Nat.min a' b') (drop (Nat.min a' b') s).

(** Decimal rendering of a non-negative integer, as template literals and
    [String(n)] produce it. *)
Fixpoint uint_codes (d : Decimal.uint) : text :=
  match d with
  | Decimal.Nil => []
  | Decimal.D0 d' => 48%N :: uint_codes d'
  | Decimal.D1 d' => 49%N :: uint_codes d'
  | Decimal.D2 d' => 50%N :: uint_codes d'
  | Decimal.D3 d' => 51%N :: uint_codes d'
  | Decimal.D4 d' => 52%N :: uint_codes d'
  | Decimal.D5 d' => 53%N :: uint_codes d'
  | Decimal.D6 d' => 54%N :: uint_codes d'
  | Decimal.D7 d' => 55%N :: uint_codes d'
  | Decimal.D8 d' => 56%N :: uint_codes d'
  | Decimal.D9 d' => 57%N :: uint_codes d'
  end.

Definition nat_codes (n : nat) : text := uint_codes (Nat.to_uint n).

(** ** Regular expressions

    The fragment of ECMAScript regular expressions that the repository's
    patterns are written in.  Quantifiers only ever apply to a one-unit
    class ([\s*], [\s+], [[\w-]+], [[\w.]+], [[^;]+]); they are greedy and
    give characters back on failure, as the backtracking matcher of the
    language does. *)
Module Regex.

Inductive regex : Type :=
| Class (p : N → bool)           (* one code unit of a class *)
| Star (p : N → bool)            (* [c*], greedy *)
| Seq (r1 r2 : regex)
| Alt (r1 r2 : regex)            (* [r1|r2], left alternative first *)
| Group (i : nat) (r : regex)    (* capturing group number [i] *)
| WordB                          (* [\b] *)
| Begin                          (* [^] *)
| End_                           (* [$] *)
| Eps.

Definition Plus (p : N → bool) : regex := Seq (Class p) (Star p).

Fixpoint lit_codes (s : text) : regex :=
  match s with
  | [] => Eps
  | [c] => Class (N.eqb c)
  | c :: s' => Seq (Class (N.eqb c)) (lit_codes s')
  end.

Definition lit (s : string) : regex := lit_codes (codes s).

(** [a|b|c|...] *)
Fixpoint alts (l : list string) : regex :=
  match l with
  | [] => Eps
  | [s] => lit s
  | s :: l' => Alt (lit s) (alts l')
  end.

(** The matcher's position: the unit just before it (for [\b]), what is
    left of the input, the offset, and the groups captured so far. *)
Record mstate := MState {
  m_prev : option N;
  m_rest : text;
  m_pos : nat;
  m_caps : list (nat * text)
}.

Definition isWordOpt (o : option N) : bool :=
  match o with Some c => isWord c | None => false end.

Fixpoint star (p : N → bool) (k : mstate → option mstate)
    (prev : option N) (rest : text) (pos : nat) (caps : list (nat * text))
    {struct rest} : option mstate :=
  match rest with
  | c :: tl =>
      if p c then
        match star p k (Some c) tl (S pos) caps with
        | Some r => Some r
        | None => k (MState prev rest pos caps)
        end
      else k (MState prev rest pos caps)
  | [] => k (MState prev rest pos caps)
  end.

(** Continuation-passing backtracking matcher: [run r st k] matches [r] at
    [st] and hands the state after it to [k]; a [None] from [k] makes the
    matcher try its next alternative. *)
Fixpoint run (r : regex) (st : mstate) (k : mstate → option mstate)
    {struct r} : option mstate :=
  match r with
  | Class p =>
      match m_rest st with
      | c :: tl =>
          if p c then k (MState (Some c) tl (S (m_pos st)) (m_caps st))
          else None
      | [] => None
      end
  | Star p => star p k (m_prev st) (m_rest st) (m_pos st) (m_caps st)
  | Seq r1 r2 => run r1 st (λ st', run r2 st' k)
  | Alt r1 r2 =>
      match run r1 st k with
      | Some res => Some res
      | None => run r2 st k
      end
  | Group i r' =>
      run r' st (λ st',
        k (MState (m_prev st') (m_rest st') (m_pos st')
             ((i, take (m_pos st' - m_pos st) (m_rest st)) :: m_caps st')))
  | WordB =>
      if xorb (isWordOpt (m_prev st)) (isWordOpt (head (m_rest st)))
      then k st else None
  | Begin => if Nat.eqb (m_pos st) 0 then k st else None
  | End_ => match m_rest st with [] => k st | _ :: _ => None end
  | Eps => k st
  end.

(** What [exec] returns: [index], the matched text [m[0]] and the
    groups. *)
Record rmatch := RMatch {
  index : nat;
  whole : text;
  groups : list (nat * text)
}.

Fixpoint assoc (i : nat) (l : list (nat * text)) : option text :=
  match l with
  | [] => None
  | (j, t) :: l' => if Nat.eqb i j then Some t else assoc i l'
  end.

(** [m[i]], [None] for [undefined]. *)
Definition group (i : nat) (m : rmatch) : option text := assoc i (groups m).

Definition exec_at (r : regex) (prev : option N) (rest : text) (pos : nat)
    : option rmatch :=
  match run r (MState prev rest pos []) Some with
  | Some st => Some (RMatch pos (take (m_pos st - pos) rest) (m_caps st))
  | None => None
  end.

(** The successive results of [re.exec(text)] for a global expression,
    from the offset [pos] on.  [skip] counts the units that the previous
    match still covers: the next attempt starts where that match ended.
    (No pattern of the repository matches the empty string.) *)
Fixpoint scan (r : regex) (prev : option N) (rest : text) (pos skip : nat)
    {struct rest} : list rmatch :=
  match skip with
  | S skip' =>
      match rest with
      | c :: tl => scan r (Some c) tl (S pos) skip'
      | [] => []
      end
  | O =>
      match exec_at r prev rest pos with
      | Some m =>
          m :: match rest with
               | c :: tl => scan r (Some c) tl (S pos) (length (whole m) - 1)
               | [] => []
               end
      | None =>
          match rest with
          | c :: tl => scan r (Some c) tl (S pos) 0
          | [] => []
          end
      end
  end.

Definition matchAll (r : regex) (t : text) : list rmatch := scan r None t 0 0.

(** [re.test(text)] for an expression without the [g] flag. *)
Definition test (r : regex) (t : text) : bool :=
  match matchAll r t with [] => false | _ :: _ => true end.

(** [s.replace(re, '')] for an expression without the [g] flag: the
    leftmost match is removed. *)
Fixpoint remove_first (r : regex) (prev : option N) (rest : text) (pos : nat)
    {struct rest} : text :=
  match exec_at r prev rest pos with
  | Some m => drop (length (whole m)) rest
  | None =>
      match rest with
      | c :: tl => c :: remove_first r (Some c) tl (S pos)
      | [] => []
      end
  end.

End Regex.

(** ** The editor's document interface

    [vscode.TextDocument] is not code of the repository.  The repository
    only calls [getText] and [positionAt] of the documents it is handed, so
    a document is its text and a function from offsets to positions. *)
Module vscode.

Record Position := mkPosition { line : nat; character : nat }.

Record Range := mkRange { start : Position; end_ : Position }.

Record TextDocument := mkTextDocument {
  getText : text;
  positionAt : nat → Position
}.

(** The position of an offset in a text whose lines end with a line feed:
    the line is the number of line feeds before the offset. *)
Fixpoint position_in (t : text) (off : nat) (ln col : nat) : Position :=
  match off, t with
  | O, _ => mkPosition ln col
  | S off', c :: t' =>
      if (c =? 10)%N then position_in t' off' (S ln) 0
      else position_in t' off' ln (S col)
  | S _, [] => mkPosition ln col
  end.

(** The document that holds the text [t]. *)
Definition document_of (t : text) : TextDocument :=
  mkTextDocument t (λ off, position_in t off 0 0).

End vscode.

(** ** src/utils/parser.ts *)
Module parser.
Import Regex.

Record CSSProperty := mkCSSProperty {
  name : text;
  value : text;
  css_range : vscode.Range;
  css_line : nat
}.

(** [/([\w-]+)\s*:\s*([^;]+);/g] *)
Definition propertyRegex : regex :=
  Seq (Group 1 (Plus (λ c, isWord c || (c =? 45)%N)))
 (Seq (Star isSpace)
 (Seq (lit ":")
 (Seq (Star isSpace)
 (Seq (Group 2 (Plus (λ c, negb (c =? 59)%N)))
      (lit ";"))))).

Definition group_or_empty (i : nat) (m : rmatch) : text :=
  default [] (group i m).

(** [CSSParser.extractCSSProperties] *)
Definition extractCSSProperties (t : text) (document : vscode.TextDocument)
    : list CSSProperty :=
  map (λ m,
         let propertyName := group_or_empty 1 m in
         let propertyValue := trim (group_or_empty 2 m) in
         let matchStart := index m in
         let startPos := vscode.positionAt document matchStart in
         let endPos :=
           vscode.positionAt document (matchStart + length propertyName) in
         mkCSSProperty propertyName propertyValue
           (vscode.mkRange startPos endPos) (vscode.line startPos))
      (matchAll propertyRegex t).

Record JSAPIUsage := mkJSAPIUsage {
  api : text;
  range : vscode.Range;
  line : nat;
  context : text
}.

Definition isWordOrDot (c : N) : bool := isWord c || (c =? 46)%N.

Local Open Scope string_scope.

(** The pattern table of [JSParser.extractAPIUsage], in source order, each
    with its [type] tag. *)
Definition patterns : list (regex * string) :=
  [ (* /new\s+([\w.]+)\s*\(/g *)
    (Seq (lit "new") (Seq (Plus isSpace)
       (Seq (Group 1 (Plus isWordOrDot)) (Seq (Star isSpace) (lit "(")))),
     "constructor");
    (* /\b(fetch|localStorage|sessionStorage|crypto|navigator)\b/g *)
    (Seq WordB (Seq (Group 1
       (alts ["fetch"; "localStorage"; "sessionStorage"; "crypto";
              "navigator"])) WordB),
     "global");
    (Seq WordB (Seq (Group 1
       (alts ["IntersectionObserver"; "ResizeObserver"; "MutationObserver";
              "PerformanceObserver"])) WordB),
     "observer");
    (* /\basync\s+function/g *)
    (Seq WordB (Seq (lit "async") (Seq (Plus isSpace) (lit "function"))),
     "async");
    (* /\bawait\s+/g *)
    (Seq WordB (Seq (lit "await") (Plus isSpace)), "await");
    (* /\bPromise\b/g *)
    (Seq WordB (Seq (lit "Promise") WordB), "promise");
    (Seq WordB (Seq (Group 1 (alts ["WeakMap"; "WeakSet"; "Map"; "Set"]))
       WordB),
     "collection");
    (Seq WordB (Seq (Group 1 (alts ["Proxy"; "Reflect"])) WordB), "meta");
    (Seq WordB (Seq (Group 1
       (alts ["querySelector"; "querySelectorAll"; "getElementById"]))
       WordB),
     "dom");
    (Seq WordB (Seq (Group 1
       (alts ["BroadcastChannel"; "WebSocket"; "Worker"; "ServiceWorker"]))
       WordB),
     "web");
    (* /navigator\.(share|geolocation|mediaDevices|serviceWorker)/g *)
    (Seq (lit "navigator.") (Group 1
       (alts ["share"; "geolocation"; "mediaDevices"; "serviceWorker"])),
     "navigator");
    (* /document\.(startViewTransition|requestStorageAccess)/g *)
    (Seq (lit "document.") (Group 1
       (alts ["startViewTransition"; "requestStorageAccess"])),
     "document") ].

Local Close Scope string_scope.

(** [JSParser.cleanAPIName] *)
Definition cleanAPIName (apiName : text) (type : string) : text :=
  (* apiName.replace(/^new\s+/, '') *)
  let apiName :=
    remove_first (Seq Begin (Seq (lit "new") (Plus isSpace)))
      None apiName 0 in
  if text_eqb apiName (codes "async function")
     || includes apiName (codes "async")
  then codes "async"
  else if includes apiName (codes "await") then codes "async"
  else if startsWith apiName (codes "navigator.")
          || startsWith apiName (codes "document.")
  then apiName
  else trim apiName.

(** The key that [deduplicateUsages] builds:
    [`${usage.line}:${usage.api}`]. *)
Definition usage_key (usage : JSAPIUsage) : text :=
  nat_codes (line usage) ++ codes ":" ++ api usage.

(** [usages.filter(...)] of [deduplicateUsages], with the [Set] of keys
    that the callback closes over threaded through. *)
Fixpoint dedup_filter (seen : gset text) (usages : list JSAPIUsage)
    : list JSAPIUsage :=
  match usages with
  | [] => []
  | usage :: rest =>
      let key := usage_key usage in
      if decide (key ∈ seen) then dedup_filter seen rest
      else usage :: dedup_filter ({[key]} ∪ seen) rest
  end.

(** [JSParser.deduplicateUsages] *)
Definition deduplicateUsages (usages : list JSAPIUsage) : list JSAPIUsage :=
  dedup_filter ∅ usages.

(** The value of [match[1] || match[0]]: a missing or empty group 1 is
    falsy. *)
Definition group1_or_whole (m : rmatch) : text :=
  match group 1 m with
  | Some (c :: g) => c :: g
  | _ => whole m
  end.

(** The body of the [while] loop of [extractAPIUsage] for one match. *)
Definition usage_of_match (t : text) (document : vscode.TextDocument)
    (type : string) (m : rmatch) : JSAPIUsage :=
  let apiName := group1_or_whole m in
  let matchStart := index m in
  let matchEnd := matchStart + length apiName in
  let startPos := vscode.positionAt document matchStart in
  let endPos := vscode.positionAt document matchEnd in
  let contextStart := Nat.max 0 (matchStart - 20) in
  let contextEnd := Nat.min (length t) (matchEnd + 20) in
  let context := trim (substring t contextStart contextEnd) in
  let cleanedApi := cleanAPIName apiName type in
  mkJSAPIUsage cleanedApi (vscode.mkRange startPos endPos)
    (vscode.line startPos) context.

(** The usages pushed by the pattern passes, before deduplication. *)
Definition rawUsages (t : text) (document : vscode.TextDocument)
    : list JSAPIUsage :=
  concat (map (λ '(regex, type),
                 map (usage_of_match t document type) (matchAll regex t))
              patterns).

(** [JSParser.extractAPIUsage] *)
Definition extractAPIUsage (t : text) (document : vscode.TextDocument)
    : list JSAPIUsage :=
  deduplicateUsages (rawUsages t document).

End parser.

(** ** Numbers

    The counters are integers; the score divides two of them and multiplies
    the quotient by 100, both in binary64, and rounds the product with
    [Math.round]. *)
Module Number.

Definition prec : Z := 53.
Definition emax : Z := 1024.

(** The Number that holds the integer [n]. *)
Definition of_N (n : N) : spec_float :=
  binary_normalize prec emax (Z.of_N n) 0 false.

Definition div : spec_float → spec_float → spec_float := SFdiv prec emax.
Definition mul : spec_float → spec_float → spec_float := SFmul prec emax.

(** [Math.round]: the integer nearest to the argument, the larger one of
    the two when the argument lies halfway, that is [floor (x + 1/2)]
    computed exactly.  [None] stands for [NaN] and the infinities, which
    the function returns unchanged. *)
Definition Math_round (x : spec_float) : option Z :=
  match x with
  | S754_zero _ => Some 0%Z
  | S754_finite s m e =>
      let v := if s then Z.neg m else Z.pos m in
      Some match e with
           | Z0 => v
           | Zpos _ => (v * 2 ^ e)%Z
           | Zneg k => ((2 * v + 2 ^ Z.pos k) / 2 ^ (Z.pos k + 1))%Z
           end
  | S754_infinity _ | S754_nan => None
  end.

(** [a < b] on integer-valued Numbers, [None] being [NaN] or
    [undefined]: every comparison with it is false. *)
Definition ltb (a b : option Z) : bool :=
  match a, b with
  | Some x, Some y => (x <? y)%Z
  | _, _ => false
  end.

(** Truthiness of an optional integer Number: [undefined], [NaN] and [0]
    are falsy. *)
Definition truthy (a : option Z) : bool :=
  match a with
  | Some x => negb (x =? 0)%Z
  | None => false
  end.

End Number.

(** ** The scorer *)
Module Scorer.

(** The expression that every surface computes its score with:
    [total > 0 ? Math.round((baseline / total) * 100) : 100]. *)
Definition baselineScore (totalBaseline totalFeatures : N) : option Z :=
  if (0 <? totalFeatures)%N
  then Number.Math_round
         (Number.mul
            (Number.div (Number.of_N totalBaseline)
               (Number.of_N totalFeatures))
            (Number.of_N 100))
  else Some 100%Z.

(** [score(baseline, limited, nonBaseline)]: the total is the sum of the
    three counters. *)
Definition score (baseline limited nonBaseline : N) : option Z :=
  baselineScore baseline (baseline + limited + nonBaseline).

End Scorer.

(** The three status counters, and the chain
    [if (status === 'baseline') baseline++; else if (status === 'limited')
    limited++; else nonBaseline++;] that every surface repeats. *)
Record Counts := mkCounts {
  baselineCount : N;
  limitedCount : N;
  nonBaselineCount : N
}.

Definition noCounts : Counts := mkCounts 0 0 0.

(** ** Property access on an object literal

    The CLI and the build plugins keep their catalog in an object literal
    and read it with [baselineData.css[property]].  Such an access also
    finds the members that every object inherits from [Object.prototype];
    those are functions (and, for [__proto__], an object), hence truthy and
    different from every string. *)
Module JSObject.

Inductive value :=
| VString (s : text)
| VInherited.

Local Open Scope string_scope.

Definition prototypeNames : list string :=
  [ "constructor"; "hasOwnProperty"; "isPrototypeOf";
    "propertyIsEnumerable"; "toLocaleString"; "toString"; "valueOf";
    "__proto__"; "__defineGetter__"; "__defineSetter__";
    "__lookupGetter__"; "__lookupSetter__" ].

Local Close Scope string_scope.

Definition inherited (key : text) : bool :=
  existsb (λ s, text_eqb key (codes s)) prototypeNames.

(** An object literal with string values. *)
Definition literal (props : list (string * string)) : gmap text text :=
  list_to_map (map (λ '(k, v), (codes k, codes v)) props).

(** [obj[key]], [None] for [undefined]. *)
Definition get (own : gmap text text) (key : text) : option value :=
  match own !! key with
  | Some s => Some (VString s)
  | None => if inherited key then Some VInherited else None
  end.

Definition truthy (v : option value) : bool :=
  match v with
  | Some (VString []) | None => false
  | Some _ => true
  end.

(** [v === 'lit'] *)
Definition strictEq (v : option value) (lit : string) : bool :=
  match v with
  | Some (VString s) => text_eqb s (codes lit)
  | _ => false
  end.

(** The counter chain on a status read from an object literal. *)
Definition bump (status : option value) (c : Counts) : Counts :=
  if strictEq status "baseline"
  then mkCounts (baselineCount c + 1) (limitedCount c) (nonBaselineCount c)
  else if strictEq status "limited"
  then mkCounts (baselineCount c) (limitedCount c + 1) (nonBaselineCount c)
  else mkCounts (baselineCount c) (limitedCount c) (nonBaselineCount c + 1).

End JSObject.

(** ** The editor's catalog (baselineData.ts) *)
Module baselineData.

Inductive Status := baseline | limited | not_baseline.

Record BaselineFeature := mkFeature {
  id : string;
  name : string;
  status : Status
}.

Record CSSFeature := mkCSSFeature {
  css_feature : BaselineFeature;
  properties : list string
}.

Record JSFeature := mkJSFeature {
  js_feature : BaselineFeature;
  api : string;
  methods : list string
}.

Record BaselineDataProvider := mkProvider {
  cssFeatures : gmap text CSSFeature;
  jsFeatures : gmap text JSFeature
}.

Definition getCSSFeature (p : BaselineDataProvider) (property : text)
    : option CSSFeature := cssFeatures p !! property.

Definition getJSFeature (p : BaselineDataProvider) (api : text)
    : option JSFeature := jsFeatures p !! api.

(** The counter chain on the status of a catalog record. *)
Definition bump (s : Status) (c : Counts) : Counts :=
  match s with
  | baseline =>
      mkCounts (baselineCount c + 1) (limitedCount c) (nonBaselineCount c)
  | limited =>
      mkCounts (baselineCount c) (limitedCount c + 1) (nonBaselineCount c)
  | not_baseline =>
      mkCounts (baselineCount c) (limitedCount c) (nonBaselineCount c + 1)
  end.

Local Open Scope string_scope.

Definition mockCSSFeatures : list CSSFeature :=
  [ mkCSSFeature (mkFeature "css-display" "CSS Display" baseline)
      ["display"];
    mkCSSFeature (mkFeature "css-gap" "CSS Gap Property" baseline)
      ["gap"; "row-gap"; "column-gap"];
    mkCSSFeature (mkFeature "css-flexbox" "CSS Flexible Box Layout" baseline)
      ["flex"; "flex-direction"; "flex-wrap"; "justify-content";
       "align-items"; "align-content"; "flex-grow"; "flex-shrink";
       "flex-basis"];
    mkCSSFeature (mkFeature "css-grid" "CSS Grid Layout" baseline)
      ["grid"; "grid-template-columns"; "grid-template-rows"; "grid-area";
       "grid-column"; "grid-row"];
    mkCSSFeature (mkFeature "css-position-sticky" "CSS Position Sticky"
                    baseline)
      ["position"];
    mkCSSFeature (mkFeature "css-container-queries" "CSS Container Queries"
                    limited)
      ["container-type"; "container-name"; "container"];
    mkCSSFeature (mkFeature "css-backdrop-filter" "CSS Backdrop Filter"
                    baseline)
      ["backdrop-filter"];
    mkCSSFeature (mkFeature "css-color-oklch" "CSS OKLCH Colors" limited)
      ["color"] ].

Definition mockJSFeatures : list JSFeature :=
  [ mkJSFeature (mkFeature "fetch-api" "Fetch API" baseline) "fetch"
      ["fetch"; "Response"; "Request"; "Headers"];
    mkJSFeature (mkFeature "promises" "JavaScript Promises" baseline)
      "Promise" ["then"; "catch"; "finally"; "all"; "race"];
    mkJSFeature (mkFeature "async-await" "Async/Await" baseline) "async"
      ["async"; "await"];
    mkJSFeature (mkFeature "intersection-observer" "Intersection Observer"
                   baseline)
      "IntersectionObserver" ["observe"; "unobserve"; "disconnect"];
    mkJSFeature (mkFeature "resize-observer" "Resize Observer" baseline)
      "ResizeObserver" ["observe"; "unobserve"; "disconnect"];
    mkJSFeature (mkFeature "mutation-observer" "Mutation Observer" baseline)
      "MutationObserver" ["observe"; "disconnect"; "takeRecords"];
    mkJSFeature (mkFeature "local-storage" "Local Storage" baseline)
      "localStorage" ["getItem"; "setItem"; "removeItem"; "clear"];
    mkJSFeature (mkFeature "web-crypto" "Web Crypto API" baseline) "crypto"
      ["subtle"; "getRandomValues"];
    mkJSFeature (mkFeature "broadcast-channel" "Broadcast Channel" baseline)
      "BroadcastChannel" ["postMessage"; "close"];
    mkJSFeature (mkFeature "web-share-api" "Web Share API" limited)
      "navigator.share" ["share"; "canShare"];
    mkJSFeature (mkFeature "view-transitions" "View Transitions API" limited)
      "document.startViewTransition" ["startViewTransition"] ].

Local Close Scope string_scope.

(** [createMockData]: every CSS record is indexed under each of its
    properties, every JS record under its API name and under each of its
    methods; a later [set] of the same key replaces the earlier one. *)
Definition createMockData : BaselineDataProvider :=
  mkProvider
    (fold_left
       (λ m feature,
          fold_left (λ m prop, <[codes prop := feature]> m)
            (properties feature) m)
       mockCSSFeatures ∅)
    (fold_left
       (λ m feature,
          fold_left (λ m method, <[codes method := feature]> m)
            (methods feature) (<[codes (api feature) := feature]> m))
       mockJSFeatures ∅).

End baselineData.

(** ** The dashboard (dashboardPanel.ts) *)
Module dashboard.
Import baselineData.

Record ProjectStats := mkProjectStats {
  totalFiles : N;
  cssFiles : N;
  jsFiles : N;
  totalCSSProperties : N;
  totalJSAPIs : N;
  baselineCSSCount : N;
  limitedCSSCount : N;
  nonBaselineCSSCount : N;
  baselineJSCount : N;
  limitedJSCount : N;
  nonBaselineJSCount : N;
  baselineScore : option Z
}.

Definition getEmptyStats : ProjectStats :=
  mkProjectStats 0 0 0 0 0 0 0 0 0 0 0 (Some 100%Z).

(** The files that [vscode.workspace.findFiles] returned, opened. *)
Record Workspace := mkWorkspace {
  cssUris : list vscode.TextDocument;
  jsUris : list vscode.TextDocument
}.

(** The [for (const prop of properties)] loop. *)
Definition countCSS (dataProvider : BaselineDataProvider)
    (properties : list parser.CSSProperty) (c : Counts) : Counts :=
  fold_left
    (λ c prop,
       match getCSSFeature dataProvider (parser.name prop) with
       | Some feature => bump (status (css_feature feature)) c
       | None => c
       end)
    properties c.

(** The [for (const api of apis)] loop; [seenOnLine] is the [Set] of the
    line numbers met so far in the file. *)
Fixpoint countJS (dataProvider : BaselineDataProvider)
    (apis : list parser.JSAPIUsage) (seenOnLine : gset nat) (c : Counts)
    : Counts :=
  match apis with
  | [] => c
  | api :: rest =>
      if decide (parser.line api ∈ seenOnLine)
      then countJS dataProvider rest seenOnLine c
      else
        let seenOnLine := {[parser.line api]} ∪ seenOnLine in
        match getJSFeature dataProvider (parser.api api) with
        | Some feature =>
            countJS dataProvider rest seenOnLine
              (bump (status (js_feature feature)) c)
        | None => countJS dataProvider rest seenOnLine c
        end
  end.

(** The mutable locals of [getProjectStats] that the two file loops
    update. *)
Record Locals := mkLocals {
  l_totalCSSProperties : N;
  l_totalJSAPIs : N;
  l_css : Counts;
  l_js : Counts
}.

Definition cssFile (dataProvider : BaselineDataProvider) (st : Locals)
    (document : vscode.TextDocument) : Locals :=
  let t := vscode.getText document in
  let properties := parser.extractCSSProperties t document in
  mkLocals (l_totalCSSProperties st + N.of_nat (length properties))
    (l_totalJSAPIs st)
    (countCSS dataProvider properties (l_css st)) (l_js st).

Definition jsFile (dataProvider : BaselineDataProvider) (st : Locals)
    (document : vscode.TextDocument) : Locals :=
  let t := vscode.getText document in
  let apis := parser.extractAPIUsage t document in
  mkLocals (l_totalCSSProperties st)
    (l_totalJSAPIs st + N.of_nat (length apis))
    (l_css st) (countJS dataProvider apis ∅ (l_js st)).

(** [getProjectStats]; [None] is a window without workspace folders. *)
Definition getProjectStats (dataProvider : BaselineDataProvider)
    (workspaceFolders : option Workspace) : ProjectStats :=
  match workspaceFolders with
  | None => getEmptyStats
  | Some ws =>
      let cssFiles := N.of_nat (length (cssUris ws)) in
      let jsFiles := N.of_nat (length (jsUris ws)) in
      let st := mkLocals 0 0 noCounts noCounts in
      let st := fold_left (cssFile dataProvider) (take 50 (cssUris ws)) st in
      let st := fold_left (jsFile dataProvider) (take 50 (jsUris ws)) st in
      let totalBaseline :=
        (baselineCount (l_css st) + baselineCount (l_js st))%N in
      let totalFeatures :=
        (l_totalCSSProperties st + l_totalJSAPIs st)%N in
      mkProjectStats (cssFiles + jsFiles) cssFiles jsFiles
        (l_totalCSSProperties st) (l_totalJSAPIs st)
        (baselineCount (l_css st)) (limitedCount (l_css st))
        (nonBaselineCount (l_css st))
        (baselineCount (l_js st)) (limitedCount (l_js st))
        (nonBaselineCount (l_js st))
        (Scorer.baselineScore totalBaseline totalFeatures)
  end.

End dashboard.

(** ** The inline badges (jsDecorator.ts) *)
Module jsDecorator.
Import baselineData.

(** The loop of [decorateDocument] that fills [lineFeatures]: a usage
    without catalog record is skipped, and a line keeps the record of the
    first usage that has one. *)
Definition lineFeatures (dataProvider : BaselineDataProvider)
    (apiUsages : list parser.JSAPIUsage) : gmap nat JSFeature :=
  fold_left
    (λ m usage,
       match getJSFeature dataProvider (parser.api usage) with
       | None => m
       | Some feature =>
           match m !! parser.line usage with
           | None => <[parser.line usage := feature]> m
           | Some _ => m
           end
       end)
    apiUsages ∅.

End jsDecorator.

(** ** The command-line analyzer (cli/src/analyzer.ts) *)
Module analyzer.
Import Regex.

Inductive Language := css | js.

Record FileResult := mkFileResult {
  file : text;
  language : Language;
  counts : Counts;
  features : list text
}.

Record AnalyzeOptions := mkAnalyzeOptions {
  cssOnly : bool;
  jsOnly : bool
}.

Record AnalysisResult := mkAnalysisResult {
  totalFiles : N;
  cssFiles : N;
  jsFiles : N;
  totals : Counts;
  baselineScore : option Z;
  fileResults : list FileResult
}.

Local Open Scope string_scope.

Definition baselineData_css : gmap text text :=
  JSObject.literal
    [ ("display", "baseline"); ("flex", "baseline");
      ("flex-direction", "baseline"); ("flex-wrap", "baseline");
      ("justify-content", "baseline"); ("align-items", "baseline");
      ("gap", "baseline"); ("grid", "baseline");
      ("grid-template-columns", "baseline");
      ("grid-template-rows", "baseline"); ("position", "baseline");
      ("backdrop-filter", "baseline"); ("transform", "baseline");
      ("container-type", "limited"); ("container-name", "limited");
      ("container", "limited") ].

Definition baselineData_js : gmap text text :=
  JSObject.literal
    [ ("fetch", "baseline"); ("Promise", "baseline"); ("async", "baseline");
      ("await", "baseline"); ("IntersectionObserver", "baseline");
      ("ResizeObserver", "baseline"); ("MutationObserver", "baseline");
      ("localStorage", "baseline"); ("crypto", "baseline");
      ("BroadcastChannel", "baseline"); ("navigator.share", "limited");
      ("document.startViewTransition", "limited") ].

(** The pattern list of [analyzeJSFile]. *)
Definition patterns : list regex :=
  [ Seq WordB (Seq (Group 1 (alts ["fetch"; "localStorage"; "crypto"]))
      WordB);
    Seq WordB (Seq (Group 1
      (alts ["IntersectionObserver"; "ResizeObserver"; "MutationObserver"]))
      WordB);
    Seq WordB (Seq (Group 1 (lit "Promise")) WordB);
    Seq WordB (Seq (lit "async") (Seq (Plus isSpace) (lit "function")));
    Seq WordB (Seq (lit "await") (Plus isSpace));
    Seq (lit "navigator.") (Group 1 (lit "share"));
    Seq (lit "document.") (Group 1 (lit "startViewTransition")) ].

Local Close Scope string_scope.

(** [features.add(x)] on a [Set] that is later listed in insertion
    order. *)
Definition set_add (x : text) (s : list text) : list text :=
  if bool_decide (x ∈ s) then s else s ++ [x].

(** What one match does to the [features] set and the three counters of
    the file, given the identifier it stands for and the catalog. *)
Definition classify (data : gmap text text) (st : list text * Counts)
    (identifier : text) : list text * Counts :=
  let status := JSObject.get data identifier in
  if JSObject.truthy status
  then (set_add identifier (fst st), JSObject.bump status (snd st))
  else st.

(** [match[1] || 'async'] *)
Definition group1_or_async (m : rmatch) : text :=
  match group 1 m with
  | Some (c :: g) => c :: g
  | _ => codes "async"
  end.

Definition analyzeCSSFile (filePath content : text) : FileResult :=
  let st :=
    fold_left
      (λ st m, classify baselineData_css st (default [] (group 1 m)))
      (matchAll parser.propertyRegex content) ([], noCounts) in
  mkFileResult filePath css (snd st) (fst st).

Definition analyzeJSFile (filePath content : text) : FileResult :=
  let st :=
    fold_left
      (λ st pattern,
         fold_left
           (λ st m, classify baselineData_js st (group1_or_async m))
           (matchAll pattern content) st)
      patterns ([], noCounts) in
  mkFileResult filePath js (snd st) (fst st).

(** [totalBaseline += result.baselineCount] and its two siblings. *)
Definition accumulate (t : Counts) (result : FileResult) : Counts :=
  mkCounts (baselineCount t + baselineCount (counts result))
    (limitedCount t + limitedCount (counts result))
    (nonBaselineCount t + nonBaselineCount (counts result)).

(** A file found by [findFiles] and what [readFileSync] gives for it. *)
Record File := mkFile { path : text; content : text }.

(** One turn of a [for (const file of ...)] loop of [analyze]. *)
Definition visit (analyzeFile : text → text → FileResult)
    (st : list FileResult * Counts) (f : File) : list FileResult * Counts :=
  let result := analyzeFile (path f) (content f) in
  (fst st ++ [result], accumulate (snd st) result).

(** The score that [analyze] derives from its running totals. *)
Definition scoreOf (t : Counts) : option Z :=
  Scorer.baselineScore (baselineCount t)
    (baselineCount t + limitedCount t + nonBaselineCount t).

(** [ProjectAnalyzer.analyze]; the per-feature usage tables
    ([cssFeatures], [jsFeatures]) of the report are left out. *)
Definition analyze (cssFileList jsFileList : list File)
    (options : AnalyzeOptions) : AnalysisResult :=
  let st := ([], noCounts) in
  let st :=
    if jsOnly options then st
    else fold_left (visit analyzeCSSFile) cssFileList st in
  let st :=
    if cssOnly options then st
    else fold_left (visit analyzeJSFile) jsFileList st in
  mkAnalysisResult
    (N.of_nat (length cssFileList) + N.of_nat (length jsFileList))
    (N.of_nat (length cssFileList)) (N.of_nat (length jsFileList))
    (snd st) (scoreOf (snd st)) (fst st).

(** The fold that [analyze] performs over the per-file results, on its
    own: the aggregate of a list of results. *)
Definition aggregate (results : list FileResult) : Counts :=
  fold_left accumulate results noCounts.

(** A subtotal seen as a result again, so that it can be folded into a
    larger aggregate. *)
Definition subtotal (t : Counts) : FileResult :=
  mkFileResult [] css t [].

End analyzer.

(** ** Gates

    What a gate does besides computing: it prints warnings and it may stop
    the build or the process.  A gate is a computation that appends to a log
    and either returns or aborts. *)
Module Effect.

Inductive message :=
| BelowThreshold (score threshold : option Z)
| NonBaselineFound (count : N).

Inductive event :=
| Warned (m : message)
| Failed (m : message).

(** The log so far and, unless the computation was aborted, its value. *)
Definition M (A : Type) : Type := list event → list event * option A.

#[global] Instance M_ret : MRet M := λ A a log, (log, Some a).

#[global] Instance M_bind : MBind M :=
  λ A B f m log,
    match m log with
    | (log', Some a) => f a log'
    | (log', None) => (log', None)
    end.

(** [console.warn], [console.log] of a warning, [this.warn]. *)
Definition warn_ (m : message) : M unit := λ log, (log ++ [Warned m], Some tt).

(** [throw new Error], [this.error], [process.exit(1)] after the
    message. *)
Definition abort {A} (m : message) : M A := λ log, (log ++ [Failed m], None).

Definition when (b : bool) (m : M unit) : M unit := if b then m else mret tt.

Definition run {A} (m : M A) : list event * option A := m [].

(** The three outcomes of the specification's decision table. *)
Inductive Outcome := pass | warn | fail.

Definition is_warning (e : event) : bool :=
  match e with Warned _ => true | Failed _ => false end.

(** A gate that was aborted failed; one that returned after printing a
    warning warned; one that returned silently passed. *)
Definition outcome {A} (r : list event * option A) : Outcome :=
  match r with
  | (_, None) => fail
  | (log, Some _) => if existsb is_warning log then warn else pass
  end.

End Effect.

(** ** The [check] command (cli/src/index.ts) *)
Module cli.
Import Effect.

Record CheckOptions := mkCheckOptions {
  threshold : option Z;          (* [parseInt(options.threshold)] *)
  failOnNonBaseline : bool
}.

(** The tail of [runCheck], after the report has been printed. *)
Definition checkThresholds (options : CheckOptions)
    (results : analyzer.AnalysisResult) : M unit :=
  when (Number.ltb (analyzer.baselineScore results) (threshold options))
    (warn_ (BelowThreshold (analyzer.baselineScore results)
              (threshold options)) ;;
     when (failOnNonBaseline options)
       (abort (BelowThreshold (analyzer.baselineScore results)
                 (threshold options)))) ;;
  when (failOnNonBaseline options
        && (0 <? nonBaselineCount (analyzer.totals results))%N)
    (abort (NonBaselineFound (nonBaselineCount (analyzer.totals results)))).

End cli.

(** ** The build plugins

    The three plugins share their option names; each has its own catalog,
    pattern list and gate. *)
Record PluginOptions := mkPluginOptions {
  failOnNonBaseline : bool;
  threshold : option Z;
  cssOnly : bool;
  jsOnly : bool
}.

(** An entry of a plugin's [features] array. *)
Record FeatureUsage := mkFeatureUsage {
  feature : text;
  status : JSObject.value;
  file : text
}.

(** [/\.(css|scss|sass|less)$/] and [/\.(js|jsx|ts|tsx)$/] *)
Definition cssRegex : Regex.regex :=
  Regex.Seq (Regex.lit ".")
    (Regex.Seq (Regex.Group 1
       (Regex.alts ["css"; "scss"; "sass"; "less"]%string)) Regex.End_).

Definition jsRegex : Regex.regex :=
  Regex.Seq (Regex.lit ".")
    (Regex.Seq (Regex.Group 1
       (Regex.alts ["js"; "jsx"; "ts"; "tsx"]%string)) Regex.End_).

(** The looked-up status of an identifier, when it is truthy. *)
Definition known (data : gmap text text) (identifier : text)
    : option JSObject.value :=
  match JSObject.get data identifier with
  | Some v => if JSObject.truthy (Some v) then Some v else None
  | None => None
  end.

(** [match[1] || 'async'] *)
Definition group1_or_async (m : Regex.rmatch) : text :=
  match Regex.group 1 m with
  | Some (c :: g) => c :: g
  | _ => codes "async"
  end.

(** The entries that a plugin's [analyzeCSS] finds in one source. *)
Definition cssUsages (data : gmap text text) (source filename : text)
    : list FeatureUsage :=
  omap (λ m,
          let property := default [] (Regex.group 1 m) in
          (λ st, mkFeatureUsage property st filename) <$> known data property)
       (Regex.matchAll parser.propertyRegex source).

(** The entries that a plugin's [analyzeJavaScript] finds in one source. *)
Definition jsUsages (patterns : list Regex.regex) (data : gmap text text)
    (source filename : text) : list FeatureUsage :=
  concat
    (map (λ regex,
            omap (λ m,
                    let api := group1_or_async m in
                    (λ st, mkFeatureUsage api st filename) <$> known data api)
                 (Regex.matchAll regex source))
         patterns).

(** Counting a list of entries by status. *)
Definition countUsages (features : list FeatureUsage) (c : Counts) : Counts :=
  fold_left (λ c f, JSObject.bump (Some (status f)) c) features c.

(** *** plugins/webpack/src/index.ts *)
Module webpack.
Import Regex.

Local Open Scope string_scope.

Definition baselineData_css : gmap text text :=
  JSObject.literal
    [ ("display", "baseline"); ("flex", "baseline"); ("gap", "baseline");
      ("grid", "baseline"); ("container-type", "limited");
      ("backdrop-filter", "baseline") ].

Definition baselineData_js : gmap text text :=
  JSObject.literal
    [ ("fetch", "baseline"); ("Promise", "baseline");
      ("IntersectionObserver", "baseline"); ("async", "baseline");
      ("document.startViewTransition", "limited") ].

Definition patterns : list regex :=
  [ Seq WordB (Seq (Group 1
      (alts ["fetch"; "IntersectionObserver"; "Promise"])) WordB);
    Seq WordB (Seq (lit "async") (Seq (Plus isSpace) (lit "function")));
    Seq (lit "document.") (Group 1 (lit "startViewTransition")) ].

Local Close Scope string_scope.

Definition analyzeCSS (source filename : text) : list FeatureUsage :=
  cssUsages baselineData_css source filename.

Definition analyzeJavaScript (source filename : text) : list FeatureUsage :=
  jsUsages patterns baselineData_js source filename.

Definition shouldExclude (exclude : list regex) (filename : text) : bool :=
  existsb (λ pattern, test pattern filename) exclude.

(** [checkThresholds]: does the build fail? *)
Definition checkThresholds (options : PluginOptions) (score : option Z)
    (nonBaselineCount : N) : bool :=
  if failOnNonBaseline options && (0 <? nonBaselineCount)%N then true
  else if Number.truthy (threshold options)
          && Number.ltb score (threshold options)
  then true
  else false.

(** What the [emit] hook leaves behind: the counters, the score and the
    errors pushed onto [compilation.errors]. *)
Record Emitted := mkEmitted {
  counts : Counts;
  score : option Z;
  errors : list Effect.message
}.

(** The [emit] hook of [apply], over the assets of the compilation in
    their enumeration order. *)
Definition emit (options : PluginOptions) (exclude : list regex)
    (assets : list (text * text)) : Emitted :=
  let features :=
    concat
      (map (λ '(filename, source),
              if shouldExclude exclude filename then []
              else
                (if test cssRegex filename && negb (jsOnly options)
                 then analyzeCSS source filename else [])
                ++
                (if test jsRegex filename && negb (cssOnly options)
                 then analyzeJavaScript source filename else []))
           assets) in
  let c := countUsages features noCounts in
  let total := (baselineCount c + limitedCount c + nonBaselineCount c)%N in
  let score := Scorer.baselineScore (baselineCount c) total in
  let shouldFail := checkThresholds options score (nonBaselineCount c) in
  mkEmitted c score
    (if shouldFail then [Effect.BelowThreshold score (threshold options)]
     else []).

(** The build breaks when an error was pushed; the plugin has no way to
    warn. *)
Definition outcome (e : Emitted) : Effect.Outcome :=
  match errors e with
  | [] => Effect.pass
  | _ :: _ => Effect.fail
  end.

(** The gate alone, on a score and a non-baseline count. *)
Definition gate (options : PluginOptions) (score : option Z)
    (nonBaselineCount : N) : Effect.Outcome :=
  if checkThresholds options score nonBaselineCount
  then Effect.fail else Effect.pass.

End webpack.

(** *** The Vite and the Rollup plugin

    The two files differ in the hook that runs the gate ([closeBundle],
    [generateBundle]) and in how it stops the build ([throw new Error],
    [this.error]); catalog, patterns and gate are the same text. *)
Module bundler.
Import Regex Effect.

Record FeatureAnalysis := mkFeatureAnalysis {
  counts : Counts;
  features : list FeatureUsage
}.

Definition emptyAnalysis : FeatureAnalysis := mkFeatureAnalysis noCounts [].

Local Open Scope string_scope.

Definition baselineData_css : gmap text text :=
  JSObject.literal
    [ ("display", "baseline"); ("flex", "baseline"); ("gap", "baseline");
      ("grid", "baseline"); ("container-type", "limited");
      ("backdrop-filter", "baseline"); ("transform", "baseline") ].

Definition baselineData_js : gmap text text :=
  JSObject.literal
    [ ("fetch", "baseline"); ("Promise", "baseline");
      ("IntersectionObserver", "baseline"); ("ResizeObserver", "baseline");
      ("async", "baseline"); ("document.startViewTransition", "limited");
      ("navigator.share", "limited") ].

Definition patterns : list regex :=
  [ Seq WordB (Seq (Group 1
      (alts ["fetch"; "IntersectionObserver"; "ResizeObserver"; "Promise"]))
      WordB);
    Seq WordB (Seq (lit "async") (Seq (Plus isSpace) (lit "function")));
    Seq (lit "navigator.") (Group 1 (lit "share"));
    Seq (lit "document.") (Group 1 (lit "startViewTransition")) ].

Local Close Scope string_scope.

(** [analyzeCSS] and [analyzeJavaScript]: each entry found is pushed onto
    [analysis.features] and counted at once. *)
Definition record (found : list FeatureUsage) (analysis : FeatureAnalysis)
    : FeatureAnalysis :=
  mkFeatureAnalysis (countUsages found (counts analysis))
    (features analysis ++ found).

Definition analyzeCSS (code filename : text) (analysis : FeatureAnalysis)
    : FeatureAnalysis :=
  record (cssUsages baselineData_css code filename) analysis.

Definition analyzeJavaScript (code filename : text)
    (analysis : FeatureAnalysis) : FeatureAnalysis :=
  record (jsUsages patterns baselineData_js code filename) analysis.

(** The [transform] hook: its effect on the shared [analysis] object. *)
Definition transform (config : PluginOptions) (code id : text)
    (analysis : FeatureAnalysis) : FeatureAnalysis :=
  if includes id (codes "node_modules") then analysis
  else
    let analysis :=
      if test cssRegex id && negb (jsOnly config)
      then analyzeCSS code id analysis else analysis in
    if test jsRegex id && negb (cssOnly config)
    then analyzeJavaScript code id analysis else analysis.

(** [closeBundle] (Vite) and [generateBundle] (Rollup), after the results
    have been printed. *)
Definition closeBundle (config : PluginOptions) (analysis : FeatureAnalysis)
    : M unit :=
  let c := counts analysis in
  let total := (baselineCount c + limitedCount c + nonBaselineCount c)%N in
  let score := Scorer.baselineScore (baselineCount c) total in
  when (Number.truthy (threshold config)
        && Number.ltb score (threshold config))
    (if failOnNonBaseline config
     then abort (BelowThreshold score (threshold config))
     else warn_ (BelowThreshold score (threshold config))) ;;
  when (failOnNonBaseline config && (0 <? nonBaselineCount c)%N)
    (abort (NonBaselineFound (nonBaselineCount c))).

End bundler.

(** ** The inline badges (cssDecorator.ts, jsDecorator.ts)

    A decoration sits at the end of a line and carries the tooltip of a
    catalog record; it is kept as the line number and the record. *)
Module cssDecorator.
Import baselineData.

Record Decoration := mkDecoration {
  line : nat;
  hover : CSSFeature
}.

(** The three arrays that [decorateDocument] hands to
    [editor.setDecorations]. *)
Record Decorations := mkDecorations {
  baselineDecorations : list Decoration;
  limitedDecorations : list Decoration;
  nonBaselineDecorations : list Decoration
}.

Definition isCSSDocument (languageId : text) : bool :=
  existsb (λ s, text_eqb languageId (codes s))
    ["css"; "scss"; "less"; "postcss"]%string.

(** The [switch (feature.status)] that files a decoration. *)
Definition push (d : Decoration) (ds : Decorations) : Decorations :=
  match status (css_feature (hover d)) with
  | baseline =>
      mkDecorations (baselineDecorations ds ++ [d]) (limitedDecorations ds)
        (nonBaselineDecorations ds)
  | limited =>
      mkDecorations (baselineDecorations ds) (limitedDecorations ds ++ [d])
        (nonBaselineDecorations ds)
  | not_baseline =>
      mkDecorations (baselineDecorations ds) (limitedDecorations ds)
        (nonBaselineDecorations ds ++ [d])
  end.

(** [cssDecorator.decorateDocument]; [None] when the document is skipped. *)
Definition decorateDocument (dataProvider : BaselineDataProvider)
    (languageId : text) (document : vscode.TextDocument)
    : option Decorations :=
  if negb (isCSSDocument languageId) then None
  else
    let t := vscode.getText document in
    let properties := parser.extractCSSProperties t document in
    Some
      (fold_left
         (λ ds prop,
            match getCSSFeature dataProvider (parser.name prop) with
            | None => ds
            | Some feature =>
                push (mkDecoration (parser.css_line prop) feature) ds
            end)
         properties (mkDecorations [] [] [])).

End cssDecorator.

Module jsDecorations.
Import baselineData.

Record Decoration := mkDecoration {
  line : nat;
  hover : JSFeature
}.

Record Decorations := mkDecorations {
  baselineDecorations : list Decoration;
  limitedDecorations : list Decoration;
  nonBaselineDecorations : list Decoration
}.

Definition isJSDocument (languageId : text) : bool :=
  existsb (λ s, text_eqb languageId (codes s))
    ["javascript"; "typescript"; "javascriptreact"; "typescriptreact"]%string.

(** The [Map] that the first loop of [decorateDocument] fills, as the list
    of its entries in insertion order. *)
Definition lineFeatures (dataProvider : BaselineDataProvider)
    (apiUsages : list parser.JSAPIUsage) : list (nat * JSFeature) :=
  fold_left
    (λ entries usage,
       match getJSFeature dataProvider (parser.api usage) with
       | None => entries
       | Some feature =>
           if bool_decide (parser.line usage ∈ map fst entries)
           then entries
           else entries ++ [(parser.line usage, feature)]
       end)
    apiUsages [].

Definition push (d : Decoration) (ds : Decorations) : Decorations :=
  match status (js_feature (hover d)) with
  | baseline =>
      mkDecorations (baselineDecorations ds ++ [d]) (limitedDecorations ds)
        (nonBaselineDecorations ds)
  | limited =>
      mkDecorations (baselineDecorations ds) (limitedDecorations ds ++ [d])
        (nonBaselineDecorations ds)
  | not_baseline =>
      mkDecorations (baselineDecorations ds) (limitedDecorations ds)
        (nonBaselineDecorations ds ++ [d])
  end.

(** [jsDecorations.decorateDocument]; [None] when the document is skipped. *)
Definition decorateDocument (dataProvider : BaselineDataProvider)
    (languageId : text) (document : vscode.TextDocument)
    : option Decorations :=
  if negb (isJSDocument languageId) then None
  else
    let t := vscode.getText document in
    let apiUsages := parser.extractAPIUsage t document in
    Some
      (fold_left
         (λ ds '(lineNumber, feature),
            push (mkDecoration lineNumber feature) ds)
         (lineFeatures dataProvider apiUsages) (mkDecorations [] [] [])).

End jsDecorations.

(** ** [parseInt]

    [parseInt(s)] without radix: leading white space and one sign are
    skipped, [0x] or [0X] selects base 16, and the longest run of digits
    is read; [None] is [NaN].  The result is the mathematical value; the
    Number that JavaScript returns is its rounding, which compares with
    the small integers used below as the value itself does. *)
Module parseInt.

Definition digit (radix : Z) (c : N) : option Z :=
  let v :=
    if ((48 <=? c) && (c <=? 57))%N then Some (Z.of_N c - 48)%Z
    else if ((97 <=? c) && (c <=? 122))%N then Some (Z.of_N c - 87)%Z
    else if ((65 <=? c) && (c <=? 90))%N then Some (Z.of_N c - 55)%Z
    else None in
  match v with
  | Some d => if (d <? radix)%Z then Some d else None
  | None => None
  end.

(** The value of the longest prefix of digits, [None] when it is empty. *)
Fixpoint digits (radix : Z) (s : text) (acc : option Z) : option Z :=
  match s with
  | c :: s' =>
      match digit radix c with
      | Some d => digits radix s' (Some (default 0 acc * radix + d)%Z)
      | None => acc
      end
  | [] => acc
  end.

Definition parseInt (inputString : text) : option Z :=
  let s := trimStart inputString in
  let sign :=
    match s with
    | c :: _ => if (c =? 45)%N then (-1)%Z else 1%Z
    | [] => 1%Z
    end in
  let s :=
    match s with
    | c :: s' => if (c =? 45)%N || (c =? 43)%N then s' else s
    | [] => s
    end in
  let stripPrefix :=
    match s with
    | c :: x :: _ => (c =? 48)%N && ((x =? 120)%N || (x =? 88)%N)
    | _ => false
    end in
  let radix := if stripPrefix then 16%Z else 10%Z in
  let s := if stripPrefix then drop 2 s else s in
  match digits radix s None with
  | Some mathInt => Some (sign * mathInt)%Z
  | None => None
  end.

End parseInt.

(** ** JSON values

    What [JSON.parse] returns, and the three operations that [audit]
    applies to it.  An object is kept as the list of its own properties,
    with distinct keys, in the order in which [Object.entries] lists them:
    the keys that are array indices first, in ascending order, then the
    others in the order in which the text introduces them. *)
Module JSON.

#[warnings="-register-all"] Inductive value :=
| JNull
| JBool (b : bool)
| JNumber (x : spec_float)
| JString (s : text)
| JArray (items : list value)
| JObject (properties : list (text * value)).

Inductive Error := TypeError.

Fixpoint own (properties : list (text * value)) (key : text)
    : option value :=
  match properties with
  | [] => None
  | (k, v) :: properties' =>
      if text_eqb key k then Some v else own properties' key
  end.

(** [v.dependencies] and [v.devDependencies], [None] for [undefined]:
    reading a member of [null] throws; a primitive, an array and
    [Object.prototype] have no member of these two names. *)
Definition get (v : value) (key : text) : Error + option value :=
  match v with
  | JNull => inl TypeError
  | JObject properties => inr (own properties key)
  | JBool _ | JNumber _ | JString _ | JArray _ => inr None
  end.

Definition truthy (v : value) : bool :=
  match v with
  | JNull | JBool false | JString [] => false
  | JNumber (S754_zero _) | JNumber S754_nan => false
  | _ => true
  end.

(** [v || {}] *)
Definition orEmpty (v : option value) : value :=
  match v with
  | Some v => if truthy v then v else JObject []
  | None => JObject []
  end.

(** [Object.entries(v)]: the properties of an object, the elements of an
    array and the units of a string under their indices; nothing for a
    number or a boolean; [null] throws. *)
Definition entries (v : value) : Error + list (text * value) :=
  match v with
  | JNull => inl TypeError
  | JObject properties => inr properties
  | JArray items => inr (imap (λ i x, (nat_codes i, x)) items)
  | JString s => inr (imap (λ i c, (nat_codes i, JString [c])) s)
  | JBool _ | JNumber _ => inr []
  end.

End JSON.

(** ** The dependency audit (cli/src/dependencyAuditor.ts) *)
Module dependencyAuditor.
Import Regex.

Inductive Flag := polyfill | unnecessary.

Record PackageRequirement := mkRequirement {
  baselineFeatures : list string;
  notes : string;
  flag : option Flag
}.

Inductive DependencyType := production | dev.

Inductive Severity := high | medium | low.

Record DependencyInfo := mkDependencyInfo {
  name : text;
  version : text;
  type : DependencyType;
  hasIssues : bool;
  issues : list text
}.

Record DependencyIssue := mkDependencyIssue {
  package : text;
  severity : Severity;
  issue : text;
  recommendation : text
}.

Record DependencyAuditResult := mkDependencyAuditResult {
  totalDependencies : N;
  productionDependencies : N;
  devDependencies : N;
  dependencies : list DependencyInfo;
  potentialIssues : list DependencyIssue
}.

Local Open Scope string_scope.

Definition knownPackages : list (string * PackageRequirement) :=
  [ ("styled-components",
     mkRequirement ["CSS Custom Properties"; "CSS Grid"; "Flexbox"]
       "Uses modern CSS features for styling" None);
    ("@emotion/react",
     mkRequirement ["CSS Custom Properties"; "CSS Grid"]
       "Emotion uses modern CSS features" None);
    ("tailwindcss",
     mkRequirement ["CSS Grid"; "Flexbox"; "Custom Properties"]
       "Tailwind generates modern CSS utility classes" None);
    ("core-js",
     mkRequirement []
       "Polyfill library - indicates use of non-baseline JavaScript features"
       (Some polyfill));
    ("regenerator-runtime",
     mkRequirement [] "Async/await polyfill for older browsers"
       (Some polyfill));
    ("whatwg-fetch",
     mkRequirement [] "Fetch API polyfill - fetch is now Baseline"
       (Some unnecessary));
    ("intersection-observer",
     mkRequirement [] "IntersectionObserver polyfill - now Baseline"
       (Some unnecessary));
    ("react",
     mkRequirement ["ES6 Classes"; "Promises"; "Map/Set"]
       "React requires modern JavaScript baseline features" None);
    ("vue",
     mkRequirement ["ES6 Classes"; "Promises"; "Proxy"]
       "Vue 3 requires Baseline JavaScript features" None);
    ("svelte",
     mkRequirement ["ES6 Modules"; "Promises"]
       "Svelte compiles to modern JavaScript" None);
    ("vite",
     mkRequirement ["ES Modules"; "Dynamic Import"]
       "Vite uses native ES modules in development" None);
    ("webpack",
     mkRequirement ["Promises"; "ES6"]
       "Modern webpack versions target Baseline features" None);
    ("bootstrap",
     mkRequirement ["CSS Grid"; "Flexbox"; "Custom Properties"]
       "Bootstrap 5+ uses modern CSS features" None);
    ("bulma",
     mkRequirement ["Flexbox"; "CSS Grid"] "Bulma is built on Flexbox" None);
    ("axios",
     mkRequirement ["Promises"; "Fetch API alternative"]
       "Consider using native fetch() which is now Baseline" None);
    ("jquery",
     mkRequirement []
       "Many jQuery features are now available natively with Baseline APIs"
       (Some unnecessary));
    ("moment",
     mkRequirement []
       "Consider modern alternatives like date-fns or native Intl.DateTimeFormat"
       (Some unnecessary)) ].

(** The table of [isOldVersion]. *)
Definition oldVersions : list (string * Z) :=
  [ ("react", 16%Z); ("vue", 2%Z); ("bootstrap", 4%Z); ("jquery", 3%Z);
    ("lodash", 3%Z); ("moment", 2%Z) ].

Local Close Scope string_scope.

(** What [table[name]] finds in an object literal: an own entry, a member
    inherited from [Object.prototype], or nothing. *)
Inductive Found (A : Type) :=
| Own (a : A)
| Inherited
| Missing.
Arguments Own {A} a.
Arguments Inherited {A}.
Arguments Missing {A}.

Fixpoint own {A} (table : list (string * A)) (key : text) : option A :=
  match table with
  | [] => None
  | (k, a) :: table' =>
      if text_eqb key (codes k) then Some a else own table' key
  end.

Definition lookup {A} (table : list (string * A)) (key : text) : Found A :=
  match own table key with
  | Some a => Own a
  | None => if JSObject.inherited key then Inherited else Missing
  end.

(** [/^[\^~>=<]+/] *)
Definition isRangeChar (c : N) : bool :=
  ((c =? 94) || (c =? 126) || (c =? 62) || (c =? 61) || (c =? 60))%N.

Definition prefixRegex : regex := Seq Begin (Plus isRangeChar).

(** [s.split('.')[0]] *)
Fixpoint beforeDot (s : text) : text :=
  match s with
  | [] => []
  | c :: s' => if (c =? 46)%N then [] else c :: beforeDot s'
  end.

(** [DependencyAuditor.isOldVersion].  An inherited member in the place of
    the threshold is a function or an object; compared with a number it
    counts as [NaN], and the comparison is false. *)
Definition isOldVersion (name version : text) : bool :=
  let cleanVersion := remove_first prefixRegex None version 0 in
  let first := beforeDot cleanVersion in
  let major :=
    parseInt.parseInt
      (match first with [] => codes "0" | _ :: _ => first end) in
  match lookup oldVersions name with
  | Own threshold =>
      Number.truthy (Some threshold) && Number.ltb major (Some threshold)
  | Inherited | Missing => false
  end.

Definition polyfillIssue : text :=
  codes "Uses polyfills - may indicate non-baseline feature usage".
Definition unnecessaryIssue : text :=
  codes "Polyfill may be unnecessary - feature is now Baseline".
Definition oldVersionIssue : text :=
  codes "Old version detected - consider upgrading to use Baseline features".

(** [DependencyAuditor.auditPackage] *)
Definition auditPackage (name version : text) (type : DependencyType)
    : DependencyInfo :=
  let issues :=
    match lookup knownPackages name with
    | Own knownPackage =>
        match flag knownPackage with
        | Some polyfill => [polyfillIssue]
        | Some unnecessary => [unnecessaryIssue]
        | None => []
        end
        ++ match codes (notes knownPackage) with
           | [] => []
           | n => [n]
           end
    | Inherited | Missing => []
    end in
  let issues :=
    if isOldVersion name version then issues ++ [oldVersionIssue]
    else issues in
  mkDependencyInfo name version type
    (match issues with [] => false | _ :: _ => true end) issues.

(** [DependencyAuditor.createIssue] *)
Definition createIssue (packageName issueText : text) : DependencyIssue :=
  let knownFlag :=
    match lookup knownPackages packageName with
    | Own knownPackage => flag knownPackage
    | Inherited | Missing => None
    end in
  let '(severity, recommendation) :=
    match knownFlag with
    | Some unnecessary =>
        (medium,
         codes "Remove " ++ packageName
         ++ codes " - the feature is now Baseline and doesn't need a polyfill")
    | Some polyfill =>
        (low, codes "Review if polyfills are needed for your target browsers")
    | None =>
        if includes issueText (codes "Old version")
        then (medium,
              codes "Upgrade " ++ packageName
              ++ codes " to latest version for better Baseline support")
        else (low, codes "Review package usage and consider alternatives")
    end in
  mkDependencyIssue packageName severity issueText recommendation.

(** What [audit] finds at [package.json]: no file ([existsSync] is
    false), a file that [readFileSync] cannot read, a text that
    [JSON.parse] rejects, or the value that [JSON.parse] returns. *)
Inductive PackageFile :=
| Absent
| Unreadable
| Malformed
| Parsed (packageJson : JSON.value).

(** What [audit] throws. *)
Inductive AuditError :=
| PackageJsonNotFound
| ReadError
| SyntaxError
| TypeError.

Definition lift {A} (x : JSON.Error + A) : AuditError + A :=
  match x with
  | inl JSON.TypeError => inl TypeError
  | inr a => inr a
  end.

Definition bind {A B} (x : AuditError + A) (f : A → AuditError + B)
    : AuditError + B :=
  match x with
  | inl e => inl e
  | inr a => f a
  end.

(** The body of the two [for] loops of [audit] once [auditPackage] has
    returned: the two [push]es. *)
Definition pushInfo (name : text) (depInfo : DependencyInfo)
    (st : list DependencyInfo * list DependencyIssue)
    : list DependencyInfo * list DependencyIssue :=
  (st.1 ++ [depInfo],
   if hasIssues depInfo
   then st.2 ++ map (createIssue name) (issues depInfo)
   else st.2).

(** One turn of the two [for] loops of [audit].  [auditPackage] hands the
    version to [isOldVersion], which calls [version.replace]: a version
    that is not a string has no such method (a JSON value is never a
    function), and the call throws. *)
Definition auditEntry (type : DependencyType)
    (st : AuditError + list DependencyInfo * list DependencyIssue)
    (entry : text * JSON.value)
    : AuditError + list DependencyInfo * list DependencyIssue :=
  bind st (λ st,
    let '(name, version) := entry in
    match version with
    | JSON.JString version =>
        inr (pushInfo name (auditPackage name version type) st)
    | _ => inl TypeError
    end).

(** [DependencyAuditor.audit] *)
Definition audit (file : PackageFile)
    : AuditError + DependencyAuditResult :=
  match file with
  | Absent => inl PackageJsonNotFound
  | Unreadable => inl ReadError
  | Malformed => inl SyntaxError
  | Parsed packageJson =>
      bind (lift (JSON.get packageJson (codes "dependencies"))) (λ d,
      bind (lift (JSON.get packageJson (codes "devDependencies"))) (λ dd,
      let dependencies := JSON.orEmpty d in
      let devDependencies := JSON.orEmpty dd in
      bind (lift (JSON.entries dependencies)) (λ prod,
      bind (fold_left (auditEntry production) prod (inr ([], []))) (λ st,
      bind (lift (JSON.entries devDependencies)) (λ devs,
      bind (fold_left (auditEntry dev) devs (inr st)) (λ st,
      inr (mkDependencyAuditResult (N.of_nat (length st.1))
             (N.of_nat (length prod)) (N.of_nat (length devs))
             st.1 st.2)))))))
  end.

(** The three groups that [runAudit] prints (cli/src/reporter.ts). *)
Definition bySeverity (s : Severity) (l : list DependencyIssue)
    : list DependencyIssue :=
  List.filter
    (λ i, match severity i, s with
          | high, high | medium, medium | low, low => true
          | _, _ => false
          end) l.

End dependencyAuditor.

(** ** The per-feature table of the report
    ([ProjectAnalyzer.aggregateFeatures], cli/src/analyzer.ts) *)
Module featureTable.
Import analyzer.

Record FeatureUsage := mkFeatureUsage {
  name : text;
  feature : text;
  status : JSObject.value;
  count : N;
  files : list text
}.

(** [status || 'not-baseline'] for the catalog of the result's language. *)
Definition statusOf (language : Language) (feature : text)
    : JSObject.value :=
  let status :=
    JSObject.get
      (match language with
       | css => baselineData_css
       | js => baselineData_js
       end) feature in
  match status with
  | Some v => if JSObject.truthy status then v
              else JSObject.VString (codes "not-baseline")
  | None => JSObject.VString (codes "not-baseline")
  end.

(** One turn of the inner [forEach] on the [Map], kept as the list of its
    values in insertion order: the entry of the feature is updated in
    place, a feature without entry gets one at the end. *)
Fixpoint record (result : FileResult) (feature : text)
    (featureMap : list FeatureUsage) : list FeatureUsage :=
  match featureMap with
  | [] =>
      [mkFeatureUsage feature feature (statusOf (language result) feature) 1
         [file result]]
  | existing :: rest =>
      if text_eqb (name existing) feature
      then mkFeatureUsage (name existing) (featureTable.feature existing)
             (status existing) (count existing + 1)
             (files existing ++ [file result]) :: rest
      else existing :: record result feature rest
  end.

(** [sort((a, b) => b.count - a.count)]: the sort is stable, so the
    result is the one of inserting the entries one after the other, each
    behind the entries that count at least as much. *)
Fixpoint insert (a : FeatureUsage) (sorted : list FeatureUsage)
    : list FeatureUsage :=
  match sorted with
  | [] => [a]
  | b :: rest =>
      if (count b <? count a)%N then a :: b :: rest
      else b :: insert a rest
  end.

Definition sort (l : list FeatureUsage) : list FeatureUsage :=
  fold_left (λ sorted a, insert a sorted) l [].

(** The [Map] after the two nested [forEach] loops. *)
Definition featureMap (results : list FileResult) : list FeatureUsage :=
  fold_left
    (λ m result, fold_left (λ m feature, record result feature m)
                   (features result) m)
    results [].

Definition aggregateFeatures (results : list FileResult)
    : list FeatureUsage :=
  sort (featureMap results).

(** [cssFeatures] and [jsFeatures] of the analysis result. *)
Definition cssFeatures (fileResults : list FileResult) : list FeatureUsage :=
  aggregateFeatures
    (List.filter (λ f, match language f with css => true | js => false end)
       fileResults).

Definition jsFeatures (fileResults : list FileResult) : list FeatureUsage :=
  aggregateFeatures
    (List.filter (λ f, match language f with js => true | css => false end)
       fileResults).

End featureTable.

(** ** The position helpers of src/utils/parser.ts

    Both read the document at a position; they are given what the editor
    returns for it: the text and the offset of the position
    ([document.offsetAt(position)]), or the text of the position's line
    ([document.lineAt(position.line).text]) and its character. *)
Module positions.

(** The [for] loop of [isInsideRuleBlock]: [text[i]] for [i] from the
    start up to [offset]; beyond the end of the text it is [undefined] and
    changes nothing. *)
Fixpoint braceDepth (text : text) (offset : nat) (depth : Z) : Z :=
  match offset, text with
  | S offset', c :: text' =>
      let depth := if (c =? 123)%N then (depth + 1)%Z else depth in
      let depth := if (c =? 125)%N then (depth - 1)%Z else depth in
      braceDepth text' offset' depth
  | _, _ => depth
  end.

(** [CSSParser.isInsideRuleBlock] *)
Definition isInsideRuleBlock (text : text) (offset : nat) : bool :=
  (0 <? braceDepth text offset 0)%Z.

(** [s.indexOf(p)], counted from [from]; [None] stands for [-1]. *)
Fixpoint indexOf (s p : text) (from : nat) : option nat :=
  if startsWith s p then Some from
  else match s with
       | [] => None
       | _ :: s' => indexOf s' p (S from)
       end.

(** [JSParser.isInsideComment] *)
Definition isInsideComment (line : text) (charPos : nat) : bool :=
  match indexOf line (codes "//") 0 with
  | Some singleComment => singleComment <? charPos
  | None => false
  end.

End positions.

(** * Notions used in the statements *)

(** The pointwise sum of two triples of counters. *)
Definition plus (a b : Counts) : Counts :=
  mkCounts (baselineCount a + baselineCount b)
    (limitedCount a + limitedCount b)
    (nonBaselineCount a + nonBaselineCount b).

Section CountingNotions.
Import baselineData parser.

Variable dataProvider : BaselineDataProvider.

(** Counting a list of usages one by one, each against the catalog. *)
Definition tally (picked : list JSAPIUsage) (c : Counts) : Counts :=
  fold_left
    (λ c u,
       match getJSFeature dataProvider (api u) with
       | Some feature => bump (status (js_feature feature)) c
       | None => c
       end)
    picked c.

Definition total (c : Counts) : N :=
  (baselineCount c + limitedCount c + nonBaselineCount c)%N.

Definition isKnown (u : JSAPIUsage) : Prop :=
  is_Some (getJSFeature dataProvider (api u)).

#[global] Instance isKnown_dec u : Decision (isKnown u).
Proof. unfold isKnown. apply _. Defined.

(** The first usage of the list that lies on the line [ln]. *)
Definition firstOnLine (apis : list JSAPIUsage) (ln : nat)
    : option JSAPIUsage :=
  find (λ v, bool_decide (line v = ln)) apis.

End CountingNotions.

(** The identifiers that the editor's scanner emits for a text. *)
Definition identifiers (t : string) : list text :=
  map parser.api
    (parser.extractAPIUsage (codes t) (vscode.document_of (codes t))).

(** The score as the specification words it: 100 for an empty total, else
    the exact [100 * baseline / total] rounded to the nearest integer,
    halves up. *)
Definition specScore (baseline limited nonBaseline : N) : Z :=
  let total := Z.of_N (baseline + limited + nonBaseline) in
  if (total =? 0)%Z then 100%Z
  else ((2 * (100 * Z.of_N baseline) + total) / (2 * total))%Z.

(** One score is at most another: both are integers, in that order. *)
Definition score_le (x y : option Z) : Prop :=
  ∃ s s', x = Some s ∧ y = Some s' ∧ (s ≤ s')%Z.

(** ** Rounding in binary64 *)
Section RoundingNotions.
Local Open Scope Z_scope.

(** What a shift record says about the exact value [num / den]: its
    mantissa is the integer part, the round bit tells whether the
    fractional part reaches one half, the sticky bit whether it is neither
    zero nor one half. *)
Definition locates (mrs : shr_record) (num den : Z) : Prop :=
  let f := num - shr_m mrs * den in
  0 ≤ f < den
  ∧ (shr_r mrs = true ↔ den ≤ 2 * f)
  ∧ (shr_s mrs = true ↔ 0 < f ∧ 2 * f ≠ den).

(** What a location says about [num / den] relative to the mantissa. *)
Definition loc_ok (l : location) (m num den : Z) : Prop :=
  match l with
  | loc_Exact => num = m * den
  | loc_Inexact c =>
      m * den < num < m * den + den ∧ (2 * (num - m * den) ?= den) = c
  end.

(** Rounding the rational [num / den] to the nearest integer, to the even
    one of the two when it lies halfway. *)
Definition rheZ (num den : Z) : Z :=
  let q := num / den in
  match 2 * (num - q * den) ?= den with
  | Lt => q
  | Eq => if Z.even q then q else q + 1
  | Gt => q + 1
  end.

(** A float with a mantissa of 53 bits and an exponent between [lo] and
    [hi]. *)
Definition canonical (f : spec_float) (lo hi : Z) : Prop :=
  ∃ M E, f = S754_finite false (Z.to_pos M) E
         ∧ 2 ^ 52 ≤ M < 2 ^ 53 ∧ lo ≤ E ≤ hi.

Local Open Scope Q_scope.

(** The value of a mantissa and an exponent. *)
Definition Fval (M E : Z) : Q := inject_Z M * 2 ^ E.

(** The value of a finite Number. *)
Definition val (f : spec_float) : Q :=
  match f with
  | S754_finite false m e => Fval (Z.pos m) e
  | S754_finite true m e => - Fval (Z.pos m) e
  | _ => 0
  end.

(** [rounded X f]: the Number [f] is the exact value [X] rounded to nearest
    even at the scale [u] of its binade. *)
Definition rounded (X : Q) (f : spec_float) : Prop :=
  ∃ N D u M E,
    (0 < D)%Z ∧ (2 ^ 52 * D ≤ N < 2 ^ 53 * D)%Z
    ∧ X == inject_Z N / inject_Z D * 2 ^ u
    ∧ f = S754_finite false (Z.to_pos M) E
    ∧ (2 ^ 52 ≤ M < 2 ^ 53)%Z ∧ (u ≤ E ≤ u + 1)%Z
    ∧ Fval M E == Fval (rheZ N D) u.

(** The relative error of one rounding is at most [2^-53]. *)
Definition eps : Q := 1 # 9007199254740992.

End RoundingNotions.

(** Closes the side goals that relate a constant bit to a linear fact. *)
Ltac bits :=
  intros; first [ discriminate | reflexivity | lia | exfalso; lia ].

(** ** What a regular expression matches

    The matcher of [Regex] is a function; the statements about the scanners
    speak of the texts it accepts through the relation below. *)
Module RegexSpec.
Import Regex.

(** [Matches r st st']: the expression [r] can take the matcher from the
    state [st] to the state [st']. *)
Fixpoint Matches (r : regex) (st st' : mstate) : Prop :=
  match r with
  | Class p =>
      ∃ c tl, m_rest st = c :: tl ∧ p c = true
              ∧ st' = MState (Some c) tl (S (m_pos st)) (m_caps st)
  | Star p =>
      ∃ w, Forall (λ c, p c = true) w
           ∧ m_rest st = w ++ m_rest st'
           ∧ m_pos st' = m_pos st + length w
           ∧ m_caps st' = m_caps st
  | Seq r1 r2 => ∃ st1, Matches r1 st st1 ∧ Matches r2 st1 st'
  | Alt r1 r2 => Matches r1 st st' ∨ Matches r2 st st'
  | Group i r' =>
      ∃ st1, Matches r' st st1
             ∧ st' = MState (m_prev st1) (m_rest st1) (m_pos st1)
                       ((i, take (m_pos st1 - m_pos st) (m_rest st))
                        :: m_caps st1)
  | WordB =>
      xorb (isWordOpt (m_prev st)) (isWordOpt (head (m_rest st))) = true
      ∧ st' = st
  | Begin => m_pos st = 0 ∧ st' = st
  | End_ => m_rest st = [] ∧ st' = st
  | Eps => st' = st
  end.

(** [consumed st w st']: the units [w] were read, no group was closed. *)
Definition consumed (st : mstate) (w : text) (st' : mstate) : Prop :=
  m_rest st = w ++ m_rest st' ∧ m_pos st' = m_pos st + length w
  ∧ m_caps st' = m_caps st.

(** An expression without capturing group. *)
Fixpoint groupless (r : regex) : bool :=
  match r with
  | Seq r1 r2 | Alt r1 r2 => groupless r1 && groupless r2
  | Group _ _ => false
  | _ => true
  end.

(** The unit just before the matcher once it has read [w]. *)
Definition prev_after (prev : option N) (w : text) : option N :=
  match last w with Some c => Some c | None => prev end.

(** The unit that comes next, if any, is not of the class. *)
Definition stops (p : N → bool) (rest : text) : Prop :=
  match rest with c :: _ => p c = false | [] => True end.

End RegexSpec.

(** ** Identifiers of the JS passes *)

(** The status that a catalog gives an identifier is ['baseline'] or
    falsy. *)
Definition baselineOrAbsent (data : gmap text text) (identifier : text)
    : bool :=
  let status := JSObject.get data identifier in
  negb (JSObject.truthy status) || JSObject.strictEq status "baseline".

(** [match[1] || 'async'] satisfies [P] for every match of the pattern. *)
Definition yields (pattern : Regex.regex) (P : text → Prop) : Prop :=
  ∀ content m,
    m ∈ Regex.matchAll pattern content → P (group1_or_async m).

(** [match[1] || match[0]] satisfies [P] for every match of the
    pattern. *)
Definition yieldsWhole (pattern : Regex.regex) (P : text → Prop) : Prop :=
  ∀ content m,
    m ∈ Regex.matchAll pattern content → P (parser.group1_or_whole m).

(** [/^new\s+/], the expression that [cleanAPIName] removes. *)
Definition newRegex : Regex.regex :=
  Regex.Seq Regex.Begin (Regex.Seq (Regex.lit "new") (Regex.Plus isSpace)).

(** An identifier as [cleanAPIName] leaves it: not empty, made of word
    characters and dots, and equal to [async] once it mentions [async] or
    [await]. *)
Definition cleanIdentifier (api : text) : bool :=
  match api with [] => false | _ :: _ => true end
  && forallb parser.isWordOrDot api
  && implb (includes api (codes "async") || includes api (codes "await"))
       (text_eqb api (codes "async")).

(** A decimal digit. *)
Definition isDigit (c : N) : bool := ((48 <=? c) && (c <=? 57))%N.

(** ** The dashboard and the badges *)

(** What the two file loops of [getProjectStats] keep true of the locals:
    no more usages are classified than were scanned. *)
Definition classified_le_scanned (st : dashboard.Locals) : Prop :=
  (total (dashboard.l_css st) ≤ dashboard.l_totalCSSProperties st)%N
  ∧ (total (dashboard.l_js st) ≤ dashboard.l_totalJSAPIs st)%N.

(** The first usage on line [ln] that has a catalog record, as its
    record. *)
Fixpoint firstKnownOnLine (dataProvider : baselineData.BaselineDataProvider)
    (apis : list parser.JSAPIUsage) (ln : nat)
    : option baselineData.JSFeature :=
  match apis with
  | [] => None
  | u :: rest =>
      if bool_decide (parser.line u = ln)
      then match baselineData.getJSFeature dataProvider (parser.api u) with
           | Some feature => Some feature
           | None => firstKnownOnLine dataProvider rest ln
           end
      else firstKnownOnLine dataProvider rest ln
  end.

(** The numbers of decorations per status. *)
Definition cssBadgeCounts (ds : cssDecorator.Decorations) : Counts :=
  mkCounts (N.of_nat (length (cssDecorator.baselineDecorations ds)))
    (N.of_nat (length (cssDecorator.limitedDecorations ds)))
    (N.of_nat (length (cssDecorator.nonBaselineDecorations ds))).

Definition jsBadgeCounts (ds : jsDecorations.Decorations) : Counts :=
  mkCounts (N.of_nat (length (jsDecorations.baselineDecorations ds)))
    (N.of_nat (length (jsDecorations.limitedDecorations ds)))
    (N.of_nat (length (jsDecorations.nonBaselineDecorations ds))).

#[global] Instance Status_eq_dec : EqDecision baselineData.Status.
Proof. solve_decision. Defined.

(** ** The audit's report *)

(** Entries whose versions are the given strings. *)
Definition stringEntries (l : list (text * text))
    : list (text * JSON.value) :=
  map (λ e, (e.1, JSON.JString e.2)) l.

(** The dependencies audited one by one. *)
Definition audited (type : dependencyAuditor.DependencyType)
    (l : list (text * text)) : list dependencyAuditor.DependencyInfo :=
  map (λ e, dependencyAuditor.auditPackage e.1 e.2 type) l.

(** The issues of a list of audited dependencies, in their order. *)
Definition issuesOf (ds : list dependencyAuditor.DependencyInfo)
    : list dependencyAuditor.DependencyIssue :=
  concat
    (map (λ d,
            map (dependencyAuditor.createIssue (dependencyAuditor.name d))
              (dependencyAuditor.issues d))
       ds).

(** ** The feature table of the command-line report *)

(** The (file, feature) pairs that a list of results holds, in the order
    in which [aggregateFeatures] visits them. *)
Definition listings (results : list analyzer.FileResult)
    : list (analyzer.FileResult * text) :=
  flat_map (λ r, map (λ f, (r, f)) (analyzer.features r)) results.

(** The files of the results that list the feature [k]. *)
Definition filesListing (k : text)
    (l : list (analyzer.FileResult * text)) : list text :=
  map (λ p, analyzer.file p.1) (filter (λ p, p.2 = k) l).

(** The order of the table. *)
Definition countsAtLeast (a b : featureTable.FeatureUsage) : Prop :=
  (featureTable.count b ≤ featureTable.count a)%N.

(** What holds of the map after the listings [l] have been recorded. *)
Definition recorded (l : list (analyzer.FileResult * text))
    (m : list featureTable.FeatureUsage) : Prop :=
  NoDup (map featureTable.name m)
  ∧ (∀ k, k ∈ map featureTable.name m ↔ k ∈ map snd l)
  ∧ ∀ e, e ∈ m →
      featureTable.feature e = featureTable.name e
      ∧ featureTable.count e = N.of_nat (length (featureTable.files e))
      ∧ featureTable.files e = filesListing (featureTable.name e) l.

(** ** The build plugins' counters *)

(** The counters of the shared [analysis] object are the tally of its
    [features] array. *)
Definition tallied (a : bundler.FeatureAnalysis) : Prop :=
  bundler.counts a = countUsages (bundler.features a) noCounts.

(** Side conditions on the literals of a pattern: not empty, and with the
    property at hand, by evaluation. *)
Ltac yield_side :=
  first [ done
        | repeat constructor;
          first [ discriminate | vm_compute; reflexivity ] ].

(** * Properties *)

(** ** The gates *)
Section Gates.
Import Effect.

Lemma when_true (m : M unit) : when true m = m.
Proof. reflexivity. Qed.

Lemma outcome_abort_after {A} (m : M unit) (msg : message) log :
  outcome ((m ;; (abort msg : M A)) log) = fail.
Proof.
  unfold mbind, M_bind, abort.
  destruct (m log) as [log' [[]|]]; reflexivity.
Qed.

(** With the strict flag on and a non-baseline usage present, the final
    test of the sequential gates aborts whatever came before it. *)
Lemma bundler_strict_fails config analysis :
  failOnNonBaseline config = true →
  (0 < nonBaselineCount (bundler.counts analysis))%N →
  outcome (run (bundler.closeBundle config analysis)) = fail.
Proof.
  intros Hs Hn. unfold run, bundler.closeBundle.
  apply N.ltb_lt in Hn. rewrite Hs, Hn. cbn [andb].
  rewrite (when_true (abort _)). apply outcome_abort_after.
Qed.

Lemma cli_strict_fails options results :
  cli.failOnNonBaseline options = true →
  (0 < nonBaselineCount (analyzer.totals results))%N →
  outcome (run (cli.checkThresholds options results)) = fail.
Proof.
  intros Hs Hn. unfold run, cli.checkThresholds.
  apply N.ltb_lt in Hn. rewrite Hs, Hn. cbn [andb].
  rewrite (when_true (abort _)). apply outcome_abort_after.
Qed.

Lemma webpack_strict_fails options score n :
  failOnNonBaseline options = true → (0 < n)%N →
  webpack.gate options score n = fail.
Proof.
  intros Hs Hn. unfold webpack.gate, webpack.checkThresholds.
  apply N.ltb_lt in Hn. by rewrite Hs, Hn.
Qed.

(** With the strict flag off the sequential gates never abort: below the
    threshold they warn, otherwise they pass. *)
Lemma bundler_lax config analysis :
  failOnNonBaseline config = false →
  let c := bundler.counts analysis in
  let score :=
    Scorer.baselineScore (baselineCount c)
      (baselineCount c + limitedCount c + nonBaselineCount c) in
  outcome (run (bundler.closeBundle config analysis))
  = if Number.truthy (threshold config) && Number.ltb score (threshold config)
    then warn else pass.
Proof.
  intros Hs. cbn zeta. unfold run, bundler.closeBundle. rewrite Hs.
  cbn [andb]. by destruct (_ && _).
Qed.

Lemma cli_lax options results :
  cli.failOnNonBaseline options = false →
  outcome (run (cli.checkThresholds options results))
  = if Number.ltb (analyzer.baselineScore results) (cli.threshold options)
    then warn else pass.
Proof.
  intros Hs. unfold run, cli.checkThresholds. rewrite Hs.
  cbn [andb]. by destruct (Number.ltb _ _).
Qed.

(** The webpack gate fails below the threshold whatever the strict flag
    says. *)
Lemma webpack_below_threshold_fails options score n :
  Number.truthy (threshold options) = true →
  Number.ltb score (threshold options) = true →
  webpack.gate options score n = fail.
Proof.
  intros Ht Hl. unfold webpack.gate, webpack.checkThresholds.
  rewrite Ht, Hl. by destruct (_ && _).
Qed.

End Gates.

(** C4. With the strict flag on, an aggregate that counts a non-baseline
    usage fails every gate, whatever its score: the webpack gate, the gate
    of the Vite and Rollup plugins and the gate of the [check] command. *)
Theorem C4_strict_nonbaseline_fails (c : Counts) (score threshold : option Z)
    (cssOnly jsOnly : bool) (features : list FeatureUsage)
    (result : analyzer.AnalysisResult) :
  (0 < nonBaselineCount c)%N →
  analyzer.totals result = c →
  let plugin := mkPluginOptions true threshold cssOnly jsOnly in
  webpack.gate plugin score (nonBaselineCount c) = Effect.fail
  ∧ Effect.outcome
      (Effect.run
         (bundler.closeBundle plugin (bundler.mkFeatureAnalysis c features)))
    = Effect.fail
  ∧ Effect.outcome
      (Effect.run (cli.checkThresholds (cli.mkCheckOptions threshold true)
                     result))
    = Effect.fail.
Proof.
  intros Hn Hr plugin. split; [|split].
  - by apply webpack_strict_fails.
  - by apply bundler_strict_fails.
  - apply cli_strict_fails; [done|]. by rewrite Hr.
Qed.

(** The scenario of the specification: score 95, one non-baseline usage,
    threshold 80, strict. *)
Lemma C4_strict_nonbaseline_fails_witness :
  webpack.gate (mkPluginOptions true (Some 80%Z) false false) (Some 95%Z) 1
  = Effect.fail
  ∧ Effect.outcome
      (Effect.run
         (bundler.closeBundle (mkPluginOptions true (Some 80%Z) false false)
            (bundler.mkFeatureAnalysis (mkCounts 19 0 1) [])))
    = Effect.fail
  ∧ Effect.outcome
      (Effect.run
         (cli.checkThresholds (cli.mkCheckOptions (Some 80%Z) true)
            (analyzer.mkAnalysisResult 1 0 1 (mkCounts 19 0 1) (Some 95%Z) [])))
    = Effect.fail.
Proof.
  apply (C4_strict_nonbaseline_fails (mkCounts 19 0 1) (Some 95%Z) (Some 80%Z)
           false false []
           (analyzer.mkAnalysisResult 1 0 1 (mkCounts 19 0 1) (Some 95%Z) [])).
  - reflexivity.
  - reflexivity.
Defined.

(** C3. Score 75 against threshold 80 with the strict flag off: the Vite
    and Rollup gate and the [check] command warn and go on, and with the
    flag on they fail; the webpack gate fails although the flag is off, and
    the [emit] hook pushes a build error. *)
Theorem C3_webpack_fails_without_strict :
  let lax := mkPluginOptions false (Some 80%Z) false false in
  let strict := mkPluginOptions true (Some 80%Z) false false in
  let c := mkCounts 3 1 0 in
  let result := analyzer.mkAnalysisResult 1 0 1 c (analyzer.scoreOf c) [] in
  analyzer.scoreOf c = Some 75%Z
  ∧ Effect.run (bundler.closeBundle lax (bundler.mkFeatureAnalysis c []))
    = ([Effect.Warned (Effect.BelowThreshold (Some 75%Z) (Some 80%Z))],
       Some tt)
  ∧ Effect.outcome
      (Effect.run (cli.checkThresholds (cli.mkCheckOptions (Some 80%Z) false)
                     result))
    = Effect.warn
  ∧ Effect.outcome
      (Effect.run (bundler.closeBundle strict (bundler.mkFeatureAnalysis c [])))
    = Effect.fail
  ∧ Effect.outcome
      (Effect.run (cli.checkThresholds (cli.mkCheckOptions (Some 80%Z) true)
                     result))
    = Effect.fail
  ∧ webpack.checkThresholds lax (Some 75%Z) 0 = true
  ∧ webpack.gate lax (Some 75%Z) 0 = Effect.fail
  ∧ webpack.emit lax []
      [(codes "a.js", codes "fetch(a); fetch(b); fetch(c);");
       (codes "a.css", codes "container-type: size;")]
    = webpack.mkEmitted c (Some 75%Z)
        [Effect.BelowThreshold (Some 75%Z) (Some 80%Z)].
Proof. vm_compute. repeat split. Qed.

(** ** Aggregation *)
Section Aggregation.
Import analyzer.

Lemma fold_accumulate results t :
  fold_left accumulate results t = plus t (aggregate results).
Proof.
  unfold aggregate. revert t.
  induction results as [|r results IH] using rev_ind; intros t.
  - destruct t as [b l n]. unfold plus; cbn. f_equal; lia.
  - rewrite !fold_left_app. cbn [fold_left]. rewrite (IH t).
    destruct t as [b l n].
    destruct (fold_left accumulate results noCounts) as [b' l' n'].
    unfold accumulate, plus; cbn. f_equal; lia.
Qed.

Lemma aggregate_app l1 l2 :
  aggregate (l1 ++ l2) = plus (aggregate l1) (aggregate l2).
Proof.
  unfold aggregate at 1. rewrite fold_left_app. apply fold_accumulate.
Qed.

Lemma aggregate_cons r l :
  aggregate (r :: l) = plus (counts r) (aggregate l).
Proof.
  destruct r as [f lg [b l' n] fs].
  change (?r :: l) with ([r] ++ l). by rewrite aggregate_app.
Qed.

Lemma aggregate_one r : aggregate [r] = counts r.
Proof. by destruct r as [f lg [b l n] fs]. Qed.

Lemma aggregate_sums l :
  aggregate l
  = mkCounts (foldr N.add 0%N (map (λ r, baselineCount (counts r)) l))
      (foldr N.add 0%N (map (λ r, limitedCount (counts r)) l))
      (foldr N.add 0%N (map (λ r, nonBaselineCount (counts r)) l)).
Proof.
  induction l as [|r l IH]; [done|].
  rewrite aggregate_cons, IH. reflexivity.
Qed.

Lemma plus_comm a b : plus a b = plus b a.
Proof. unfold plus. f_equal; lia. Qed.

Lemma plus_assoc a b c : plus a (plus b c) = plus (plus a b) c.
Proof. unfold plus; cbn. f_equal; lia. Qed.

Lemma aggregate_perm l l' : l ≡ₚ l' → aggregate l = aggregate l'.
Proof.
  induction 1 as [|x l l' _ IH|x y l|l l' l'' _ IH1 _ IH2].
  - reflexivity.
  - by rewrite !aggregate_cons, IH.
  - rewrite !aggregate_cons, !plus_assoc. f_equal. apply plus_comm.
  - congruence.
Qed.

(** The totals that [analyze] reports are the aggregate of the per-file
    results that it reports. *)
Lemma visit_fold analyzeFile files st :
  fold_left (visit analyzeFile) files st
  = (fst st ++ map (λ f, analyzeFile (path f) (content f)) files,
     fold_left accumulate
       (map (λ f, analyzeFile (path f) (content f)) files) (snd st)).
Proof.
  revert st. induction files as [|f files IH]; intros [rs t].
  - cbn. by rewrite app_nil_r.
  - cbn [fold_left map]. rewrite IH. cbn. by rewrite <- app_assoc.
Qed.

Lemma analyze_totals cssFileList jsFileList options :
  let r := analyze cssFileList jsFileList options in
  totals r = aggregate (fileResults r)
  ∧ baselineScore r = scoreOf (aggregate (fileResults r)).
Proof.
  cbn zeta. unfold analyze; cbn [totals fileResults baselineScore].
  assert (H : ∀ st : list FileResult * Counts,
            snd st = aggregate (fst st) →
            ∀ (b : bool) analyzeFile files,
              let st' := if b then st
                         else fold_left (visit analyzeFile) files st in
              snd st' = aggregate (fst st')).
  { intros st Hst b analyzeFile files. destruct b; [done|].
    cbn zeta. rewrite visit_fold. cbn [fst snd].
    rewrite aggregate_app, fold_accumulate. by rewrite Hst. }
  set (st0 := ([], noCounts) : list FileResult * Counts).
  assert (H0 : snd st0 = aggregate (fst st0)) by reflexivity.
  pose proof (H st0 H0 (jsOnly options) analyzeCSSFile cssFileList) as H1.
  cbn zeta in H1.
  pose proof (H _ H1 (cssOnly options) analyzeJSFile jsFileList) as H2.
  cbn zeta in H2. by rewrite H2.
Qed.

End Aggregation.

(** C8. Aggregation is the pointwise sum of the three counters: the
    aggregate of one result is that result's counters, a further result
    adds its counters to the aggregate of the others, and so each counter
    of the aggregate is the sum of that counter over the results.  A
    subtotal can be folded in as if it were a result, concatenation is
    mapped to the sum, and the aggregate does not depend on the order of
    the results.  What [analyze] reports is this aggregate of its per-file
    results, and the one score computed from it. *)
Theorem C8_aggregate_assoc_comm :
  (∀ r : analyzer.FileResult, analyzer.aggregate [r] = analyzer.counts r)
  ∧ (∀ (r : analyzer.FileResult) (l : list analyzer.FileResult),
       analyzer.aggregate (r :: l)
       = plus (analyzer.counts r) (analyzer.aggregate l))
  ∧ (∀ l : list analyzer.FileResult,
       analyzer.aggregate l
       = mkCounts
           (foldr N.add 0%N
              (map (λ r, baselineCount (analyzer.counts r)) l))
           (foldr N.add 0%N
              (map (λ r, limitedCount (analyzer.counts r)) l))
           (foldr N.add 0%N
              (map (λ r, nonBaselineCount (analyzer.counts r)) l)))
  ∧ (∀ a b c : analyzer.FileResult,
       analyzer.aggregate [a; b; c]
       = analyzer.aggregate
           [analyzer.subtotal (analyzer.aggregate [a; b]); c])
  ∧ (∀ l1 l2 : list analyzer.FileResult,
       analyzer.aggregate (l1 ++ l2)
       = plus (analyzer.aggregate l1) (analyzer.aggregate l2))
  ∧ (∀ l l' : list analyzer.FileResult,
       l ≡ₚ l' → analyzer.aggregate l = analyzer.aggregate l')
  ∧ (∀ cssFileList jsFileList options,
       let r := analyzer.analyze cssFileList jsFileList options in
       analyzer.totals r = analyzer.aggregate (analyzer.fileResults r)
       ∧ analyzer.baselineScore r
         = analyzer.scoreOf (analyzer.aggregate (analyzer.fileResults r))).
Proof.
  split; [apply aggregate_one|]. split; [apply aggregate_cons|].
  split; [apply aggregate_sums|].
  split; [|split; [|split]]; [| | |apply analyze_totals].
  - intros a b c.
    change [a; b; c] with ([a; b] ++ [c]).
    rewrite aggregate_app.
    change [analyzer.subtotal (analyzer.aggregate [a; b]); c]
      with ([analyzer.subtotal (analyzer.aggregate [a; b])] ++ [c]).
    rewrite aggregate_app. reflexivity.
  - apply aggregate_app.
  - apply aggregate_perm.
Qed.

Lemma C8_aggregate_assoc_comm_witness :
  let a := analyzer.mkFileResult [] analyzer.css (mkCounts 1 2 3) [] in
  let b := analyzer.mkFileResult [] analyzer.js (mkCounts 4 0 1) [] in
  analyzer.aggregate [a; b] = analyzer.aggregate [b; a]
  ∧ analyzer.aggregate [a; b] = mkCounts 5 2 4.
Proof.
  intros a b. split.
  - apply (proj1 (proj2 (proj2 (proj2 (proj2 (proj2
             C8_aggregate_assoc_comm))))) [a; b] [b; a]).
    apply perm_swap.
  - exact (proj1 (proj2 (proj2 C8_aggregate_assoc_comm)) [a; b]).
Defined.

(** ** Deduplication in the JS scanner *)
Section Dedup.
Import parser.

Lemma dedup_filter_keys seen usages :
  NoDup (map usage_key (dedup_filter seen usages))
  ∧ ∀ u, u ∈ dedup_filter seen usages → usage_key u ∉ seen.
Proof.
  revert seen. induction usages as [|u usages IH]; intros seen; cbn.
  - split; [constructor | intros u Hu; by apply elem_of_nil in Hu].
  - destruct (decide (usage_key u ∈ seen)) as [Hin|Hout]; [apply IH|].
    destruct (IH ({[usage_key u]} ∪ seen)) as [Hnd Hfresh].
    split.
    + cbn. constructor; [|exact Hnd].
      intros Hdup. apply list_elem_of_fmap in Hdup as (v & Hv & Hvin).
      apply Hfresh in Hvin. rewrite <- Hv in Hvin.
      apply Hvin, elem_of_union_l, elem_of_singleton. reflexivity.
    + intros v Hv. apply elem_of_cons in Hv as [->|Hv]; [done|].
      apply Hfresh in Hv. intros Hs. apply Hv, elem_of_union_r, Hs.
Qed.

(** Nothing is invented and the order is kept. *)
Lemma dedup_filter_sublist seen usages :
  sublist (dedup_filter seen usages) usages.
Proof.
  revert seen. induction usages as [|u usages IH]; intros seen; cbn.
  - constructor.
  - destruct (decide _); [apply sublist_cons | apply sublist_skip]; apply IH.
Qed.

(** Every raw usage is represented by a survivor with the same key. *)
Lemma dedup_filter_complete seen usages u :
  u ∈ usages →
  usage_key u ∈ seen
  ∨ ∃ v, v ∈ dedup_filter seen usages ∧ usage_key v = usage_key u.
Proof.
  revert seen. induction usages as [|w usages IH]; intros seen Hu.
  - by apply elem_of_nil in Hu.
  - cbn. apply elem_of_cons in Hu as [->|Hu].
    + destruct (decide _); [by left|]. right. exists w. split; [left|done].
    + destruct (decide (usage_key w ∈ seen)) as [Hin|Hout].
      * apply IH, Hu.
      * destruct (IH ({[usage_key w]} ∪ seen) Hu) as [Hk|(v & Hv & Hkv)].
        -- apply elem_of_union in Hk as [Hk|Hk]; [|by left].
           apply elem_of_singleton in Hk. right. exists w.
           split; [left|done].
        -- right. exists v. split; [by right|done].
Qed.

(** The key separates line and identifier: the decimal digits of the line
    contain no colon. *)
Lemma uint_codes_no_colon d : 58%N ∉ uint_codes d.
Proof.
  induction d; cbn; [apply not_elem_of_nil|..];
    (intros H; apply elem_of_cons in H as [H|H]; [discriminate|done]).
Qed.

Lemma uint_codes_inj d d' : uint_codes d = uint_codes d' → d = d'.
Proof.
  revert d'. induction d; intros []; cbn; intros H;
    try discriminate; try reflexivity;
    injection H as H; f_equal; auto.
Qed.

Lemma split_at_colon (p q x y : text) :
  58%N ∉ p → 58%N ∉ q → p ++ 58%N :: x = q ++ 58%N :: y → p = q ∧ x = y.
Proof.
  revert q. induction p as [|c p IH]; intros [|d q] Hp Hq H; cbn in H.
  - by injection H.
  - injection H as H1 H2. subst d. exfalso. apply Hq. left.
  - injection H as H1 H2. subst c. exfalso. apply Hp. left.
  - injection H as H1 H2. subst d.
    assert (Hp' : 58%N ∉ p) by (intros Hc; apply Hp; by right).
    assert (Hq' : 58%N ∉ q) by (intros Hc; apply Hq; by right).
    by destruct (IH q Hp' Hq' H2) as [-> ->].
Qed.

Lemma usage_key_inj u v :
  usage_key u = usage_key v → line u = line v ∧ api u = api v.
Proof.
  unfold usage_key, nat_codes. cbn. intros H.
  apply split_at_colon in H as [H1 H2]; try apply uint_codes_no_colon.
  split; [|done].
  by apply DecimalNat.Unsigned.to_uint_inj, uint_codes_inj.
Qed.

End Dedup.

(** C7. The list that the JS scanner returns contains no two usages with
    the same line and the same normalized identifier. *)
Theorem C7_dedup_invariant (t : text) (document : vscode.TextDocument) :
  NoDup (map (λ u, (parser.line u, parser.api u))
           (parser.extractAPIUsage t document)).
Proof.
  unfold parser.extractAPIUsage, parser.deduplicateUsages.
  destruct (dedup_filter_keys ∅ (parser.rawUsages t document)) as [Hnd _].
  set (key := λ p : nat * text, nat_codes p.1 ++ codes ":" ++ p.2).
  apply (NoDup_fmap_1 key).
  rewrite <- list_fmap_compose. exact Hnd.
Qed.

(** X5. The deduplication loses no pair: for every usage that a pattern
    pass pushes, the list that the scanner returns holds a usage of the
    same line and the same normalized identifier. *)
Lemma dedup_keeps_one (t : text) (document : vscode.TextDocument) u :
  u ∈ parser.rawUsages t document →
  ∃ v, v ∈ parser.extractAPIUsage t document
       ∧ parser.line v = parser.line u ∧ parser.api v = parser.api u.
Proof.
  intros Hu.
  destruct (dedup_filter_complete ∅ _ _ Hu) as [Hk|(v & Hv & Hkv)].
  - by apply not_elem_of_empty in Hk.
  - exists v. split; [exact Hv|]. by apply usage_key_inj.
Qed.

Lemma dedup_keeps_one_witness :
  let t := codes "fetch(a); fetch(b)" in
  let document := vscode.document_of t in
  let u := parser.mkJSAPIUsage (codes "fetch")
             (vscode.mkRange (vscode.mkPosition 0 10)
                (vscode.mkPosition 0 15))
             0 t in
  u ∈ parser.rawUsages t document
  ∧ ∃ v, v ∈ parser.extractAPIUsage t document
         ∧ parser.line v = parser.line u ∧ parser.api v = parser.api u.
Proof.
  intros t document u.
  assert (H : u ∈ parser.rawUsages t document) by (vm_compute; right; left).
  split; [exact H|]. exact (dedup_keeps_one t document u H).
Defined.

(** ** The dashboard's JS counters *)
Section Dashboard.
Import baselineData parser.

Variable dataProvider : BaselineDataProvider.

Lemma total_bump s c : total (bump s c) = (total c + 1)%N.
Proof. destruct s, c; unfold total; cbn; lia. Qed.

Lemma total_tally picked c :
  total (tally dataProvider picked c)
  = (total c + N.of_nat (length (filter (isKnown dataProvider) picked)))%N.
Proof.
  unfold tally. revert c.
  induction picked as [|u picked IH]; intros c; cbn [fold_left].
  - cbn. lia.
  - rewrite IH.
    destruct (getJSFeature dataProvider (api u)) as [f|] eqn:E.
    + rewrite filter_cons_True by (unfold isKnown; rewrite E; eauto).
      rewrite total_bump. cbn [length]. lia.
    + rewrite filter_cons_False; [done|].
      unfold isKnown. rewrite E. by intros [? ?].
Qed.

Lemma countJS_picks apis seen c :
  ∃ picked,
    dashboard.countJS dataProvider apis seen c = tally dataProvider picked c
    ∧ NoDup (map line picked)
    ∧ (∀ u, u ∈ picked →
         (line u ∉ seen) ∧ firstOnLine apis (line u) = Some u)
    ∧ (∀ u, u ∈ apis →
         line u ∈ seen ∨ ∃ p, p ∈ picked ∧ line p = line u).
Proof.
  revert seen c. induction apis as [|a apis IH]; intros seen c.
  - exists []. split; [done|]. split; [constructor|].
    split; intros u Hu; by apply elem_of_nil in Hu.
  - cbn [dashboard.countJS].
    destruct (decide (line a ∈ seen)) as [Hin|Hout].
    + destruct (IH seen c) as (picked & Hc & Hnd & Hfirst & Hall).
      exists picked. split; [exact Hc|]. split; [exact Hnd|]. split.
      * intros u Hu. destruct (Hfirst u Hu) as [Hs Hf]. split; [done|].
        unfold firstOnLine. cbn [find].
        rewrite bool_decide_eq_false_2; [exact Hf|]. congruence.
      * intros u Hu. apply elem_of_cons in Hu as [->|Hu]; [by left|].
        by apply Hall.
    + set (seen' := {[line a]} ∪ seen).
      set (c' := match getJSFeature dataProvider (api a) with
                 | Some feature => bump (status (js_feature feature)) c
                 | None => c
                 end).
      destruct (IH seen' c') as (picked & Hc & Hnd & Hfirst & Hall).
      exists (a :: picked). split; [|split; [|split]].
      * unfold tally. cbn [fold_left]. fold c'.
        fold (tally dataProvider picked c').
        rewrite <- Hc. subst c'.
        by destruct (getJSFeature dataProvider (api a)).
      * cbn. constructor; [|exact Hnd].
        intros Hd. apply list_elem_of_fmap in Hd as (v & Hv & Hvin).
        destruct (Hfirst v Hvin) as [Hs _]. rewrite <- Hv in Hs.
        subst seen'. apply Hs, elem_of_union_l, elem_of_singleton.
        reflexivity.
      * intros u Hu. apply elem_of_cons in Hu as [->|Hu].
        -- split; [done|]. unfold firstOnLine. cbn [find].
           by rewrite bool_decide_eq_true_2.
        -- destruct (Hfirst u Hu) as [Hs Hf]. subst seen'.
           split; [intros Hin; apply Hs, elem_of_union_r, Hin|].
           unfold firstOnLine. cbn [find].
           rewrite bool_decide_eq_false_2; [exact Hf|].
           intros Heq. apply Hs, elem_of_union_l, elem_of_singleton.
           exact (eq_sym Heq).
      * intros u Hu. apply elem_of_cons in Hu as [->|Hu].
        -- right. exists a. split; [left|done].
        -- destruct (Hall u Hu) as [Hs|(p & Hp & Hl)].
           ++ subst seen'. apply elem_of_union in Hs as [Hs|Hs]; [|by left].
              apply elem_of_singleton in Hs. right. exists a.
              split; [left|done].
           ++ right. exists p. split; [by right|done].
Qed.

End Dashboard.

(** What the loop of the dashboard does: the counters grow by the tally
    of a list [picked] of usages that holds, for every line with a usage,
    the first usage that the scanner emitted for that line and nothing
    else.  A line contributes one increment when its first usage has a
    catalog record, and none when it has not. *)
Lemma dashboard_first_usage_per_line
    (dataProvider : baselineData.BaselineDataProvider)
    (st : dashboard.Locals) (document : vscode.TextDocument) :
  let apis := parser.extractAPIUsage (vscode.getText document) document in
  let js := dashboard.l_js (dashboard.jsFile dataProvider st document) in
  ∃ picked : list parser.JSAPIUsage,
    js = tally dataProvider picked (dashboard.l_js st)
    ∧ NoDup (map parser.line picked)
    ∧ (∀ u, u ∈ picked →
         firstOnLine apis (parser.line u) = Some u)
    ∧ (∀ u, u ∈ apis → ∃ p, p ∈ picked ∧ parser.line p = parser.line u)
    ∧ total js
      = (total (dashboard.l_js st)
         + N.of_nat (length (filter (isKnown dataProvider) picked)))%N.
Proof.
  intros apis js. subst js. unfold dashboard.jsFile. cbn [dashboard.l_js].
  fold apis.
  destruct (countJS_picks dataProvider apis ∅ (dashboard.l_js st))
    as (picked & Hc & Hnd & Hfirst & Hall).
  exists picked. rewrite Hc. repeat split.
  - exact Hnd.
  - intros u Hu. by destruct (Hfirst u Hu).
  - intros u Hu. destruct (Hall u Hu) as [Hs|Hp]; [|exact Hp].
    by apply not_elem_of_empty in Hs.
  - apply total_tally.
Qed.

(** C10. The line of the text ["new Foo(fetch(u), Promise)"] uses two APIs
    that the editor's catalog knows, [fetch] and [Promise].  The scanner
    emits the constructor name [Foo] first, which has no record; the
    dashboard marks the line as seen on it and counts nothing for the
    line, not one usage.  The badge loop of the decorator looks the usage
    up before it marks the line, and gives the line one badge, that of
    [fetch].  On ["navigator.share(d)"] the first usage emitted is
    [navigator], without record: the dashboard counts nothing again, and
    the decorator shows one badge. *)
Theorem C10_line_with_known_apis_counts_zero :
  let catalog := baselineData.createMockData in
  let counted (t : text) :=
    dashboard.l_js
      (dashboard.jsFile catalog (dashboard.mkLocals 0 0 noCounts noCounts)
         (vscode.document_of t)) in
  let badges (t : text) :=
    jsBadgeCounts
      <$> jsDecorations.decorateDocument catalog (codes "javascript")
            (vscode.document_of t) in
  let t := codes "new Foo(fetch(u), Promise)" in
  let apis := parser.extractAPIUsage t (vscode.document_of t) in
  let t' := codes "navigator.share(d)" in
  let apis' := parser.extractAPIUsage t' (vscode.document_of t') in
  map (λ u, (parser.line u, parser.api u)) apis
  = [(0, codes "Foo"); (0, codes "fetch"); (0, codes "Promise")]
  ∧ baselineData.getJSFeature catalog (codes "Foo") = None
  ∧ is_Some (baselineData.getJSFeature catalog (codes "fetch"))
  ∧ is_Some (baselineData.getJSFeature catalog (codes "Promise"))
  ∧ counted t = noCounts
  ∧ badges t = Some (mkCounts 1 0 0)
  ∧ (baselineData.id ∘ baselineData.js_feature)
      <$> jsDecorator.lineFeatures catalog apis !! 0
    = Some "fetch-api"%string
  ∧ map (λ u, (parser.line u, parser.api u)) apis'
    = [(0, codes "navigator"); (0, codes "share")]
  ∧ baselineData.getJSFeature catalog (codes "navigator") = None
  ∧ is_Some (baselineData.getJSFeature catalog (codes "share"))
  ∧ counted t' = noCounts
  ∧ badges t' = Some (mkCounts 0 1 0).
Proof. vm_compute. repeat split; eauto. Qed.

(** ** Unknown identifiers *)

(** C2. A style sheet whose only declaration uses a property without
    catalog record: the command-line analyzer counts nothing and scores
    100, the dashboard counts nothing either but divides by the number of
    all scanned declarations and scores 0. *)
Theorem C2_dashboard_scores_unknown_usages :
  let t := codes "unknown-prop: 1;" in
  let document := vscode.document_of t in
  let catalog := baselineData.createMockData in
  let stats :=
    dashboard.getProjectStats catalog
      (Some (dashboard.mkWorkspace [document] [])) in
  let result :=
    analyzer.analyze [analyzer.mkFile (codes "a.css") t] []
      (analyzer.mkAnalyzeOptions false false) in
  map parser.name (parser.extractCSSProperties t document)
  = [codes "unknown-prop"]
  ∧ baselineData.getCSSFeature catalog (codes "unknown-prop") = None
  ∧ analyzer.totals result = noCounts
  ∧ analyzer.baselineScore result = Some 100%Z
  ∧ (dashboard.baselineCSSCount stats, dashboard.limitedCSSCount stats,
     dashboard.nonBaselineCSSCount stats) = (0, 0, 0)%N
  ∧ (dashboard.baselineJSCount stats, dashboard.limitedJSCount stats,
     dashboard.nonBaselineJSCount stats) = (0, 0, 0)%N
  ∧ dashboard.totalCSSProperties stats = 1%N
  ∧ dashboard.baselineScore stats = Some 0%Z.
Proof. vm_compute. repeat split. Qed.

(** In the command-line analyzer and in the plugins the catalog is an
    object literal, and an identifier that names a member of
    [Object.prototype] is found in it although the catalog does not list
    it: it is counted as a non-baseline usage. *)
Lemma inherited_name_counts_as_non_baseline :
  let t := codes "toString: 1;" in
  let result :=
    analyzer.analyze [analyzer.mkFile (codes "a.css") t] []
      (analyzer.mkAnalyzeOptions false false) in
  analyzer.baselineData_css !! codes "toString" = None
  ∧ analyzer.totals result = mkCounts 0 0 1
  ∧ analyzer.baselineScore result = Some 0%Z.
Proof. vm_compute. repeat split. Qed.

(** Apart from those names, the command-line analyzer leaves an identifier
    without catalog entry out of every counter. *)
Lemma analyzer_classify_unknown data st identifier :
  data !! identifier = None →
  JSObject.inherited identifier = false →
  analyzer.classify data st identifier = st.
Proof.
  intros Hd Hi. unfold analyzer.classify, JSObject.get. by rewrite Hd, Hi.
Qed.

(** A file whose scanned properties are all without entry and none of
    which names an inherited member is counted as empty. *)
Lemma analyzeCSSFile_unknown filePath content :
  (∀ m, m ∈ Regex.matchAll parser.propertyRegex content →
     analyzer.baselineData_css !! default [] (Regex.group 1 m) = None
     ∧ JSObject.inherited (default [] (Regex.group 1 m)) = false) →
  analyzer.counts (analyzer.analyzeCSSFile filePath content) = noCounts
  ∧ analyzer.features (analyzer.analyzeCSSFile filePath content) = [].
Proof.
  intros H. unfold analyzer.analyzeCSSFile.
  cbn [analyzer.counts analyzer.features].
  assert (E : fold_left
                (λ st m,
                   analyzer.classify analyzer.baselineData_css st
                     (default [] (Regex.group 1 m)))
                (Regex.matchAll parser.propertyRegex content)
                ([], noCounts)
              = ([], noCounts)).
  { revert H. generalize (Regex.matchAll parser.propertyRegex content).
    generalize (([], noCounts) : list text * Counts).
    intros st l. revert st.
    induction l as [|m l IH]; intros st H; [done|].
    cbn [fold_left].
    destruct (H m ltac:(left)) as [Hd Hi].
    rewrite analyzer_classify_unknown by done.
    apply IH. intros m' Hm'. apply H. by right. }
  by rewrite E.
Qed.

(** In the dashboard, too, usages without catalog record leave the six
    status counters alone; it is the denominator of the score that counts
    them. *)
Lemma dashboard_countCSS_unknown dataProvider properties c :
  (∀ p, p ∈ properties →
     baselineData.getCSSFeature dataProvider (parser.name p) = None) →
  dashboard.countCSS dataProvider properties c = c.
Proof.
  unfold dashboard.countCSS. revert c.
  induction properties as [|p properties IH]; intros c H; [done|].
  cbn [fold_left]. rewrite (H p) by left. apply IH.
  intros q Hq. apply H. by right.
Qed.

Lemma dashboard_countJS_unknown dataProvider apis seen c :
  (∀ u, u ∈ apis →
     baselineData.getJSFeature dataProvider (parser.api u) = None) →
  dashboard.countJS dataProvider apis seen c = c.
Proof.
  revert seen c. induction apis as [|u apis IH]; intros seen c H; [done|].
  cbn [dashboard.countJS]. rewrite (H u) by left.
  destruct (decide _); apply IH; intros v Hv; apply H; by right.
Qed.

(** ** The JS scenario *)

(** C5 (as stated): on the scenario text no pipeline yields baseline 2,
    limited 1 and score 67: not the command-line analyzer, not the
    dashboard, not the Vite and Rollup plugins, not the webpack plugin. *)
Lemma C5_scenario_counts_differ :
  let t :=
    codes "async function f() { await fetch('/x'); navigator.share({}); }" in
  let result :=
    analyzer.analyze [] [analyzer.mkFile (codes "a.js") t]
      (analyzer.mkAnalyzeOptions false false) in
  let stats :=
    dashboard.getProjectStats baselineData.createMockData
      (Some (dashboard.mkWorkspace [] [vscode.document_of t])) in
  let options := mkPluginOptions false (Some 80%Z) false false in
  let analysis :=
    bundler.transform options t (codes "a.js") bundler.emptyAnalysis in
  let emitted := webpack.emit options [] [(codes "a.js", t)] in
  ¬ (analyzer.totals result = mkCounts 2 1 0
     ∧ analyzer.baselineScore result = Some 67%Z)
  ∧ ¬ ((dashboard.baselineJSCount stats, dashboard.limitedJSCount stats,
        dashboard.nonBaselineJSCount stats) = (2, 1, 0)%N
       ∧ dashboard.baselineScore stats = Some 67%Z)
  ∧ ¬ (bundler.counts analysis = mkCounts 2 1 0)
  ∧ ¬ (webpack.counts emitted = mkCounts 2 1 0
       ∧ webpack.score emitted = Some 67%Z).
Proof.
  vm_compute. repeat split; try intros [H _]; try intros H; discriminate H.
Qed.

(** C5 (amended). On the scenario text, which is a single line: the editor's
    scanner emits, after deduplication, one [fetch] and one [async] usage
    ([async function] and [await] collapse into one), all usages on line 0;
    the command-line analyzer, which does not deduplicate, counts three
    baseline usages ([fetch], [async function], [await]) and no non-baseline
    one; the dashboard, which keeps the first usage of a line, counts one
    baseline usage and nothing else; the Vite and Rollup plugins, which
    have no pass for [await], count two baseline usages and no
    non-baseline one. *)
Theorem C5_scenario_counts :
  let t :=
    codes "async function f() { await fetch('/x'); navigator.share({}); }" in
  let document := vscode.document_of t in
  let apis := parser.extractAPIUsage t document in
  let result :=
    analyzer.analyze [] [analyzer.mkFile (codes "a.js") t]
      (analyzer.mkAnalyzeOptions false false) in
  let stats :=
    dashboard.getProjectStats baselineData.createMockData
      (Some (dashboard.mkWorkspace [] [document])) in
  let analysis :=
    bundler.transform (mkPluginOptions false (Some 80%Z) false false) t
      (codes "a.js") bundler.emptyAnalysis in
  length (filter (λ u, parser.api u = codes "fetch") apis) = 1
  ∧ length (filter (λ u, parser.api u = codes "async") apis) = 1
  ∧ Forall (λ u, parser.line u = 0) apis
  ∧ baselineCount (analyzer.totals result) = 3%N
  ∧ nonBaselineCount (analyzer.totals result) = 0%N
  ∧ (dashboard.baselineJSCount stats, dashboard.limitedJSCount stats,
     dashboard.nonBaselineJSCount stats) = (1, 0, 0)%N
  ∧ baselineCount (bundler.counts analysis) = 2%N
  ∧ nonBaselineCount (bundler.counts analysis) = 0%N.
Proof.
  cbn zeta. split; [|split; [|split]].
  - vm_compute. reflexivity.
  - vm_compute. reflexivity.
  - apply Forall_forall. intros u Hu.
    apply (list_elem_of_fmap_2 parser.line) in Hu. revert Hu.
    generalize (parser.line u). intros n.
    vm_compute. intros Hn.
    repeat (apply elem_of_cons in Hn as [->|Hn]; [reflexivity|]).
    by apply elem_of_nil in Hn.
  - vm_compute. repeat split.
Qed.

(** ** Normalization of identifiers *)

(** C6. What the scanner emits: a leading [new] is stripped, [await] and
    [async function] both become [async], white space around a name is
    trimmed, and [cleanAPIName] returns a dotted path that it is given
    unchanged; but the passes for [navigator.*] and [document.*] hand it
    only the text of their group, so that [navigator.share] is emitted as
    [share] and [document.startViewTransition] as [startViewTransition].
    The command-line analyzer looks [share] up in a catalog that lists
    [navigator.share], and counts nothing. *)
Theorem C6_dotted_path_is_cut :
  identifiers "new IntersectionObserver(cb)" = [codes "IntersectionObserver"]
  ∧ identifiers "await x" = [codes "async"]
  ∧ identifiers "async function f() {}" = [codes "async"]
  ∧ parser.cleanAPIName (codes "new  Foo ") "constructor" = codes "Foo"
  ∧ parser.cleanAPIName (codes "navigator.share") "navigator"
    = codes "navigator.share"
  ∧ identifiers "navigator.share({})" = [codes "navigator"; codes "share"]
  ∧ identifiers "document.startViewTransition(f)"
    = [codes "startViewTransition"]
  ∧ analyzer.baselineData_js !! codes "navigator.share"
    = Some (codes "limited")
  ∧ analyzer.counts
      (analyzer.analyzeJSFile (codes "a.js") (codes "navigator.share({})"))
    = noCounts.
Proof. vm_compute. repeat split. Qed.

(** ** The score *)

(** C1. The three boundary values of the specification are those of the
    code.  For 23 baseline usages out of 40 the exact percentage is 57.5 and
    rounds up to 58, but the binary64 quotient 23/40 times 100 is
    57.49999999999999 and the code returns 57. *)
Theorem C1_score_examples_and_halfway_case :
  Scorer.score 0 0 0 = Some 100%Z
  ∧ Scorer.score 0 5 0 = Some 0%Z
  ∧ Scorer.score 8 0 2 = Some 80%Z
  ∧ Number.mul (Number.div (Number.of_N 23) (Number.of_N 40))
      (Number.of_N 100)
    = S754_finite false 8092405580431359 (-47)
  ∧ (8092405580431359 < 115 * 2 ^ 46)%Z
  ∧ Scorer.score 23 17 0 = Some 57%Z
  ∧ specScore 23 17 0 = 58%Z.
Proof. vm_compute. repeat split. Qed.

(** ** Binary64 rounding

    The operations of [SpecFloat] on the Numbers that the score meets,
    characterized by the exact rational they round.  A float is handled as
    its mantissa and exponent; the exact value that an operation rounds is
    a fraction [num / den] at the scale of the exponent it is given. *)
Section RoundingInternals.
Local Open Scope Z_scope.

Lemma digits2_pos_log2 m : Z.pos (digits2_pos m) = Z.log2 (Z.pos m) + 1.
Proof.
  induction m as [m IH|m IH|]; cbn [digits2_pos]; [| |reflexivity];
    rewrite Pos2Z.inj_succ, IH.
  - rewrite Pos2Z.inj_xI, Z.log2_succ_double by lia. lia.
  - rewrite Pos2Z.inj_xO, Z.log2_double by lia. lia.
Qed.

Lemma Zdigits2_bounds m d :
  0 < m → Zdigits2 m = d → 2 ^ (d - 1) ≤ m < 2 ^ d.
Proof.
  intros Hm <-. destruct m as [|p|p]; try lia. cbn [Zdigits2].
  rewrite digits2_pos_log2.
  replace (Z.log2 (Z.pos p) + 1 - 1) with (Z.log2 (Z.pos p)) by lia.
  pose proof (Z.log2_spec (Z.pos p)) as H.
  rewrite <- Z.add_1_r in H. apply H. lia.
Qed.

Lemma Zdigits2_unique m d :
  0 < d → 2 ^ (d - 1) ≤ m < 2 ^ d → Zdigits2 m = d.
Proof.
  intros Hd Hm.
  assert (0 < m) by (pose proof (Z.pow_pos_nonneg 2 (d - 1)); lia).
  destruct m as [|p|p]; try lia. cbn [Zdigits2].
  rewrite digits2_pos_log2.
  rewrite (Z.log2_unique (Z.pos p) (d - 1)); [lia|lia|].
  replace (Z.succ (d - 1)) with d by lia. exact Hm.
Qed.

Lemma shr_1_locates mrs num den :
  0 ≤ shr_m mrs → 0 < den → locates mrs num den →
  locates (shr_1 mrs) num (2 * den) ∧ shr_m (shr_1 mrs) = shr_m mrs / 2.
Proof.
  destruct mrs as [m r s]. unfold locates. cbn [shr_m shr_r shr_s].
  intros Hm Hden (Hf & Hr & Hs).
  assert (Hrs : orb r s = true ↔ 0 < num - m * den).
  { rewrite orb_true_iff, Hr, Hs. lia. }
  clear Hr Hs. rename Hrs into Hb.
  destruct m as [|[p|p|]|p]; try lia; cbn [shr_1 shr_m shr_r shr_s].
  - split; [|reflexivity].
    rewrite Hb. split; [lia|]. split; [split; [discriminate|lia]|lia].
  - change (Z.pos p~1) with (2 * Z.pos p + 1) in *.
    split; [|apply Z.div_unique with 1; lia].
    replace (Z.pos p * (2 * den)) with (2 * (Z.pos p * den)) by ring.
    replace ((2 * Z.pos p + 1) * den) with (2 * (Z.pos p * den) + den)
      in * by ring.
    revert Hf Hb. generalize (Z.pos p * den). intros X Hf Hb.
    rewrite Hb. split; [lia|]. split; [split; [lia|done]|lia].
  - change (Z.pos p~0) with (2 * Z.pos p) in *.
    split; [|apply Z.div_unique with 0; lia].
    replace (Z.pos p * (2 * den)) with (2 * (Z.pos p * den)) by ring.
    replace (2 * Z.pos p * den) with (2 * (Z.pos p * den)) in * by ring.
    revert Hf Hb. generalize (Z.pos p * den). intros X Hf Hb.
    rewrite Hb. split; [lia|]. split; [split; [discriminate|lia]|lia].
  - split; [|reflexivity].
    rewrite Hb. split; [lia|]. split; [split; [lia|done]|lia].
Qed.

Lemma pow2_double p : 2 ^ (2 * Z.pos p) = 2 ^ Z.pos p * 2 ^ Z.pos p.
Proof. rewrite <- Z.pow_add_r by lia. f_equal. lia. Qed.

Lemma iter_shr_1_locates p : ∀ mrs num den,
  0 ≤ shr_m mrs → 0 < den → locates mrs num den →
  locates (SpecFloat.iter_pos shr_1 p mrs) num (2 ^ Z.pos p * den)
  ∧ shr_m (SpecFloat.iter_pos shr_1 p mrs) = shr_m mrs / 2 ^ Z.pos p.
Proof.
  induction p as [p IH|p IH|]; intros mrs num den Hm Hden Hl;
    cbn [SpecFloat.iter_pos].
  - assert (Hp : 0 < 2 ^ Z.pos p) by (apply Z.pow_pos_nonneg; lia).
    destruct (shr_1_locates _ _ _ Hm Hden Hl) as [H1 E1].
    assert (Hm1 : 0 ≤ shr_m (shr_1 mrs)) by (rewrite E1; apply Z.div_pos; lia).
    destruct (IH _ _ (2 * den) Hm1 ltac:(lia) H1) as [H2 E2].
    assert (Hm2 : 0 ≤ shr_m (SpecFloat.iter_pos shr_1 p (shr_1 mrs))).
    { rewrite E2. apply Z.div_pos; lia. }
    destruct (IH _ _ (2 ^ Z.pos p * (2 * den)) Hm2
                ltac:(apply Z.mul_pos_pos; lia) H2) as [H3 E3].
    change (Z.pos p~1) with (2 * Z.pos p + 1).
    rewrite Z.pow_add_r, pow2_double, Z.pow_1_r by lia.
    split.
    + replace (2 ^ Z.pos p * 2 ^ Z.pos p * 2 * den)
        with (2 ^ Z.pos p * (2 ^ Z.pos p * (2 * den))) by ring.
      exact H3.
    + rewrite E3, E2, E1. rewrite !Z.div_div by lia. f_equal. ring.
  - assert (Hp : 0 < 2 ^ Z.pos p) by (apply Z.pow_pos_nonneg; lia).
    destruct (IH _ _ _ Hm Hden Hl) as [H2 E2].
    assert (Hm2 : 0 ≤ shr_m (SpecFloat.iter_pos shr_1 p mrs)).
    { rewrite E2. apply Z.div_pos; lia. }
    destruct (IH _ _ (2 ^ Z.pos p * den) Hm2
                ltac:(apply Z.mul_pos_pos; lia) H2) as [H3 E3].
    change (Z.pos p~0) with (2 * Z.pos p).
    rewrite pow2_double.
    split.
    + rewrite <- Z.mul_assoc. exact H3.
    + rewrite E3, E2. by rewrite Z.div_div by lia.
  - rewrite Z.pow_1_r. by apply shr_1_locates.
Qed.

Lemma locates_of_loc l m num den :
  0 < den → loc_ok l m num den → locates (shr_record_of_loc m l) num den.
Proof.
  intros Hden. unfold loc_ok, locates.
  destruct l as [|c]; cbn [shr_record_of_loc].
  - intros ->. cbn [shr_m shr_r shr_s]. rewrite Z.sub_diag.
    split; [lia|]. split; split; bits.
  - destruct c; cbn [shr_record_of_loc shr_m shr_r shr_s];
      intros [Hm Hc]; revert Hm Hc; generalize (m * den); intros X Hm Hc.
    + rewrite Z.compare_eq_iff in Hc.
      split; [lia|]. split; split; bits.
    + rewrite Z.compare_lt_iff in Hc.
      split; [lia|]. split; split; bits.
    + rewrite Z.compare_gt_iff in Hc.
      split; [lia|]. split; split; bits.
Qed.

Lemma locates_div mrs num den :
  0 < den → locates mrs num den → shr_m mrs = num / den.
Proof.
  intros Hden (Hf & _). apply Z.div_unique with (num - shr_m mrs * den); lia.
Qed.

Lemma round_locates mrs num den :
  0 < den → locates mrs num den →
  round_nearest_even (shr_m mrs) (loc_of_shr_record mrs) = rheZ num den.
Proof.
  intros Hden Hl. pose proof (locates_div _ _ _ Hden Hl) as Hq.
  unfold rheZ. cbn zeta. rewrite <- Hq.
  destruct Hl as (Hf & Hr & Hs). destruct mrs as [m r s].
  cbn [shr_m shr_r shr_s] in *. clear Hq.
  revert Hf Hr Hs. generalize (m * den). intros X Hf Hr Hs.
  destruct r, s; cbn [loc_of_shr_record round_nearest_even].
  - assert (2 * (num - X) > den) as -> by (destruct Hr, Hs; lia). done.
  - assert (2 * (num - X) = den) as Hc.
    { destruct Hr as [Hr _].
      destruct (Z.eq_dec (2 * (num - X)) den) as [|Hne]; [done|].
      assert (false = true) by (apply Hs; lia). discriminate. }
    apply Z.compare_eq_iff in Hc. by rewrite Hc.
  - assert (2 * (num - X) < den) as ->; [|done].
    destruct (Z.lt_ge_cases (2 * (num - X)) den) as [|Hge]; [done|].
    assert (false = true) by (apply Hr; lia). discriminate.
  - assert (num - X = 0) as Hz.
    { destruct (Z.eq_dec (num - X) 0) as [|Hne]; [done|].
      destruct (Z.eq_dec (2 * (num - X)) den) as [He|Hne2].
      - assert (false = true) by (apply Hr; lia). discriminate.
      - assert (false = true) by (apply Hs; lia). discriminate. }
    rewrite Hz. cbn. by destruct den.
Qed.

Lemma new_location_ok d r q :
  0 < d → 0 ≤ r < d → loc_ok (new_location d r) q (q * d + r) d.
Proof.
  intros Hd Hr. unfold new_location, new_location_even, new_location_odd.
  assert (Hsub : q * d + r - q * d = r) by ring.
  destruct (Z.even d) eqn:Ev; destruct (Z.eqb_spec r 0) as [->|Hr0];
    unfold loc_ok; rewrite ?Hsub.
  - ring.
  - split; [lia|done].
  - ring.
  - split; [lia|].
    assert (Hodd : Z.odd d = true) by (rewrite <- Z.negb_even, Ev; done).
    apply Z.odd_spec in Hodd as [k ->].
    destruct (Z.compare_spec (2 * r + 1) (2 * k + 1));
      [apply Z.compare_lt_iff|apply Z.compare_lt_iff|apply Z.compare_gt_iff];
      lia.
Qed.

Lemma rheZ_bounds num den :
  0 < den → num / den ≤ rheZ num den ≤ num / den + 1.
Proof.
  intros Hden. unfold rheZ. cbn zeta.
  destruct (2 * (num - num / den * den) ?= den); [|lia..].
  destruct (Z.even (num / den)); lia.
Qed.

Lemma shr_fexp_spec m e l num den n :
  0 < den → 0 < m → loc_ok l m num den →
  Zdigits2 m = 53 + n → 0 ≤ n → -1074 ≤ e + n →
  ∃ mrs, shr_fexp 53 1024 m e l = (mrs, e + n)
         ∧ locates mrs num (2 ^ n * den) ∧ shr_m mrs = m / 2 ^ n.
Proof.
  intros Hden Hm Hl Hd Hn He.
  pose proof (locates_of_loc _ _ _ _ Hden Hl) as Hloc.
  unfold shr_fexp, fexp, emin. rewrite Hd.
  replace (Z.max (53 + n + e - 53) (3 - 1024 - 53) - e) with n by lia.
  destruct n as [|p|p]; [| |lia]; cbn [shr].
  - eexists. split; [by rewrite Z.add_0_r|].
    rewrite Z.pow_0_r, Z.mul_1_l, Z.div_1_r.
    split; [exact Hloc|by destruct l as [|[]]].
  - eexists. split; [reflexivity|].
    assert (Hm0 : shr_m (shr_record_of_loc m l) = m)
      by (by destruct l as [|[]]).
    destruct (iter_shr_1_locates p _ _ _ ltac:(rewrite Hm0; lia) Hden Hloc)
      as [A B].
    by rewrite Hm0 in B.
Qed.

Lemma binary_round_aux_spec mx ex lx num den n :
  0 < den → 0 < mx → loc_ok lx mx num den →
  Zdigits2 mx = 53 + n → 0 ≤ n → -1074 ≤ ex + n → ex + n + 1 ≤ 971 →
  let M := rheZ num (2 ^ n * den) in
  2 ^ 52 ≤ M ≤ 2 ^ 53
  ∧ binary_round_aux 53 1024 false mx ex lx
    = if M <? 2 ^ 53 then S754_finite false (Z.to_pos M) (ex + n)
      else S754_finite false (Z.to_pos (2 ^ 52)) (ex + n + 1).
Proof.
  intros Hden Hmx Hl Hd Hn Hlo Hhi M.
  assert (Hp : 0 < 2 ^ n) by (apply Z.pow_pos_nonneg; lia).
  assert (Hden' : 0 < 2 ^ n * den) by (apply Z.mul_pos_pos; lia).
  destruct (shr_fexp_spec _ _ _ _ _ _ Hden Hmx Hl Hd Hn Hlo)
    as (mrs & E1 & Hloc & Hm1).
  pose proof (round_locates _ _ _ Hden' Hloc) as HM. fold M in HM.
  pose proof (locates_div _ _ _ Hden' Hloc) as Hq.
  pose proof (rheZ_bounds num _ Hden') as HMb. fold M in HMb.
  rewrite <- Hq, Hm1 in HMb.
  assert (Hm1b : 2 ^ 52 ≤ mx / 2 ^ n < 2 ^ 53).
  { pose proof (Zdigits2_bounds _ _ Hmx Hd) as Hb.
    replace (53 + n - 1) with (52 + n) in Hb by lia.
    rewrite !Z.pow_add_r in Hb by lia.
    split.
    - apply Z.div_le_lower_bound; lia.
    - apply Z.div_lt_upper_bound; lia. }
  assert (HMr : 2 ^ 52 ≤ M ≤ 2 ^ 53) by lia.
  split; [exact HMr|].
  unfold binary_round_aux. rewrite E1, HM.
  destruct (Z.ltb_spec M (2 ^ 53)) as [Hlt|Hge].
  - destruct (shr_fexp_spec M (ex + n) loc_Exact M 1 0)
      as (mrs' & E2 & _ & Hm2);
      [lia|lia|cbn; lia| |lia|lia|].
    { apply Zdigits2_unique; [lia|]. cbn. lia. }
    rewrite E2, Hm2, Z.pow_0_r, Z.div_1_r.
    destruct M as [|pM|pM]; [lia| |lia].
    rewrite Z.add_0_r.
    destruct (Z.leb_spec (ex + n) (1024 - 53)); [done|lia].
  - assert (M = 2 ^ 53) as -> by lia.
    destruct (shr_fexp_spec (2 ^ 53) (ex + n) loc_Exact (2 ^ 53) 1 1)
      as (mrs' & E2 & _ & Hm2); [lia|lia|cbn; lia|reflexivity|lia|lia|].
    rewrite E2, Hm2.
    change (2 ^ 53 / 2 ^ 1) with (Z.pos (Z.to_pos (2 ^ 52))).
    destruct (Z.leb_spec (ex + n + 1) (1024 - 53)); [done|lia].
Qed.

Lemma rheZ_exact m : rheZ m 1 = m.
Proof.
  unfold rheZ. cbn zeta. rewrite Z.div_1_r, Z.mul_1_r, Z.sub_diag. reflexivity.
Qed.

(** A mantissa of 53 bits with an exponent in range needs no rounding. *)
Lemma binary_round_aux_exact m e :
  2 ^ 52 ≤ m < 2 ^ 53 → -1074 ≤ e ≤ 970 →
  binary_round_aux 53 1024 false m e loc_Exact
  = S754_finite false (Z.to_pos m) e.
Proof.
  intros Hm He.
  destruct (binary_round_aux_spec m e loc_Exact m 1 0) as [_ E];
    [lia|lia|cbn; lia| |lia|lia|lia|].
  { apply Zdigits2_unique; [lia|exact Hm]. }
  rewrite E, Z.pow_0_r, Z.mul_1_l, rheZ_exact, Z.add_0_r.
  destruct (Z.ltb_spec m (2 ^ 53)); [done|lia].
Qed.

Lemma shift_pos_pow2 p k : Z.pos (Pos.iter xO p k) = Z.pos p * 2 ^ Z.pos k.
Proof.
  change (Pos.iter xO p k) with (shift_pos k p).
  rewrite shift_pos_correct. rewrite Zpower_pos_nat, Zpower_nat_Z.
  rewrite positive_nat_Z. ring.
Qed.

(** The Number that holds a positive integer below [2^53]: the integer
    itself, its mantissa scaled to 53 bits. *)
Lemma of_N_spec n :
  0 < Z.of_N n < 2 ^ 53 →
  let d := Zdigits2 (Z.of_N n) in
  1 ≤ d ≤ 53
  ∧ 2 ^ 52 ≤ Z.of_N n * 2 ^ (53 - d) < 2 ^ 53
  ∧ binary_normalize 53 1024 (Z.of_N n) 0 false
    = S754_finite false (Z.to_pos (Z.of_N n * 2 ^ (53 - d))) (d - 53).
Proof.
  intros Hn d. destruct n as [|p]; [lia|]. cbn [Z.of_N] in *.
  pose proof (Zdigits2_bounds (Z.pos p) d ltac:(lia) eq_refl) as Hb.
  assert (Hd : 1 ≤ d ≤ 53).
  { subst d. cbn [Zdigits2]. split; [lia|].
    destruct (Z.le_gt_cases (Z.pos (digits2_pos p)) 53) as [|Hgt]; [done|].
    exfalso. cbn [Zdigits2] in Hb.
    assert (2 ^ 53 ≤ 2 ^ (Z.pos (digits2_pos p) - 1))
      by (apply Z.pow_le_mono_r; lia).
    lia. }
  assert (Hs : 2 ^ 52 ≤ Z.pos p * 2 ^ (53 - d) < 2 ^ 53).
  { assert (0 < 2 ^ (53 - d)) by (apply Z.pow_pos_nonneg; lia).
    replace (2 ^ 52) with (2 ^ (d - 1) * 2 ^ (53 - d))
      by (rewrite <- Z.pow_add_r by lia; f_equal; lia).
    replace (2 ^ 53) with (2 ^ d * 2 ^ (53 - d))
      by (rewrite <- Z.pow_add_r by lia; f_equal; lia).
    split; [apply Z.mul_le_mono_nonneg_r | apply Z.mul_lt_mono_pos_r]; lia. }
  split; [exact Hd|]. split; [exact Hs|].
  cbn [binary_normalize]. unfold binary_round, shl_align, fexp, emin.
  fold (Zdigits2 (Z.pos p)). fold d.
  replace (Z.max (d + 0 - 53) (3 - 1024 - 53) - 0) with (d - 53) by lia.
  replace (Z.max (d + 0 - 53) (3 - 1024 - 53)) with (d - 53) by lia.
  destruct (d - 53) as [|k|k] eqn:Ek; [|lia|].
  - replace (53 - d) with 0 in * by lia.
    rewrite Z.pow_0_r, Z.mul_1_r in *.
    rewrite binary_round_aux_exact by lia. reflexivity.
  - replace (53 - d) with (Z.pos k) in * by lia.
    rewrite binary_round_aux_exact; rewrite ?shift_pos_pow2; [done|lia|lia].
Qed.

(** The quotient of two canonical floats: the rounding of
    [mx * 2^53 / my] at the scale at which its integer part has 53 bits. *)
Lemma SFdiv_spec mx ex my ey :
  2 ^ 52 ≤ Z.pos mx < 2 ^ 53 → 2 ^ 52 ≤ Z.pos my < 2 ^ 53 →
  -1000 ≤ ex - ey ≤ 1000 →
  let n := Zdigits2 (Z.pos mx * 2 ^ 53 / Z.pos my) - 53 in
  let M := rheZ (Z.pos mx * 2 ^ 53) (2 ^ n * Z.pos my) in
  0 ≤ n ≤ 1
  ∧ 2 ^ 52 ≤ M ≤ 2 ^ 53
  ∧ SFdiv 53 1024 (S754_finite false mx ex) (S754_finite false my ey)
    = if M <? 2 ^ 53
      then S754_finite false (Z.to_pos M) (ex - ey - 53 + n)
      else S754_finite false (Z.to_pos (2 ^ 52)) (ex - ey - 53 + n + 1).
Proof.
  intros Hx Hy He n M.
  set (m' := Z.pos mx * 2 ^ 53) in *.
  assert (Hq : 2 ^ 52 ≤ m' / Z.pos my < 2 ^ 54).
  { subst m'. split.
    - apply Z.div_le_lower_bound; [lia|].
      change (2 ^ 53) with (2 * 2 ^ 52) in *. nia.
    - apply Z.div_lt_upper_bound; [lia|].
      change (2 ^ 54) with (2 ^ 53 * 2). change (2 ^ 53) with (2 * 2 ^ 52) in *.
      nia. }
  assert (Hn : 0 ≤ n ≤ 1).
  { subst n.
    destruct (Z.lt_ge_cases (m' / Z.pos my) (2 ^ 53)).
    - rewrite (Zdigits2_unique _ 53); [lia|lia|]. cbn. lia.
    - rewrite (Zdigits2_unique _ 54); [lia|lia|]. cbn. lia. }
  cbn [SFdiv xorb]. unfold SFdiv_core_binary. cbn [Zdigits2].
  assert (Hdx : Z.pos (digits2_pos mx) = 53)
    by (apply (Zdigits2_unique (Z.pos mx) 53); [lia|exact Hx]).
  assert (Hdy : Z.pos (digits2_pos my) = 53)
    by (apply (Zdigits2_unique (Z.pos my) 53); [lia|exact Hy]).
  rewrite Hdx, Hdy. unfold fexp, emin.
  replace (Z.min (Z.max (53 + ex - (53 + ey) - 53) (3 - 1024 - 53)) (ex - ey))
    with (ex - ey - 53) by lia.
  replace (ex - ey - (ex - ey - 53)) with 53 by lia.
  rewrite Z.shiftl_mul_pow2 by lia. fold m'.
  pose proof (Z_div_mod m' (Z.pos my) ltac:(lia)) as Hdm.
  unfold Z.div, Z.modulo in *.
  destruct (Z.div_eucl m' (Z.pos my)) as [q r]. destruct Hdm as [Em Hr].
  destruct (binary_round_aux_spec q (ex - ey - 53) (new_location (Z.pos my) r)
              m' (Z.pos my) n) as [HM E]; try lia.
  { rewrite Em. replace (Z.pos my * q + r) with (q * Z.pos my + r) by ring.
    apply new_location_ok; lia. }
  fold M in HM, E. split; [exact Hn|]. split; [exact HM|]. exact E.
Qed.

(** The product of two canonical floats: the rounding of [mx * my] at the
    scale at which it has 53 bits. *)
Lemma SFmul_spec mx ex my ey :
  2 ^ 52 ≤ Z.pos mx < 2 ^ 53 → 2 ^ 52 ≤ Z.pos my < 2 ^ 53 →
  -1000 ≤ ex + ey ≤ 900 →
  let n := Zdigits2 (Z.pos mx * Z.pos my) - 53 in
  let M := rheZ (Z.pos mx * Z.pos my) (2 ^ n) in
  52 ≤ n ≤ 53
  ∧ 2 ^ 52 ≤ M ≤ 2 ^ 53
  ∧ SFmul 53 1024 (S754_finite false mx ex) (S754_finite false my ey)
    = if M <? 2 ^ 53
      then S754_finite false (Z.to_pos M) (ex + ey + n)
      else S754_finite false (Z.to_pos (2 ^ 52)) (ex + ey + n + 1).
Proof.
  intros Hx Hy He n M.
  assert (HP : 2 ^ 104 ≤ Z.pos mx * Z.pos my < 2 ^ 106).
  { change (2 ^ 104) with (2 ^ 52 * 2 ^ 52).
    change (2 ^ 106) with (2 ^ 53 * 2 ^ 53). nia. }
  assert (Hn : 52 ≤ n ≤ 53).
  { subst n.
    destruct (Z.lt_ge_cases (Z.pos mx * Z.pos my) (2 ^ 105)).
    - rewrite (Zdigits2_unique _ 105); [lia|lia|]. cbn. lia.
    - rewrite (Zdigits2_unique _ 106); [lia|lia|]. cbn. lia. }
  cbn [SFmul xorb]. rewrite Pos2Z.inj_mul.
  destruct (binary_round_aux_spec (Z.pos mx * Z.pos my) (ex + ey) loc_Exact
              (Z.pos mx * Z.pos my) 1 n) as [HM E]; try lia.
  { cbn. lia. }
  rewrite Z.mul_1_r in HM, E. fold M in HM, E.
  split; [exact Hn|]. split; [exact HM|]. exact E.
Qed.

End RoundingInternals.

Section RoundingOrder.
Local Open Scope Z_scope.

Lemma div_le_cross N D N' D' :
  0 < D → 0 < D' → N * D' ≤ N' * D → N / D ≤ N' / D'.
Proof.
  intros HD HD' H.
  rewrite <- (Z.div_mul_cancel_r N D D') by lia.
  rewrite <- (Z.div_mul_cancel_l N' D' D) by lia.
  apply Z.div_le_mono; [apply Z.mul_pos_pos; lia|lia].
Qed.

(** Rounding to nearest even is monotone in the rational it rounds. *)
Lemma rheZ_mono N D N' D' :
  0 < D → 0 < D' → N * D' ≤ N' * D → rheZ N D ≤ rheZ N' D'.
Proof.
  intros HD HD' H.
  pose proof (div_le_cross _ _ _ _ HD HD' H) as Hq.
  pose proof (rheZ_bounds N D HD) as B.
  pose proof (rheZ_bounds N' D' HD') as B'.
  destruct (Z.eq_dec (N / D) (N' / D')) as [E|Hne].
  2:{ revert Hq B B' Hne.
      generalize (N / D) (N' / D') (rheZ N D) (rheZ N' D'). lia. }
  clear B B'. unfold rheZ. cbn zeta. rewrite <- E.
  pose proof (Z.mul_div_le N D HD) as L1.
  pose proof (Z.mul_succ_div_gt N D HD) as U1.
  pose proof (Z.mul_div_le N' D' HD') as L2.
  pose proof (Z.mul_succ_div_gt N' D' HD') as U2.
  rewrite <- E in L2, U2. revert H L1 U1 L2 U2. generalize (N / D).
  intros q H L1 U1 L2 U2.
  set (f := N - q * D). set (f' := N' - q * D').
  assert (Hf : f * D' ≤ f' * D) by (subst f f'; nia).
  assert (0 ≤ f < D) by (subst f; nia).
  assert (0 ≤ f' < D') by (subst f'; nia).
  clearbody f f'.
  destruct (Z.compare_spec (2 * f) D) as [c|c|c];
    destruct (Z.compare_spec (2 * f') D') as [c'|c'|c'];
    try (destruct (Z.even q)); try lia; exfalso; nia.
Qed.

Lemma digits_scale N D n :
  0 ≤ N → 0 < D → 0 ≤ n → Zdigits2 (N / D) = 53 + n →
  2 ^ 52 * (2 ^ n * D) ≤ N < 2 ^ 53 * (2 ^ n * D).
Proof.
  intros HN HD Hn Hd.
  assert (Hp : 0 < 2 ^ n) by (apply Z.pow_pos_nonneg; lia).
  assert (Hq : 0 < N / D).
  { pose proof (Z.div_pos N D HN HD).
    destruct (N / D) as [|q|q] eqn:E; cbn in Hd; lia. }
  pose proof (Zdigits2_bounds _ _ Hq Hd) as Hb.
  replace (53 + n - 1) with (52 + n) in Hb by lia.
  rewrite !Z.pow_add_r in Hb by lia.
  pose proof (Z.mul_div_le N D HD) as L1.
  pose proof (Z.mul_succ_div_gt N D HD) as U1.
  revert Hb L1 U1. generalize (N / D) (2 ^ n) Hp. intros q p Hp' Hb L1 U1.
  split; nia.
Qed.

End RoundingOrder.

Section RoundingValues.
Local Open Scope Q_scope.

Lemma pow2_pos u : 0 < 2 ^ u.
Proof. by apply Qpower_0_lt. Qed.

Lemma pow2_add u v : 2 ^ (u + v) == 2 ^ u * 2 ^ v.
Proof. by apply Qpower_plus. Qed.

Lemma pow2_le u v : (u ≤ v)%Z → 2 ^ u <= 2 ^ v.
Proof. intros H. by apply Qpower_le_compat_l. Qed.

Lemma pow2_Z n : (0 ≤ n)%Z → inject_Z (2 ^ n) == 2 ^ n.
Proof. intros H. by rewrite Zpower_Qpower. Qed.

Lemma pow2_succ u : 2 ^ (u + 1) == 2 * 2 ^ u.
Proof. rewrite pow2_add. change (2 ^ 1) with 2. ring. Qed.

Lemma Qdiv_le_cross N D N' D' :
  (0 < D)%Z → (0 < D')%Z →
  inject_Z N / inject_Z D <= inject_Z N' / inject_Z D' →
  (N * D' ≤ N' * D)%Z.
Proof.
  intros HD HD' H.
  destruct D as [|d|d]; [lia| |lia]. destruct D' as [|d'|d']; [lia| |lia].
  unfold Qle, Qdiv, Qmult, Qinv, inject_Z in H. cbn in H. lia.
Qed.

Lemma Qdiv_bounds N D lo hi :
  (0 < D)%Z → (lo * D ≤ N < hi * D)%Z →
  inject_Z lo <= inject_Z N / inject_Z D < inject_Z hi.
Proof.
  intros HD [H1 H2].
  assert (0 < inject_Z D)
    by (change 0 with (inject_Z 0); by rewrite <- Zlt_Qlt).
  split.
  - apply Qle_shift_div_l; [done|].
    rewrite <- inject_Z_mult. by rewrite <- Zle_Qle.
  - apply Qlt_shift_div_r; [done|].
    rewrite <- inject_Z_mult. by rewrite <- Zlt_Qlt.
Qed.

(** Rounding at the scale of the binade is monotone across binades. *)
Lemma rounding_mono N D u N' D' u' :
  (0 < D)%Z → (0 < D')%Z →
  (2 ^ 52 * D ≤ N < 2 ^ 53 * D)%Z → (2 ^ 52 * D' ≤ N' < 2 ^ 53 * D')%Z →
  inject_Z N / inject_Z D * 2 ^ u <= inject_Z N' / inject_Z D' * 2 ^ u' →
  Fval (rheZ N D) u <= Fval (rheZ N' D') u'.
Proof.
  intros HD HD' HN HN' HX. unfold Fval.
  pose proof (Qdiv_bounds _ _ _ _ HD HN) as [A1 A2].
  pose proof (Qdiv_bounds _ _ _ _ HD' HN') as [A1' A2'].
  assert (R : (2 ^ 52 ≤ rheZ N D ≤ 2 ^ 53)%Z).
  { pose proof (rheZ_bounds N D HD).
    assert (2 ^ 52 ≤ N / D)%Z by (apply Z.div_le_lower_bound; lia).
    assert (N / D < 2 ^ 53)%Z by (apply Z.div_lt_upper_bound; lia). lia. }
  assert (R' : (2 ^ 52 ≤ rheZ N' D' ≤ 2 ^ 53)%Z).
  { pose proof (rheZ_bounds N' D' HD').
    assert (2 ^ 52 ≤ N' / D')%Z by (apply Z.div_le_lower_bound; lia).
    assert (N' / D' < 2 ^ 53)%Z by (apply Z.div_lt_upper_bound; lia). lia. }
  destruct R as [R1 R2], R' as [R1' R2'].
  rewrite Zle_Qle in R1, R2, R1', R2'.
  pose proof (pow2_pos u) as P. pose proof (pow2_pos u') as P'.
  destruct (Z.lt_trichotomy u u') as [Hlt|[->|Hgt]].
  - assert (L : 2 * 2 ^ u <= 2 ^ u').
    { rewrite <- pow2_succ. apply pow2_le. lia. }
    change (inject_Z (2 ^ 53)) with (2 * inject_Z (2 ^ 52)) in R2.
    assert (C : 0 < inject_Z (2 ^ 52)) by reflexivity.
    revert R2 R1' L P P' C.
    generalize (inject_Z (rheZ N D)) (inject_Z (rheZ N' D'))
      (inject_Z (2 ^ 52)) (2 ^ u) (2 ^ u').
    intros r r' c p p' R2 R1' L P P' C.
    nra.
  - apply Qmult_le_compat_r; [|by apply Qlt_le_weak].
    rewrite <- Zle_Qle. apply rheZ_mono; [done..|].
    apply Qdiv_le_cross; [done..|].
    by rewrite <- (Qmult_le_r _ _ (2 ^ u') P').
  - exfalso.
    assert (L : 2 * 2 ^ u' <= 2 ^ u).
    { rewrite <- pow2_succ. apply pow2_le. lia. }
    change (inject_Z (2 ^ 53)) with (2 * inject_Z (2 ^ 52)) in A2'.
    assert (C : 0 < inject_Z (2 ^ 52)) by reflexivity.
    revert A1 A2' L P P' HX C.
    generalize (inject_Z N / inject_Z D) (inject_Z N' / inject_Z D')
      (inject_Z (2 ^ 52)) (2 ^ u) (2 ^ u').
    intros a a' c p p' A1 A2' L P P' HX C.
    nra.
Qed.

Lemma val_finite M E :
  (0 < M)%Z → val (S754_finite false (Z.to_pos M) E) = Fval M E.
Proof. intros H. cbn. by rewrite Z2Pos.id. Qed.

Lemma rounded_mono X f X' f' :
  rounded X f → rounded X' f' → X <= X' → val f <= val f'.
Proof.
  intros (N & D & u & M & E & HD & HN & HX & -> & HM & _ & HV)
         (N' & D' & u' & M' & E' & HD' & HN' & HX' & -> & HM' & _ & HV') H.
  rewrite !val_finite by lia. rewrite HV, HV'.
  apply rounding_mono; [done..|]. by rewrite <- HX, <- HX'.
Qed.

(** The two shapes in which [binary_round_aux] delivers a rounded
    mantissa have the same value. *)
Lemma normalized_value (M u : Z) :
  (2 ^ 52 ≤ M ≤ 2 ^ 53)%Z →
  ∃ M' E', (if (M <? 2 ^ 53)%Z
            then S754_finite false (Z.to_pos M) u
            else S754_finite false (Z.to_pos (2 ^ 52)) (u + 1))
           = S754_finite false (Z.to_pos M') E'
           ∧ (2 ^ 52 ≤ M' < 2 ^ 53)%Z ∧ (u ≤ E' ≤ u + 1)%Z
           ∧ Fval M' E' == Fval M u.
Proof.
  intros HM. destruct (Z.ltb_spec M (2 ^ 53)) as [Hlt|Hge].
  - exists M, u. split; [done|]. split; [lia|]. split; [lia|reflexivity].
  - assert (M = 2 ^ 53)%Z as -> by lia.
    exists (2 ^ 52)%Z, (u + 1)%Z. split; [done|]. split; [lia|].
    split; [lia|]. unfold Fval. rewrite pow2_succ.
    change (inject_Z (2 ^ 53)) with (2 * inject_Z (2 ^ 52)). ring.
Qed.

Lemma inject_Z_pos z : (0 < z)%Z → 0 < inject_Z z.
Proof. intros H. change 0 with (inject_Z 0). by rewrite <- Zlt_Qlt. Qed.

Lemma pow2_opp u : 2 ^ (- u) == / 2 ^ u.
Proof. apply Qpower_opp. Qed.

Lemma pow2_nonzero u : ¬ 2 ^ u == 0.
Proof. pose proof (pow2_pos u). lra. Qed.

Lemma of_N_value n :
  (0 < Z.of_N n < 2 ^ 53)%Z →
  canonical (binary_normalize 53 1024 (Z.of_N n) 0 false) (-52) 0
  ∧ val (binary_normalize 53 1024 (Z.of_N n) 0 false) == inject_Z (Z.of_N n).
Proof.
  intros Hn. destruct (of_N_spec n Hn) as (Hd & HM & E). cbn zeta in *.
  set (d := Zdigits2 (Z.of_N n)) in *. rewrite E. split.
  - eexists _, _. split; [reflexivity|]. split; [exact HM|lia].
  - rewrite val_finite by lia. unfold Fval.
    rewrite inject_Z_mult, pow2_Z by lia.
    rewrite <- Qmult_assoc, <- pow2_add.
    replace (53 - d + (d - 53))%Z with 0%Z by lia. change (2 ^ 0) with 1. ring.
Qed.

Lemma SFdiv_rounded x y a b c d :
  canonical x a b → canonical y c d →
  (-500 ≤ a)%Z → (b ≤ 500)%Z → (-500 ≤ c)%Z → (d ≤ 500)%Z →
  rounded (val x / val y) (SFdiv 53 1024 x y)
  ∧ canonical (SFdiv 53 1024 x y) (a - d - 53) (b - c - 51).
Proof.
  intros (Mx & Ex & -> & HMx & HEx) (My & Ey & -> & HMy & HEy) Ha Hb Hc Hd.
  destruct (SFdiv_spec (Z.to_pos Mx) Ex (Z.to_pos My) Ey) as (Hn & HM & E);
    rewrite ?Z2Pos.id by lia; [lia..|].
  cbn zeta in *. rewrite !Z2Pos.id in Hn, HM, E by lia.
  set (n := (Zdigits2 (Mx * 2 ^ 53 / My) - 53)%Z) in *.
  set (N := (Mx * 2 ^ 53)%Z) in *. set (D := (2 ^ n * My)%Z) in *.
  assert (Hp : (0 < 2 ^ n)%Z) by (apply Z.pow_pos_nonneg; lia).
  assert (HD : (0 < D)%Z) by (subst D; apply Z.mul_pos_pos; lia).
  assert (HN : (2 ^ 52 * D ≤ N < 2 ^ 53 * D)%Z).
  { subst D. apply digits_scale; [subst N; lia|lia|lia|]. subst n. lia. }
  replace (2 ^ n * My)%Z with D in E by reflexivity.
  destruct (normalized_value (rheZ N D) (Ex - Ey - 53 + n) HM)
    as (M' & E' & Eq & HM' & HE' & HV).
  rewrite E, Eq. split.
  - exists N, D, (Ex - Ey - 53 + n)%Z, M', E'.
    split; [exact HD|]. split; [exact HN|]. split; [|done].
    rewrite !val_finite by lia. unfold Fval. subst N D.
    rewrite !inject_Z_mult, !pow2_Z by lia.
    replace (Ex - Ey - 53 + n)%Z with (Ex + - Ey + - 53 + n)%Z by lia.
    rewrite !pow2_add, !pow2_opp.
    pose proof (pow2_nonzero Ey) as H1. pose proof (pow2_nonzero 53) as H2.
    pose proof (pow2_nonzero n) as H3.
    pose proof (inject_Z_pos My ltac:(lia)) as H4.
    change (2 ^ (-53)) with (/ 2 ^ 53).
    revert H1 H2 H3 H4.
    generalize (2 ^ Ex) (2 ^ Ey) (2 ^ 53) (2 ^ n) (inject_Z Mx) (inject_Z My).
    intros pa pb pc pd mx my H1 H2 H3 H4.
    field. repeat split; lra.
  - exists M', E'. split; [done|]. split; [done|]. lia.
Qed.

Lemma SFmul_rounded x y a b c d :
  canonical x a b → canonical y c d →
  (-500 ≤ a)%Z → (b ≤ 400)%Z → (-500 ≤ c)%Z → (d ≤ 400)%Z →
  rounded (val x * val y) (SFmul 53 1024 x y)
  ∧ canonical (SFmul 53 1024 x y) (a + c + 52) (b + d + 54).
Proof.
  intros (Mx & Ex & -> & HMx & HEx) (My & Ey & -> & HMy & HEy) Ha Hb Hc Hd.
  destruct (SFmul_spec (Z.to_pos Mx) Ex (Z.to_pos My) Ey) as (Hn & HM & E);
    rewrite ?Z2Pos.id by lia; [lia..|].
  cbn zeta in *. rewrite !Z2Pos.id in Hn, HM, E by lia.
  set (n := (Zdigits2 (Mx * My) - 53)%Z) in *.
  set (N := (Mx * My)%Z) in *.
  assert (Hp : (0 < 2 ^ n)%Z) by (apply Z.pow_pos_nonneg; lia).
  assert (HN : (2 ^ 52 * 2 ^ n ≤ N < 2 ^ 53 * 2 ^ n)%Z).
  { pose proof (digits_scale N 1 n) as H.
    rewrite Z.div_1_r, Z.mul_1_r in H. apply H; subst N n; nia. }
  destruct (normalized_value (rheZ N (2 ^ n)) (Ex + Ey + n) HM)
    as (M' & E' & Eq & HM' & HE' & HV).
  rewrite E, Eq. split.
  - exists N, (2 ^ n)%Z, (Ex + Ey + n)%Z, M', E'.
    split; [exact Hp|]. split; [exact HN|]. split; [|done].
    rewrite !val_finite by lia. unfold Fval. subst N.
    rewrite !inject_Z_mult, !pow2_Z by lia. rewrite !pow2_add.
    pose proof (pow2_nonzero n) as H1. revert H1.
    generalize (2 ^ Ex) (2 ^ Ey) (2 ^ n) (inject_Z Mx) (inject_Z My).
    intros pa pb pd mx my H1. field. lra.
  - exists M', E'. split; [done|]. split; [done|]. lia.
Qed.

End RoundingValues.

(** ** The score as a rounding of the exact ratio *)
Section ScoreOrder.
Local Open Scope Q_scope.

Lemma rounded_ext X X' f : X == X' → rounded X f → rounded X' f.
Proof.
  intros HX (N & D & u & M & E & HD & HN & HE & Hf).
  exists N, D, u, M, E. split; [done|]. split; [done|]. split; [|done].
  by rewrite <- HX.
Qed.

Lemma Qfloor_div a b :
  (0 < b)%Z → Qfloor (inject_Z a / inject_Z b) = (a / b)%Z.
Proof.
  intros Hb. destruct b as [|p|p]; [lia| |lia].
  unfold Qdiv, Qmult, Qinv, inject_Z, Qfloor. cbn.
  by rewrite Z.mul_1_r.
Qed.

(** [Math.round] of a positive Number is the floor of its value plus one
    half. *)
Lemma Math_round_value M E :
  (0 < M)%Z →
  Number.Math_round (S754_finite false (Z.to_pos M) E)
  = Some (Qfloor (Fval M E + (1 # 2))).
Proof.
  intros HM. unfold Number.Math_round, Fval. rewrite Z2Pos.id by lia.
  f_equal. destruct E as [|p|p].
  - assert (H : inject_Z M * 2 ^ 0 + (1 # 2)
                == inject_Z (2 * M + 1) / inject_Z 2).
    { rewrite inject_Z_plus, inject_Z_mult. change (2 ^ 0) with 1.
      change (inject_Z 2) with 2. change (inject_Z 1) with 1. field. }
    rewrite H, Qfloor_div by lia. apply Z.div_unique with 1%Z; lia.
  - assert (H : inject_Z M * 2 ^ Z.pos p + (1 # 2)
                == inject_Z (2 * (M * 2 ^ Z.pos p) + 1) / inject_Z 2).
    { rewrite inject_Z_plus, !inject_Z_mult, pow2_Z by lia.
      change (inject_Z 2) with 2. change (inject_Z 1) with 1.
      generalize (2 ^ Z.pos p). intros q. field. }
    rewrite H, Qfloor_div by lia. apply Z.div_unique with 1%Z; lia.
  - assert (Hp : (0 < 2 ^ Z.pos p)%Z) by (apply Z.pow_pos_nonneg; lia).
    assert (H : inject_Z M * 2 ^ Z.neg p + (1 # 2)
                == inject_Z (2 * M + 2 ^ Z.pos p)
                   / inject_Z (2 ^ (Z.pos p + 1))).
    { change (Z.neg p) with (- Z.pos p)%Z. rewrite pow2_opp.
      rewrite Z.pow_add_r, Z.pow_1_r by lia.
      rewrite inject_Z_plus, !inject_Z_mult, pow2_Z by lia.
      change (inject_Z 2) with 2.
      pose proof (pow2_nonzero (Z.pos p)) as Hq. revert Hq.
      generalize (2 ^ Z.pos p). intros q Hq. field. done. }
    rewrite H, Qfloor_div; [done|]. apply Z.pow_pos_nonneg; lia.
Qed.

Lemma Qdiv_cross_le N D N' D' :
  (0 < D)%Z → (0 < D')%Z → (N * D' ≤ N' * D)%Z →
  inject_Z N / inject_Z D <= inject_Z N' / inject_Z D'.
Proof.
  intros HD HD' H.
  destruct D as [|d|d]; [lia| |lia]. destruct D' as [|d'|d']; [lia| |lia].
  unfold Qle, Qdiv, Qmult, Qinv, inject_Z. cbn. lia.
Qed.

(** The score of a positive baseline count: the exact ratio, rounded to a
    Number, times 100, rounded to a Number, rounded to an integer. *)
Lemma score_value b t :
  (0 < Z.of_N b < 2 ^ 53)%Z → (0 < Z.of_N t < 2 ^ 53)%Z →
  ∃ f1 f2,
    rounded (inject_Z (Z.of_N b) / inject_Z (Z.of_N t)) f1
    ∧ rounded (val f1 * 100) f2
    ∧ 0 < val f2
    ∧ Scorer.baselineScore b t = Some (Qfloor (val f2 + (1 # 2))).
Proof.
  intros Hb Ht.
  destruct (of_N_value b Hb) as [Cb Vb].
  destruct (of_N_value t Ht) as [Ct Vt].
  destruct (of_N_value 100 ltac:(done)) as [Cc Vc].
  destruct (SFdiv_rounded _ _ _ _ _ _ Cb Ct) as [R1 C1]; [lia..|].
  destruct (SFmul_rounded _ _ _ _ _ _ C1 Cc) as [R2 C2]; [lia..|].
  eexists _, _. split; [|split; [|split]].
  - eapply rounded_ext; [|exact R1]. by rewrite Vb, Vt.
  - eapply rounded_ext; [|exact R2]. rewrite Vc. reflexivity.
  - destruct C2 as (M & E & -> & HM & _). rewrite val_finite by lia.
    unfold Fval. pose proof (pow2_pos E). pose proof (inject_Z_pos M).
    apply Qmult_lt_0_compat; [apply inject_Z_pos; lia|done].
  - unfold Scorer.baselineScore.
    replace (0 <? t)%N with true by (symmetry; apply N.ltb_lt; lia).
    unfold Number.div, Number.mul, Number.of_N, Number.prec, Number.emax.
    destruct C2 as (M & E & Ef & HM & _). rewrite Ef.
    rewrite Math_round_value by lia. by rewrite val_finite by lia.
Qed.

(** The score is monotone in the exact ratio. *)
Lemma score_mono_pos b t b' t' :
  (0 < Z.of_N b < 2 ^ 53)%Z → (0 < Z.of_N t < 2 ^ 53)%Z →
  (0 < Z.of_N b' < 2 ^ 53)%Z → (0 < Z.of_N t' < 2 ^ 53)%Z →
  (Z.of_N b * Z.of_N t' ≤ Z.of_N b' * Z.of_N t)%Z →
  ∃ s s', Scorer.baselineScore b t = Some s
          ∧ Scorer.baselineScore b' t' = Some s' ∧ (0 ≤ s ≤ s')%Z.
Proof.
  intros Hb Ht Hb' Ht' H.
  destruct (score_value b t Hb Ht) as (f1 & f2 & R1 & R2 & P & E).
  destruct (score_value b' t' Hb' Ht') as (f1' & f2' & R1' & R2' & P' & E').
  eexists _, _. split; [exact E|]. split; [exact E'|].
  assert (H1 : val f1 <= val f1').
  { apply (rounded_mono _ _ _ _ R1 R1'). apply Qdiv_cross_le; lia. }
  assert (H2 : val f2 <= val f2').
  { apply (rounded_mono _ _ _ _ R2 R2'). lra. }
  split.
  - change 0%Z with (Qfloor 0). apply Qfloor_resp_le. lra.
  - apply Qfloor_resp_le. lra.
Qed.

Lemma score_zero t :
  (0 < Z.of_N t < 2 ^ 53)%Z → Scorer.baselineScore 0 t = Some 0%Z.
Proof.
  intros Ht. destruct (of_N_value t Ht) as [(M & E & Ef & _) _].
  unfold Scorer.baselineScore.
  replace (0 <? t)%N with true by (symmetry; apply N.ltb_lt; lia).
  unfold Number.div, Number.mul, Number.of_N, Number.prec, Number.emax.
  rewrite Ef. reflexivity.
Qed.

Lemma score_full t :
  (0 < Z.of_N t < 2 ^ 53)%Z → Scorer.baselineScore t t = Some 100%Z.
Proof.
  intros Ht. destruct (of_N_value t Ht) as [(M & E & Ef & HM & HE) _].
  unfold Scorer.baselineScore.
  replace (0 <? t)%N with true by (symmetry; apply N.ltb_lt; lia).
  unfold Number.div, Number.mul, Number.of_N, Number.prec, Number.emax.
  rewrite Ef.
  destruct (SFdiv_spec (Z.to_pos M) E (Z.to_pos M) E) as (Hn & _ & Ed);
    rewrite ?Z2Pos.id by lia; [lia..|].
  cbn zeta in Hn, Ed. rewrite !Z2Pos.id in Hn, Ed by lia.
  assert (Hq : (M * 2 ^ 53 / M = 2 ^ 53)%Z).
  { rewrite Z.mul_comm. apply Z.div_mul. lia. }
  rewrite Hq in Hn, Ed.
  change (Zdigits2 (2 ^ 53) - 53)%Z with 1%Z in Ed.
  assert (Hr : rheZ (M * 2 ^ 53) (2 ^ 1 * M) = (2 ^ 52)%Z).
  { unfold rheZ. cbn zeta.
    replace (M * 2 ^ 53)%Z with (2 ^ 52 * (2 ^ 1 * M))%Z
      by (change (2 ^ 53)%Z with (2 ^ 52 * 2 ^ 1)%Z; ring).
    rewrite Z.div_mul by lia. rewrite Z.sub_diag.
    by replace (2 * 0 ?= 2 ^ 1 * M)%Z with Lt
      by (symmetry; apply Z.compare_lt_iff; lia). }
  rewrite Hr in Ed. rewrite Ed.
  replace (E - E - 53 + 1)%Z with (-52)%Z by lia.
  reflexivity.
Qed.

(** X25. For a total below 2^53 the score is an integer between 0 and
    100. *)
Lemma score_in_range b l n :
  (Z.of_N (b + l + n) < 2 ^ 53)%Z →
  ∃ s, Scorer.score b l n = Some s ∧ (0 ≤ s ≤ 100)%Z.
Proof.
  intros Hr. unfold Scorer.score.
  destruct (N.eq_dec (b + l + n)%N 0%N) as [Hz|Hnz].
  - exists 100%Z. rewrite Hz. done.
  - destruct (N.eq_dec b 0%N) as [->|Hb].
    + exists 0%Z. rewrite score_zero by lia. done.
    + destruct (score_mono_pos b (b + l + n)%N (b + l + n)%N (b + l + n)%N)
        as (s & s' & E & E' & Hs); [lia..|nia|].
      rewrite score_full in E' by lia. injection E' as <-.
      exists s. done.
Qed.

End ScoreOrder.

(** ** How far the score can be from the exact rounding *)
Section ScoreError.
Local Open Scope Q_scope.

Lemma rheZ_error N D :
  (0 < D)%Z →
  (2 * N ≤ 2 * (rheZ N D * D) + D ∧ 2 * (rheZ N D * D) ≤ 2 * N + D)%Z.
Proof.
  intros HD. unfold rheZ. cbn zeta.
  pose proof (Z.mul_div_le N D HD) as L.
  pose proof (Z.mul_succ_div_gt N D HD) as U.
  revert L U. generalize (N / D)%Z. intros q L U.
  replace (D * q)%Z with (q * D)%Z in L by ring.
  replace (D * Z.succ q)%Z with (q * D + D)%Z in U by ring.
  destruct (Z.compare_spec (2 * (N - q * D)) D) as [c|c|c].
  - destruct (Z.even q);
      rewrite ?Z.mul_add_distr_r; revert L U c; generalize (q * D)%Z; lia.
  - revert L U c; generalize (q * D)%Z; lia.
  - rewrite Z.mul_add_distr_r. revert L U c; generalize (q * D)%Z; lia.
Qed.

(** One rounding moves a value by at most [eps] of it. *)
Lemma rounded_error X f :
  rounded X f → 0 < X ∧ X * (1 - eps) <= val f <= X * (1 + eps).
Proof.
  intros (N & D & u & M & E & HD & HN & HX & -> & HM & _ & HV).
  rewrite val_finite by lia. rewrite HV, HX. unfold Fval.
  pose proof (pow2_pos u) as P.
  pose proof (Qdiv_bounds _ _ _ _ HD HN) as [A1 A2].
  pose proof (rheZ_error N D HD) as [E1 E2].
  rewrite Zle_Qle in E1, E2.
  rewrite !inject_Z_plus, !inject_Z_mult in E1, E2.
  change (inject_Z 2) with 2 in E1, E2.
  pose proof (inject_Z_pos D HD) as Dp.
  assert (Ea : inject_Z N / inject_Z D * inject_Z D == inject_Z N)
    by (field; lra).
  change (inject_Z (2 ^ 52)) with 4503599627370496 in A1.
  unfold eps. clear HX HV A2.
  revert A1 E1 E2 Dp Ea P.
  generalize (inject_Z N / inject_Z D) (inject_Z (rheZ N D)) (2 ^ u).
  generalize (inject_Z N) (inject_Z D).
  intros n d a r p A1 E1 E2 Dp Ea P.
  assert (R : a - (1 # 2) <= r <= a + (1 # 2)).
  { split; apply (Qmult_le_r _ _ d Dp); nra. }
  destruct R as [R1 R2].
  split; [nra|]. split; nra.
Qed.

Lemma Qfloor_unique (y : Q) (k : Z) :
  inject_Z k <= y → y < inject_Z k + 1 → Qfloor y = k.
Proof.
  intros H1 H2.
  pose proof (Qfloor_le y) as L. pose proof (Qlt_floor y) as U.
  rewrite inject_Z_plus in U. change (inject_Z 1) with 1 in U.
  assert (A : inject_Z (Qfloor y) < inject_Z k + 1) by lra.
  assert (B : inject_Z k < inject_Z (Qfloor y) + 1) by lra.
  change 1 with (inject_Z 1) in A, B. rewrite <- inject_Z_plus in A, B.
  rewrite <- Zlt_Qlt in A, B. lia.
Qed.

(** Two roundings move the product by less than [201 * eps]. *)
Lemma score_close b t :
  (0 < Z.of_N b ≤ Z.of_N t)%Z → (Z.of_N t < 2 ^ 44)%Z →
  ∃ v x : Q,
    Scorer.baselineScore b t = Some (Qfloor (v + (1 # 2)))
    ∧ x * inject_Z (Z.of_N t) == 100 * inject_Z (Z.of_N b)
    ∧ x - 200 * eps <= v <= x + 201 * eps.
Proof.
  intros Hb Ht.
  destruct (score_value b t) as (f1 & f2 & R1 & R2 & _ & E); [lia..|].
  apply rounded_error in R1 as (P1 & L1 & U1).
  apply rounded_error in R2 as (_ & L2 & U2).
  exists (val f2), (100 * (inject_Z (Z.of_N b) / inject_Z (Z.of_N t))).
  split; [exact E|].
  pose proof (inject_Z_pos (Z.of_N t) ltac:(lia)) as Tp.
  split; [field; lra|].
  assert (X1 : inject_Z (Z.of_N b) / inject_Z (Z.of_N t) <= 1).
  { apply Qle_shift_div_r; [done|]. rewrite Qmult_1_l, <- Zle_Qle. lia. }
  revert P1 L1 U1 L2 U2 X1. unfold eps.
  generalize (inject_Z (Z.of_N b) / inject_Z (Z.of_N t)) (val f1) (val f2).
  intros X v1 v2 P1 L1 U1 L2 U2 X1. split; lra.
Qed.

(** X26. For totals below [2^44] the score is the exact percentage rounded
    half up, unless the percentage lies exactly halfway between two
    integers; then it is that integer or the one below. *)
Lemma score_vs_exact b l n :
  (0 < b)%N → (Z.of_N (b + l + n) < 2 ^ 44)%Z →
  let t := Z.of_N (b + l + n) in
  if ((200 * Z.of_N b + t) mod (2 * t) =? 0)%Z
  then Scorer.score b l n = Some (specScore b l n)
       ∨ Scorer.score b l n = Some (specScore b l n - 1)%Z
  else Scorer.score b l n = Some (specScore b l n).
Proof.
  intros Hb Ht t. unfold Scorer.score, specScore. fold t.
  replace (t =? 0)%Z with false by (symmetry; apply Z.eqb_neq; lia).
  replace (2 * (100 * Z.of_N b) + t)%Z with (200 * Z.of_N b + t)%Z by ring.
  destruct (score_close b (b + l + n)) as (v & x & E & Hx & Lv & Uv);
    [lia|done|].
  fold t in Hx. rewrite E.
  pose proof (Z.div_mod (200 * Z.of_N b + t) (2 * t) ltac:(lia)) as Hdm.
  pose proof (Z.mod_pos_bound (200 * Z.of_N b + t) (2 * t) ltac:(lia)) as Hr.
  revert Hdm Hr.
  generalize ((200 * Z.of_N b + t) / (2 * t))%Z
    ((200 * Z.of_N b + t) mod (2 * t))%Z.
  intros k r Hdm Hr.
  assert (Q1 : 2 * (x * inject_Z t) + inject_Z t
               == 2 * (inject_Z k * inject_Z t) + inject_Z r).
  { rewrite Hx. change 2 with (inject_Z 2). change 100 with (inject_Z 100).
    rewrite <- !inject_Z_mult, <- !inject_Z_plus. apply inject_Z_injective.
    lia. }
  pose proof (inject_Z_pos t ltac:(lia)) as Tp.
  assert (T44 : inject_Z t < 17592186044416).
  { change 17592186044416 with (inject_Z (2 ^ 44)). by rewrite <- Zlt_Qlt. }
  assert (R0 : 0 <= inject_Z r)
    by (change 0 with (inject_Z 0); rewrite <- Zle_Qle; lia).
  assert (R2 : inject_Z r + 1 <= 2 * inject_Z t).
  { change 2 with (inject_Z 2). change 1 with (inject_Z 1).
    rewrite <- inject_Z_mult, <- inject_Z_plus, <- Zle_Qle. lia. }
  unfold eps in Lv, Uv.
  assert (D : ∃ d, x + (1 # 2) == inject_Z k + d
                   ∧ d * (2 * inject_Z t) == inject_Z r).
  { exists (x + (1 # 2) - inject_Z k). split; [ring|].
    revert Q1. generalize (inject_Z k) (inject_Z t) (inject_Z r).
    intros a b0 c Q1. lra. }
  destruct D as (d & Hd & Hdr).
  replace (k - 1)%Z with (k + -1)%Z by lia.
  destruct (Z.eqb_spec r 0) as [->|Hr0].
  - change (inject_Z 0) with 0 in Hdr.
    assert (d == 0) as Hd0.
    { apply Qmult_integral in Hdr as [?|?]; [done|lra]. }
    rewrite Hd0 in Hd.
    destruct (Qlt_le_dec (v + (1 # 2)) (inject_Z k)) as [Hlow|Hhigh].
    + right. f_equal. apply Qfloor_unique; rewrite inject_Z_plus;
        change (inject_Z (-1)) with (-1); lra.
    + left. f_equal. apply Qfloor_unique; [done|lra].
  - assert (R1 : 1 <= inject_Z r).
    { change 1 with (inject_Z 1). rewrite <- Zle_Qle. lia. }
    assert (Dl : (256 # 9007199254740992) <= d).
    { destruct (Qlt_le_dec d (256 # 9007199254740992)); [|done].
      exfalso. revert Hdr R1 Tp T44 q. clear.
      generalize (inject_Z t) (inject_Z r). intros a c Hdr R1 Tp T44 q. nra. }
    assert (Du : d <= 1 - (256 # 9007199254740992)).
    { destruct (Qlt_le_dec (1 - (256 # 9007199254740992)) d); [|done].
      exfalso. revert Hdr R2 Tp T44 q. clear.
      generalize (inject_Z t) (inject_Z r). intros a c Hdr R2 Tp T44 q. nra. }
    f_equal. apply Qfloor_unique; lra.
Qed.

End ScoreError.

Lemma score_in_range_witness :
  ∃ s, Scorer.score 1 2 0 = Some s ∧ (0 ≤ s ≤ 100)%Z.
Proof. apply (score_in_range 1 2 0). by vm_compute. Defined.

Lemma score_vs_exact_witness :
  Scorer.score 1 7 0 = Some (specScore 1 7 0)
  ∨ Scorer.score 1 7 0 = Some (specScore 1 7 0 - 1)%Z.
Proof.
  exact (score_vs_exact 1 7 0 ltac:(by vm_compute) ltac:(by vm_compute)).
Defined.

(** C9. For counters in the range in which a Number holds integers
    exactly: raising the baseline count with the other two counts fixed
    never lowers the score, and raising the limited or the non-baseline
    count with the baseline count fixed never raises it. *)
Theorem C9_score_monotone (b b' l l' n n' : N) :
  ((b ≤ b')%N → (Z.of_N (b' + l + n) < 2 ^ 53)%Z →
   score_le (Scorer.score b l n) (Scorer.score b' l n))
  ∧ ((l ≤ l')%N → (n ≤ n')%N → (Z.of_N (b + l' + n') < 2 ^ 53)%Z →
     score_le (Scorer.score b l' n') (Scorer.score b l n)).
Proof.
  unfold Scorer.score. split.
  - intros Hb Hr.
    destruct (N.eq_dec b 0%N) as [->|Hb0].
    + destruct (N.eq_dec (l + n)%N 0%N) as [Hz|Hnz].
      * assert (l = 0%N ∧ n = 0%N) as [-> ->] by lia.
        destruct (N.eq_dec b' 0%N) as [->|Hb'0].
        -- exists 100%Z, 100%Z. done.
        -- exists 100%Z, 100%Z. split; [done|]. split; [|done].
           rewrite !N.add_0_r. apply score_full. lia.
      * destruct (N.eq_dec b' 0%N) as [->|Hb'0].
        -- exists 0%Z, 0%Z. rewrite score_zero by lia. done.
        -- destruct (score_mono_pos b' (b' + l + n)%N b' (b' + l + n)%N)
             as (s & s' & E & _ & Hs); [lia..|].
           exists 0%Z, s. rewrite score_zero by lia. split; [done|].
           split; [exact E|lia].
    + destruct (score_mono_pos b (b + l + n)%N b' (b' + l + n)%N)
        as (s & s' & E & E' & Hs); [lia..|nia|].
      exists s, s'. split; [done|]. split; [done|lia].
  - intros Hl Hn Hr.
    destruct (N.eq_dec b 0%N) as [->|Hb0].
    + destruct (N.eq_dec (l' + n')%N 0%N) as [Hz|Hnz].
      * assert (l' = 0%N ∧ n' = 0%N ∧ l = 0%N ∧ n = 0%N)
          as (-> & -> & -> & ->) by lia.
        exists 100%Z, 100%Z. done.
      * destruct (N.eq_dec (l + n)%N 0%N) as [Hz|Hnz'].
        -- assert (l = 0%N ∧ n = 0%N) as [-> ->] by lia.
           exists 0%Z, 100%Z. rewrite score_zero by lia. done.
        -- exists 0%Z, 0%Z. rewrite !score_zero by lia. done.
    + destruct (score_mono_pos b (b + l' + n')%N b (b + l + n)%N)
        as (s & s' & E & E' & Hs); [lia..|nia|].
      exists s, s'. split; [done|]. split; [done|lia].
Qed.

Lemma C9_score_monotone_witness :
  score_le (Scorer.score 3 1 0) (Scorer.score 4 1 0)
  ∧ score_le (Scorer.score 3 2 1) (Scorer.score 3 1 0).
Proof.
  split.
  - apply (proj1 (C9_score_monotone 3 4 1 1 0 0)); [lia|reflexivity].
  - apply (proj2 (C9_score_monotone 3 3 1 2 0 1)); [lia|lia|reflexivity].
Defined.

(** * Further properties of the code *)

(** ** The matcher accepts only what the expression describes *)
Section RegexSound.
Import Regex RegexSpec.

Lemma star_sound p k : ∀ rest prev pos caps res,
  star p k prev rest pos caps = Some res →
  ∃ w rest' prev',
    Forall (λ c, p c = true) w ∧ rest = w ++ rest'
    ∧ k (MState prev' rest' (pos + length w) caps) = Some res.
Proof.
  induction rest as [|c tl IH]; intros prev pos caps res H; cbn in H.
  - exists [], [], prev. rewrite Nat.add_0_r. by repeat split.
  - destruct (p c) eqn:Hp.
    + destruct (star p k (Some c) tl (S pos) caps) eqn:E.
      * injection H as <-.
        destruct (IH _ _ _ _ E) as (w & rest' & prev' & Hw & -> & Hk).
        exists (c :: w), rest', prev'. repeat split; [by constructor|].
        cbn. by rewrite <- Nat.add_succ_comm.
      * exists [], (c :: tl), prev. rewrite Nat.add_0_r. by repeat split.
    + exists [], (c :: tl), prev. rewrite Nat.add_0_r. by repeat split.
Qed.

Lemma run_sound r : ∀ st k res,
  run r st k = Some res → ∃ st', Matches r st st' ∧ k st' = Some res.
Proof.
  induction r as [p|p|r1 IH1 r2 IH2|r1 IH1 r2 IH2|i r IH| | | |];
    intros st k res H; cbn in H.
  - destruct (m_rest st) as [|c tl] eqn:E; [done|].
    destruct (p c) eqn:Hp; [|done].
    eexists. split; [|exact H]. cbn. by exists c, tl.
  - apply star_sound in H as (w & rest' & prev' & Hw & E & Hk).
    eexists. split; [|exact Hk]. cbn. by exists w.
  - apply IH1 in H as (st1 & H1 & H).
    apply IH2 in H as (st2 & H2 & H).
    exists st2. split; [|done]. cbn. by exists st1.
  - destruct (run r1 st k) eqn:E.
    + injection H as <-. apply IH1 in E as (st' & H1 & H).
      exists st'. split; [by left|done].
    + apply IH2 in H as (st' & H2 & H).
      exists st'. split; [by right|done].
  - apply IH in H as (st1 & H1 & H).
    eexists. split; [|exact H]. cbn. by exists st1.
  - destruct (xorb _ _) eqn:E; [|done]. by exists st.
  - destruct (Nat.eqb_spec (m_pos st) 0); [|done]. by exists st.
  - destruct (m_rest st) eqn:E; [|done]. by exists st.
  - by exists st.
Qed.

(** What a match consumes is a prefix of what was left, and the offset
    moves by its length. *)
Lemma Matches_advance r : ∀ st st',
  Matches r st st' →
  ∃ w, m_rest st = w ++ m_rest st' ∧ m_pos st' = m_pos st + length w.
Proof.
  induction r as [p|p|r1 IH1 r2 IH2|r1 IH1 r2 IH2|i r IH| | | |];
    intros st st' H; cbn in H.
  - destruct H as (c & tl & E & _ & ->). exists [c]. cbn. split; [done|lia].
  - destruct H as (w & _ & E & Hp & _). by exists w.
  - destruct H as (st1 & H1 & H2).
    apply IH1 in H1 as (w1 & E1 & P1). apply IH2 in H2 as (w2 & E2 & P2).
    exists (w1 ++ w2). rewrite <- app_assoc, <- E2, length_app.
    split; [done|lia].
  - destruct H as [H|H]; [by apply IH1|by apply IH2].
  - destruct H as (st1 & H1 & ->). by apply IH in H1.
  - destruct H as [_ ->]. exists []. cbn. split; [done|lia].
  - destruct H as [_ ->]. exists []. cbn. split; [done|lia].
  - destruct H as [_ ->]. exists []. cbn. split; [done|lia].
  - subst. exists []. cbn. split; [done|lia].
Qed.

Lemma exec_at_sound r prev rest pos m :
  exec_at r prev rest pos = Some m →
  ∃ st' w, Matches r (MState prev rest pos []) st'
        ∧ rest = w ++ m_rest st'
        ∧ m = RMatch pos w (m_caps st').
Proof.
  unfold exec_at. intros H.
  destruct (run r _ Some) as [st'|] eqn:E; [|done].
  injection H as <-.
  apply run_sound in E as (st1 & H1 & [= ->]).
  destruct (Matches_advance _ _ _ H1) as (w & E & P). cbn in E, P.
  exists st', w. repeat split; [done..|].
  f_equal. rewrite P, E. replace (pos + length w - pos) with (length w) by lia.
  by rewrite take_app_length.
Qed.

Lemma scan_sound r : ∀ rest prev pos skip m,
  m ∈ scan r prev rest pos skip →
  ∃ pre rest' prev',
    rest = pre ++ rest' ∧ exec_at r prev' rest' (pos + length pre) = Some m.
Proof.
  assert (Hcons : ∀ c tl pos m,
    (∃ pre rest' prev', tl = pre ++ rest'
        ∧ exec_at r prev' rest' (S pos + length pre) = Some m) →
    ∃ pre rest' prev', c :: tl = pre ++ rest'
        ∧ exec_at r prev' rest' (pos + length pre) = Some m).
  { intros c tl pos m (pre & rest' & prev' & -> & E).
    exists (c :: pre), rest', prev'. split; [done|].
    cbn. by rewrite <- Nat.add_succ_comm. }
  induction rest as [|c tl IH]; intros prev pos skip m H.
  - destruct skip; cbn in H; [|by apply elem_of_nil in H].
    destruct (exec_at r prev [] pos) eqn:E; [|by apply elem_of_nil in H].
    apply elem_of_cons in H as [->|H]; [|by apply elem_of_nil in H].
    exists [], [], prev. rewrite Nat.add_0_r. done.
  - destruct skip; cbn in H.
    + destruct (exec_at r prev (c :: tl) pos) eqn:E.
      * apply elem_of_cons in H as [->|H].
        -- exists [], (c :: tl), prev. rewrite Nat.add_0_r. done.
        -- apply Hcons. by apply IH in H.
      * apply Hcons. by apply IH in H.
    + apply Hcons. by apply IH in H.
Qed.

Lemma matchAll_sound r t m :
  m ∈ matchAll r t →
  ∃ pre w post st' prev',
    t = pre ++ w ++ post
    ∧ Matches r (MState prev' (w ++ post) (length pre) []) st'
    ∧ m_rest st' = post
    ∧ m = RMatch (length pre) w (m_caps st').
Proof.
  intros H. apply scan_sound in H as (pre & rest' & prev' & -> & E).
  apply exec_at_sound in E as (st' & w & HM & -> & ->).
  by exists pre, w, (m_rest st'), st', prev'.
Qed.

End RegexSound.

(** ** The shape of a match *)
Section RegexShapes.
Import Regex RegexSpec.

Lemma lit_codes_match s : ∀ st st',
  Matches (lit_codes s) st st' → consumed st s st'.
Proof.
  induction s as [|c s IH]; intros st st' H.
  - cbn in H. subst. repeat split. cbn. lia.
  - destruct s as [|d s].
    + cbn in H. destruct H as (c' & tl & E & Hc & ->).
      apply N.eqb_eq in Hc as <-. repeat split; cbn; [done|lia].
    + change (lit_codes (c :: d :: s))
        with (Seq (Class (N.eqb c)) (lit_codes (d :: s))) in H.
      destruct H as (st1 & (c' & tl & E & Hc & ->) & H2).
      apply N.eqb_eq in Hc as <-.
      apply IH in H2 as (E2 & P2 & C2). cbn in E2, P2, C2.
      repeat split; cbn; [by rewrite E, E2|lia|done].
Qed.

Lemma alts_match l : ∀ st st',
  l ≠ [] → Matches (alts l) st st' → ∃ s, s ∈ l ∧ consumed st (codes s) st'.
Proof.
  induction l as [|s l IH]; intros st st' Hl H; [done|].
  destruct l as [|s' l].
  - cbn in H. apply lit_codes_match in H. exists s. split; [left|done].
  - change (alts (s :: s' :: l)) with (Alt (lit s) (alts (s' :: l))) in H.
    destruct H as [H|H].
    + apply lit_codes_match in H. exists s. split; [left|done].
    + apply IH in H as (x & Hx & Hc); [|done]. exists x. split; [by right|done].
Qed.

Lemma Seq_match r1 r2 st st' :
  Matches (Seq r1 r2) st st' → ∃ st1, Matches r1 st st1 ∧ Matches r2 st1 st'.
Proof. done. Qed.

Lemma Plus_match p st st' :
  Matches (Plus p) st st' →
  ∃ w, w ≠ [] ∧ Forall (λ c, p c = true) w ∧ consumed st w st'.
Proof.
  intros (st1 & (c & tl & E & Hc & ->) & (w & Hw & E2 & P2 & C2)).
  cbn in E2, P2, C2. exists (c :: w).
  repeat split; cbn; [done|by constructor|by rewrite E, E2|lia|done].
Qed.

Lemma Star_match p st st' :
  Matches (Star p) st st' →
  ∃ w, Forall (λ c, p c = true) w ∧ consumed st w st'.
Proof. intros (w & Hw & E & P & C). by exists w. Qed.

(** A group around an expression that only consumes. *)
Lemma Group_match i r st st' w0 :
  (∀ st1, Matches r st st1 → ∃ w, w0 w ∧ consumed st w st1) →
  Matches (Group i r) st st' →
  ∃ w, w0 w ∧ m_rest st = w ++ m_rest st'
       ∧ m_pos st' = m_pos st + length w
       ∧ m_caps st' = (i, w) :: m_caps st.
Proof.
  intros Hr (st1 & H1 & ->). apply Hr in H1 as (w & Hw & E & P & C).
  exists w. cbn. repeat split; [done..|].
  rewrite P, E, C.
  replace (m_pos st + length w - m_pos st) with (length w) by lia.
  by rewrite take_app_length.
Qed.

(** The shape of a match of the declaration pattern. *)
Lemma propertyRegex_match st st' :
  Matches parser.propertyRegex st st' →
  ∃ name sp1 sp2 val,
    m_rest st = name ++ sp1 ++ [58%N] ++ sp2 ++ val ++ [59%N] ++ m_rest st'
    ∧ name ≠ []
    ∧ Forall (λ c, (isWord c || (c =? 45)%N) = true) name
    ∧ Forall (λ c, isSpace c = true) sp1
    ∧ Forall (λ c, isSpace c = true) sp2
    ∧ val ≠ [] ∧ (59%N ∉ val)
    ∧ m_caps st' = (2, val) :: (1, name) :: m_caps st.
Proof.
  unfold parser.propertyRegex. intros H.
  apply Seq_match in H as (s1 & H1 & H).
  apply Seq_match in H as (s2 & H2 & H).
  apply Seq_match in H as (s3 & H3 & H).
  apply Seq_match in H as (s4 & H4 & H).
  apply Seq_match in H as (s5 & H5 & H6).
  apply (Group_match _ _ _ _
           (λ w, w ≠ [] ∧ Forall (λ c, (isWord c || (c =? 45)%N) = true) w))
    in H1 as (name & (Hn0 & Hn) & E1 & P1 & C1);
    [|intros st1 Hs; apply Plus_match in Hs as (w & ? & ? & ?); by exists w].
  apply Star_match in H2 as (sp1 & Hsp1 & E2 & P2 & C2).
  apply lit_codes_match in H3 as (E3 & P3 & C3).
  apply Star_match in H4 as (sp2 & Hsp2 & E4 & P4 & C4).
  apply (Group_match _ _ _ _
           (λ w, w ≠ [] ∧ Forall (λ c, negb (c =? 59)%N = true) w))
    in H5 as (val & (Hv0 & Hv) & E5 & P5 & C5);
    [|intros st1 Hs; apply Plus_match in Hs as (w & ? & ? & ?); by exists w].
  apply lit_codes_match in H6 as (E6 & P6 & C6).
  exists name, sp1, sp2, val. repeat split; try done.
  - rewrite E1, E2, E3, E4, E5, E6. done.
  - intros Hin. rewrite Forall_forall in Hv. apply Hv in Hin. done.
  - rewrite C6, C5, C4, C3, C2, C1. done.
Qed.

End RegexShapes.

(** ** The CSS scanner *)
Section CSSScanner.
Import Regex RegexSpec.

Lemma matchAll_propertyRegex t m :
  m ∈ matchAll parser.propertyRegex t →
  ∃ pre name sp1 sp2 val post,
    t = pre ++ name ++ sp1 ++ [58%N] ++ sp2 ++ val ++ [59%N] ++ post
    ∧ name ≠ []
    ∧ Forall (λ c, (isWord c || (c =? 45)%N) = true) name
    ∧ Forall (λ c, isSpace c = true) sp1
    ∧ Forall (λ c, isSpace c = true) sp2
    ∧ val ≠ [] ∧ (59%N ∉ val)
    ∧ m = RMatch (length pre)
            (name ++ sp1 ++ [58%N] ++ sp2 ++ val ++ [59%N])
            [(2, val); (1, name)].
Proof.
  intros H.
  apply matchAll_sound in H
    as (pre & w & post & st' & prev' & -> & HM & E & ->).
  apply propertyRegex_match in HM
    as (name & sp1 & sp2 & val & Er & Hn0 & Hn & H1 & H2 & Hv0 & Hv & C).
  cbn in Er, C. rewrite E in Er.
  assert (w = name ++ sp1 ++ [58%N] ++ sp2 ++ val ++ [59%N]) as ->.
  { apply (app_inv_tail post). rewrite Er. by rewrite <- !app_assoc. }
  exists pre, name, sp1, sp2, val, post. rewrite C.
  repeat split; try done. by rewrite <- !app_assoc.
Qed.

End CSSScanner.

(** X1. Every declaration that the CSS scanner reports stands in the text:
    its name is a nonempty run of word characters and hyphens, followed by
    optional white space, a colon, optional white space, a nonempty value
    without semicolon, and a semicolon.  The reported value is that value
    trimmed, and the range and the line are those of the name's offset. *)
Theorem extractCSSProperties_shape (t : text) (document : vscode.TextDocument)
    (p : parser.CSSProperty) :
  p ∈ parser.extractCSSProperties t document →
  ∃ pre sp1 sp2 val post,
    t = pre ++ parser.name p ++ sp1 ++ [58%N] ++ sp2 ++ val ++ [59%N] ++ post
    ∧ parser.name p ≠ []
    ∧ Forall (λ c, (isWord c || (c =? 45)%N) = true) (parser.name p)
    ∧ Forall (λ c, isSpace c = true) sp1
    ∧ Forall (λ c, isSpace c = true) sp2
    ∧ val ≠ [] ∧ (59%N ∉ val)
    ∧ parser.value p = trim val
    ∧ parser.css_range p
      = vscode.mkRange (vscode.positionAt document (length pre))
          (vscode.positionAt document
             (length pre + length (parser.name p)))
    ∧ parser.css_line p
      = vscode.line (vscode.positionAt document (length pre)).
Proof.
  unfold parser.extractCSSProperties. intros H.
  apply list_elem_of_fmap in H as (m & -> & Hm).
  apply matchAll_propertyRegex in Hm
    as (pre & name & sp1 & sp2 & val & post & -> & Hn0 & Hn & H1 & H2
        & Hv0 & Hv & ->).
  exists pre, sp1, sp2, val, post. cbn. done.
Qed.

Lemma extractCSSProperties_shape_witness :
  let t := codes "a { gap : 1rem; }" in
  let document := vscode.document_of t in
  let p := parser.mkCSSProperty (codes "gap") (codes "1rem")
             (vscode.mkRange (vscode.mkPosition 0 4) (vscode.mkPosition 0 7))
             0 in
  ∃ pre sp1 sp2 val post,
    t = pre ++ parser.name p ++ sp1 ++ [58%N] ++ sp2 ++ val ++ [59%N] ++ post
    ∧ parser.name p ≠ []
    ∧ Forall (λ c, (isWord c || (c =? 45)%N) = true) (parser.name p)
    ∧ Forall (λ c, isSpace c = true) sp1
    ∧ Forall (λ c, isSpace c = true) sp2
    ∧ val ≠ [] ∧ (59%N ∉ val)
    ∧ parser.value p = trim val
    ∧ parser.css_range p
      = vscode.mkRange (vscode.positionAt document (length pre))
          (vscode.positionAt document
             (length pre + length (parser.name p)))
    ∧ parser.css_line p
      = vscode.line (vscode.positionAt document (length pre)).
Proof.
  intros t document p. apply extractCSSProperties_shape.
  vm_compute. left.
Defined.

Section ScanBound.
Import Regex RegexSpec.

Variable r : regex.
Variable d : N.
Hypothesis ends_with :
  ∀ prev rest pos m, exec_at r prev rest pos = Some m →
    ∃ w post, whole m = w ++ [d] ∧ rest = whole m ++ post.

Lemma scan_bound : ∀ rest prev pos skip,
  length (scan r prev rest pos skip)
  ≤ length (filter (λ c, c = d) (drop skip rest)).
Proof.
  induction rest as [|c tl IH]; intros prev pos skip.
  - destruct skip; cbn; [|lia].
    destruct (exec_at r prev [] pos) eqn:E; [|cbn; lia].
    apply ends_with in E as (w & post & E1 & E2).
    rewrite E1 in E2. by destruct w.
  - destruct skip; cbn [scan].
    + destruct (exec_at r prev (c :: tl) pos) as [m|] eqn:E.
      * apply ends_with in E as (w & post & E1 & E2).
        cbn [length]. rewrite drop_0, E2.
        assert (Hl : length (whole m) = S (length w))
          by (rewrite E1, length_app; cbn; lia).
        specialize (IH (Some c) (S pos) (length (whole m) - 1)).
        assert (Hd : drop (length (whole m) - 1) tl = post).
        { change tl with (drop 1 (c :: tl)). rewrite E2, drop_drop.
          replace (1 + (length (whole m) - 1)) with (length (whole m)) by lia.
          by rewrite drop_app_length. }
        rewrite Hd in IH.
        assert (Hf : 1 ≤ length (filter (λ c, c = d) (whole m))).
        { rewrite E1, filter_app, length_app.
          rewrite (filter_cons_True _ d []) by done. cbn. lia. }
        rewrite filter_app, length_app. lia.
      * specialize (IH (Some c) (S pos) 0). rewrite drop_0 in *.
        destruct (decide (c = d)).
        -- rewrite filter_cons_True by done. cbn. lia.
        -- rewrite filter_cons_False by done. lia.
    + apply IH.
Qed.

End ScanBound.

(** X2. The CSS scanner reports at most one declaration per semicolon of
    the text; a text without semicolon yields none. *)
Theorem extractCSSProperties_bound (t : text) (document : vscode.TextDocument) :
  length (parser.extractCSSProperties t document)
  ≤ length (filter (λ c, c = 59%N) t).
Proof.
  unfold parser.extractCSSProperties, Regex.matchAll.
  rewrite length_map.
  rewrite <- (drop_0 t) at 2. apply scan_bound.
  intros prev rest pos m E.
  apply exec_at_sound in E as (st' & w & HM & -> & ->).
  apply propertyRegex_match in HM
    as (name & sp1 & sp2 & val & Er & _ & _ & _ & _ & _ & _ & _).
  cbn in Er.
  exists (name ++ sp1 ++ [58%N] ++ sp2 ++ val), (Regex.m_rest st').
  cbn [Regex.whole]. split; [|done].
  apply (app_inv_tail (Regex.m_rest st')). rewrite Er.
  by rewrite <- !app_assoc.
Qed.

(** ** What the JS passes hand to the catalogs *)
Section JSIdentifiers.
Import Regex RegexSpec.

Lemma groupless_caps r : ∀ st st',
  groupless r = true → Matches r st st' → m_caps st' = m_caps st.
Proof.
  induction r as [p|p|r1 IH1 r2 IH2|r1 IH1 r2 IH2|i r IH| | | |];
    intros st st' Hg H; cbn in Hg, H; try done.
  - by destruct H as (c & tl & _ & _ & ->).
  - by destruct H as (w & _ & _ & _ & C).
  - apply andb_true_iff in Hg as [Hg1 Hg2].
    destruct H as (st1 & H1 & H2).
    rewrite (IH2 _ _ Hg2 H2). by apply IH1.
  - apply andb_true_iff in Hg as [Hg1 Hg2].
    destruct H as [H|H]; [by apply IH1|by apply IH2].
  - by destruct H as [_ ->].
  - by destruct H as [_ ->].
  - by destruct H as [_ ->].
  - by subst.
Qed.

Lemma Group_alts_caps i l st st' :
  l ≠ [] → Matches (Group i (alts l)) st st' →
  ∃ s, s ∈ l ∧ m_caps st' = (i, codes s) :: m_caps st.
Proof.
  intros Hl H.
  apply (Group_match _ _ _ _ (λ w, ∃ s, s ∈ l ∧ w = codes s)) in H
    as (w & (s & Hs & ->) & _ & _ & C); [by exists s|].
  intros st1 H1. apply alts_match in H1 as (s & Hs & Hc); [|done].
  exists (codes s). split; [by exists s|done].
Qed.

(** A pattern of the form [before(a|b|...)after]. *)
Lemma caps_around i l r1 r3 st st' :
  l ≠ [] → groupless r1 = true → groupless r3 = true →
  Matches (Seq r1 (Seq (Group i (alts l)) r3)) st st' →
  ∃ s, s ∈ l ∧ m_caps st' = (i, codes s) :: m_caps st.
Proof.
  intros Hl G1 G3 H.
  apply Seq_match in H as (s1 & H1 & H).
  apply Seq_match in H as (s2 & H2 & H3).
  apply Group_alts_caps in H2 as (s & Hs & C2); [|done].
  exists s. split; [done|].
  by rewrite (groupless_caps _ _ _ G3 H3), C2, (groupless_caps _ _ _ G1 H1).
Qed.

(** A pattern of the form [before(a|b|...)]. *)
Lemma caps_after i l r1 st st' :
  l ≠ [] → groupless r1 = true →
  Matches (Seq r1 (Group i (alts l))) st st' →
  ∃ s, s ∈ l ∧ m_caps st' = (i, codes s) :: m_caps st.
Proof.
  intros Hl G1 H.
  apply Seq_match in H as (s1 & H1 & H2).
  apply Group_alts_caps in H2 as (s & Hs & C2); [|done].
  exists s. split; [done|].
  by rewrite C2, (groupless_caps _ _ _ G1 H1).
Qed.

Lemma codes_nil s : codes s = [] → s = ""%string.
Proof. by destruct s. Qed.

Lemma yields_groupless r (P : text → Prop) :
  groupless r = true → P (codes "async") → yields r P.
Proof.
  intros G HP content m H.
  apply matchAll_sound in H
    as (pre & w & post & st' & prev' & -> & HM & E & ->).
  apply groupless_caps in HM; [|done]. cbn in HM.
  unfold group1_or_async, group. cbn. by rewrite HM.
Qed.

Lemma yields_caps pattern l (P : text → Prop) :
  (∀ st st', Matches pattern st st' →
     ∃ s, s ∈ l ∧ m_caps st' = (1, codes s) :: m_caps st) →
  Forall (λ s, s ≠ ""%string ∧ P (codes s)) l →
  yields pattern P.
Proof.
  intros Hc Hne content m H.
  apply matchAll_sound in H
    as (pre & w & post & st' & prev' & -> & HM & E & ->).
  apply Hc in HM as (s & Hs & C). cbn in C.
  unfold group1_or_async, group. cbn. rewrite C. cbn.
  rewrite Forall_forall in Hne. apply Hne in Hs as [Hs HP].
  destruct (codes s) eqn:Ec; [by apply codes_nil in Ec|done].
Qed.

Lemma yields_around l r1 r3 (P : text → Prop) :
  l ≠ [] → Forall (λ s, s ≠ ""%string ∧ P (codes s)) l →
  groupless r1 = true → groupless r3 = true →
  yields (Seq r1 (Seq (Group 1 (alts l)) r3)) P.
Proof.
  intros Hl Hne G1 G3. apply (yields_caps _ l); [|done].
  intros st st'. by apply caps_around.
Qed.

Lemma yields_after l r1 (P : text → Prop) :
  l ≠ [] → Forall (λ s, s ≠ ""%string ∧ P (codes s)) l →
  groupless r1 = true →
  yields (Seq r1 (Group 1 (alts l))) P.
Proof.
  intros Hl Hne G1. apply (yields_caps _ l); [|done].
  intros st st'. by apply caps_after.
Qed.

End JSIdentifiers.

(** ** JavaScript usages in the command-line analyzer and the plugins *)
Section JSOnlyBaseline.
Import Regex RegexSpec.

Local Open Scope string_scope.

Lemma analyzer_patterns_yield :
  Forall
    (λ p, yields p (λ id, baselineOrAbsent analyzer.baselineData_js id = true))
    analyzer.patterns.
Proof.
  unfold analyzer.patterns.
  repeat first [apply Forall_nil_2 | apply Forall_cons_2].
  - apply (yields_around ["fetch"; "localStorage"; "crypto"]); yield_side.
  - apply (yields_around
             ["IntersectionObserver"; "ResizeObserver"; "MutationObserver"]);
      yield_side.
  - apply (yields_around ["Promise"]); yield_side.
  - apply yields_groupless; yield_side.
  - apply yields_groupless; yield_side.
  - apply (yields_after ["share"]); yield_side.
  - apply (yields_after ["startViewTransition"]); yield_side.
Qed.

Lemma webpack_patterns_yield :
  Forall
    (λ p, yields p (λ id, baselineOrAbsent webpack.baselineData_js id = true))
    webpack.patterns.
Proof.
  unfold webpack.patterns.
  repeat first [apply Forall_nil_2 | apply Forall_cons_2].
  - apply (yields_around ["fetch"; "IntersectionObserver"; "Promise"]);
      yield_side.
  - apply yields_groupless; yield_side.
  - apply (yields_after ["startViewTransition"]); yield_side.
Qed.

Lemma bundler_patterns_yield :
  Forall
    (λ p, yields p (λ id, baselineOrAbsent bundler.baselineData_js id = true))
    bundler.patterns.
Proof.
  unfold bundler.patterns.
  repeat first [apply Forall_nil_2 | apply Forall_cons_2].
  - apply (yields_around
             ["fetch"; "IntersectionObserver"; "ResizeObserver"; "Promise"]);
      yield_side.
  - apply yields_groupless; yield_side.
  - apply (yields_after ["share"]); yield_side.
  - apply (yields_after ["startViewTransition"]); yield_side.
Qed.

Local Close Scope string_scope.

Lemma elem_of_concat {A} (x : A) (ls : list (list A)) :
  x ∈ concat ls ↔ ∃ l, x ∈ l ∧ l ∈ ls.
Proof.
  rewrite list_elem_of_In, in_concat. split.
  - intros (l & Hl & Hx). exists l. by rewrite !list_elem_of_In.
  - intros (l & Hx & Hl). exists l. by rewrite <- !list_elem_of_In.
Qed.

Lemma fold_left_invariant {A B} (f : A → B → A) (I : A → Prop) l :
  (∀ a b, b ∈ l → I a → I (f a b)) → ∀ a, I a → I (fold_left f l a).
Proof.
  induction l as [|b l IH]; intros Hf a Ha; [done|].
  cbn. apply IH.
  - intros a' b' Hb'. apply Hf. by right.
  - apply Hf; [left|done].
Qed.

Lemma classify_baselineOrAbsent data st identifier :
  baselineOrAbsent data identifier = true →
  limitedCount (analyzer.classify data st identifier).2 = limitedCount st.2
  ∧ nonBaselineCount (analyzer.classify data st identifier).2
    = nonBaselineCount st.2.
Proof.
  unfold baselineOrAbsent, analyzer.classify. cbn zeta.
  destruct (JSObject.truthy _); [|done]. cbn [negb orb].
  intros Hb. cbn [snd]. unfold JSObject.bump. by rewrite Hb.
Qed.

Lemma known_baseline data identifier v :
  baselineOrAbsent data identifier = true →
  known data identifier = Some v → v = JSObject.VString (codes "baseline").
Proof.
  unfold baselineOrAbsent, known. cbn zeta.
  destruct (JSObject.get data identifier) as [v'|]; [|done].
  destruct (JSObject.truthy (Some v')); [|done]. cbn [negb orb].
  intros Hb [= <-]. destruct v' as [s|]; [|done]. cbn in Hb.
  apply bool_decide_eq_true in Hb. by subst.
Qed.

Lemma jsUsages_baseline patterns data source filename f :
  Forall (λ p, yields p (λ id, baselineOrAbsent data id = true)) patterns →
  f ∈ jsUsages patterns data source filename →
  status f = JSObject.VString (codes "baseline").
Proof.
  intros Hp Hf. unfold jsUsages in Hf.
  apply elem_of_concat in Hf as (l & Hf & Hl).
  apply list_elem_of_fmap in Hl as (p & -> & Hin).
  rewrite Forall_forall in Hp. specialize (Hp p Hin).
  apply list_elem_of_omap in Hf as (m & Hm & Hf).
  cbn zeta in Hf. specialize (Hp source m Hm). cbn beta in Hp.
  destruct (known data (group1_or_async m)) as [v|] eqn:Ek; [|done].
  injection Hf as <-. cbn. by apply (known_baseline data (group1_or_async m)).
Qed.

(** One pass of [analyzeJSFile], that of the pattern [p], leaves the two
    counters at zero. *)
Lemma analyzer_js_pass p content st :
  p ∈ analyzer.patterns →
  limitedCount st.2 = 0%N ∧ nonBaselineCount st.2 = 0%N →
  let st' :=
    fold_left
      (λ st m,
         analyzer.classify analyzer.baselineData_js st
           (analyzer.group1_or_async m))
      (matchAll p content) st in
  limitedCount st'.2 = 0%N ∧ nonBaselineCount st'.2 = 0%N.
Proof.
  intros Hin Hst. cbn zeta.
  pose proof analyzer_patterns_yield as Hp. rewrite Forall_forall in Hp.
  apply (fold_left_invariant _
           (λ st, limitedCount st.2 = 0%N ∧ nonBaselineCount st.2 = 0%N));
    [|done].
  intros st' m Hm [H1 H2].
  destruct (classify_baselineOrAbsent analyzer.baselineData_js st'
              (analyzer.group1_or_async m)) as [E1 E2].
  { apply (Hp p Hin content m Hm). }
  by rewrite E1, E2.
Qed.

End JSOnlyBaseline.

(** X7. Whatever a JavaScript source contains, [analyzeJSFile] counts no
    limited and no non-baseline usage: the two catalog entries that are not
    baseline are keyed by dotted paths, and the patterns hand over the last
    segment only. *)
Theorem analyzeJSFile_only_baseline (filePath content : text) :
  limitedCount (analyzer.counts (analyzer.analyzeJSFile filePath content)) = 0%N
  ∧ nonBaselineCount (analyzer.counts (analyzer.analyzeJSFile filePath content))
    = 0%N.
Proof.
  unfold analyzer.analyzeJSFile. cbn [analyzer.counts].
  apply (fold_left_invariant _
           (λ st, limitedCount st.2 = 0%N ∧ nonBaselineCount st.2 = 0%N));
    [|done].
  intros st p Hin Hst. by apply analyzer_js_pass.
Qed.

(** X12. Every JavaScript usage that the webpack plugin or the Vite and
    Rollup plugins record has the status ['baseline']: the catalog entries
    that are limited are keyed by dotted paths, and the patterns hand over
    the last segment only. *)
Theorem plugins_js_only_baseline (source filename : text) (f : FeatureUsage) :
  f ∈ webpack.analyzeJavaScript source filename
  ∨ f ∈ jsUsages bundler.patterns bundler.baselineData_js source filename →
  status f = JSObject.VString (codes "baseline").
Proof.
  intros [H|H].
  - by apply (jsUsages_baseline _ _ _ _ _ webpack_patterns_yield) in H.
  - by apply (jsUsages_baseline _ _ _ _ _ bundler_patterns_yield) in H.
Qed.

Lemma plugins_js_only_baseline_witness :
  let source := codes "fetch(u); navigator.share(d)" in
  let f := mkFeatureUsage (codes "fetch")
             (JSObject.VString (codes "baseline")) (codes "a.js") in
  f ∈ jsUsages bundler.patterns bundler.baselineData_js source (codes "a.js")
  ∧ status f = JSObject.VString (codes "baseline").
Proof.
  intros source f.
  assert (H : f ∈ jsUsages bundler.patterns bundler.baselineData_js source
                    (codes "a.js")) by (vm_compute; left).
  split; [exact H|].
  apply (plugins_js_only_baseline source (codes "a.js") f). by right.
Defined.

(** X8. A run of the command-line analyzer that scans no style sheet (the
    [jsOnly] option, or an empty list of CSS files) reports no limited and
    no non-baseline usage, whatever the JavaScript files contain; its score
    is 100 as long as the baseline counter stays below 2^53. *)
Theorem analyze_js_only_scores_100 (cssFileList jsFileList : list analyzer.File)
    (options : analyzer.AnalyzeOptions) :
  analyzer.jsOnly options = true ∨ cssFileList = [] →
  let r := analyzer.analyze cssFileList jsFileList options in
  limitedCount (analyzer.totals r) = 0%N
  ∧ nonBaselineCount (analyzer.totals r) = 0%N
  ∧ ((Z.of_N (baselineCount (analyzer.totals r)) < 2 ^ 53)%Z →
     analyzer.baselineScore r = Some 100%Z).
Proof.
  intros Hjs r.
  assert (Hz : limitedCount (analyzer.totals r) = 0%N
               ∧ nonBaselineCount (analyzer.totals r) = 0%N).
  { subst r. unfold analyzer.analyze. cbn [analyzer.totals].
    set (st0 := if analyzer.jsOnly options then ([], noCounts)
                else fold_left (analyzer.visit analyzer.analyzeCSSFile)
                       cssFileList ([], noCounts)).
    assert (E0 : st0 = ([], noCounts)).
    { subst st0.
      destruct Hjs as [->| ->]; [done|by destruct (analyzer.jsOnly _)]. }
    rewrite E0. destruct (analyzer.cssOnly options); [done|].
    apply (fold_left_invariant _
             (λ st, limitedCount st.2 = 0%N ∧ nonBaselineCount st.2 = 0%N));
      [|done].
    intros st f _ [H1 H2]. unfold analyzer.visit, analyzer.accumulate.
      cbn [snd limitedCount nonBaselineCount].
    assert (limitedCount
              (analyzer.counts
                 (analyzer.analyzeJSFile (analyzer.path f)
                    (analyzer.content f))) = 0%N
            ∧ nonBaselineCount
                (analyzer.counts
                   (analyzer.analyzeJSFile (analyzer.path f)
                      (analyzer.content f))) = 0%N) as [E1 E2].
    { unfold analyzer.analyzeJSFile. cbn [analyzer.counts].
      apply (fold_left_invariant _
               (λ st, limitedCount st.2 = 0%N ∧ nonBaselineCount st.2 = 0%N));
        [|done].
      intros st' p Hin Hst. by apply analyzer_js_pass. }
    rewrite H1, H2, E1, E2. done. }
  destruct Hz as [Hl Hn]. repeat split; [done..|].
  intros Hb.
  assert (Es : analyzer.baselineScore r = analyzer.scoreOf (analyzer.totals r)).
  { subst r. unfold analyzer.analyze. done. }
  rewrite Es. unfold analyzer.scoreOf. rewrite Hl, Hn, !N.add_0_r.
  destruct (N.eq_dec (baselineCount (analyzer.totals r)) 0%N) as [->|Hnz];
    [done|apply score_full; lia].
Qed.

Lemma analyze_js_only_scores_100_witness :
  let js :=
    [analyzer.mkFile (codes "a.js")
       (codes "fetch(u); navigator.share(d)")] in
  let r := analyzer.analyze [] js (analyzer.mkAnalyzeOptions false false) in
  limitedCount (analyzer.totals r) = 0%N
  ∧ nonBaselineCount (analyzer.totals r) = 0%N
  ∧ analyzer.baselineScore r = Some 100%Z.
Proof.
  intros js r.
  destruct (analyze_js_only_scores_100 [] js
              (analyzer.mkAnalyzeOptions false false) (or_intror eq_refl))
    as (H1 & H2 & H3).
  split; [exact H1|]. split; [exact H2|]. apply H3. by vm_compute.
Defined.

(** ** The counters of a style sheet *)
Section CSSCounts.

Lemma literal_lookup props k s :
  JSObject.literal props !! k = Some s →
  ∃ k0 v0, (k0, v0) ∈ props ∧ k = codes k0 ∧ s = codes v0.
Proof.
  unfold JSObject.literal. intros H.
  apply elem_of_list_to_map_2 in H.
  apply list_elem_of_fmap in H as ([k0 v0] & [= -> ->] & Hin).
  by exists k0, v0.
Qed.

Lemma analyzer_css_values k s :
  analyzer.baselineData_css !! k = Some s →
  (s = codes "baseline" ∨ s = codes "limited")
  ∧ JSObject.inherited k = false.
Proof.
  intros H. apply literal_lookup in H as (k0 & v0 & Hin & -> & ->).
  repeat (apply elem_of_cons in Hin as [[= -> ->]|Hin];
          [split; [first [by left|by right]|by vm_compute]|]).
  by apply elem_of_nil in Hin.
Qed.

Lemma classify_status data st n v :
  JSObject.get data n = Some v → JSObject.truthy (Some v) = true →
  (analyzer.classify data st n).2 = JSObject.bump (Some v) st.2.
Proof. unfold analyzer.classify. cbn zeta. by intros -> ->. Qed.

Lemma bump_baseline c :
  JSObject.bump (Some (JSObject.VString (codes "baseline"))) c
  = mkCounts (baselineCount c + 1) (limitedCount c) (nonBaselineCount c).
Proof. reflexivity. Qed.

Lemma bump_limited c :
  JSObject.bump (Some (JSObject.VString (codes "limited"))) c
  = mkCounts (baselineCount c) (limitedCount c + 1) (nonBaselineCount c).
Proof. reflexivity. Qed.

Lemma classify_css st n :
  (analyzer.classify analyzer.baselineData_css st n).2
  = mkCounts
      (baselineCount st.2
       + if decide (analyzer.baselineData_css !! n = Some (codes "baseline"))
         then 1 else 0)
      (limitedCount st.2
       + if decide (analyzer.baselineData_css !! n = Some (codes "limited"))
         then 1 else 0)
      (nonBaselineCount st.2
       + if decide (JSObject.inherited n = true) then 1 else 0)%N.
Proof.
  destruct (analyzer.baselineData_css !! n) as [s|] eqn:E.
  - destruct (analyzer_css_values _ _ E) as [Hs Hi].
    rewrite (classify_status _ _ _ (JSObject.VString s));
      [|by unfold JSObject.get; rewrite E|by destruct Hs as [->| ->]].
    rewrite Hi. destruct st as [fs []].
    destruct Hs as [->| ->]; rewrite ?bump_baseline, ?bump_limited;
      repeat case_decide;
      try (exfalso; congruence);
      try (exfalso;
           match goal with
           | H : Some _ = Some _ |- _ => vm_compute in H; discriminate H
           end);
      cbn; f_equal; lia.
  - unfold analyzer.classify, JSObject.get. rewrite E. cbn zeta.
    destruct (JSObject.inherited n); destruct st as [fs []];
      repeat case_decide; try discriminate; cbn; f_equal; lia.
Qed.

Lemma fold_classify_css names : ∀ st,
  (fold_left (analyzer.classify analyzer.baselineData_css) names st).2
  = mkCounts
      (baselineCount st.2
       + N.of_nat (length (filter
           (λ n, analyzer.baselineData_css !! n = Some (codes "baseline"))
           names)))
      (limitedCount st.2
       + N.of_nat (length (filter
           (λ n, analyzer.baselineData_css !! n = Some (codes "limited"))
           names)))
      (nonBaselineCount st.2
       + N.of_nat (length (filter (λ n, JSObject.inherited n = true) names)))%N.
Proof.
  induction names as [|n names IH]; intros st.
  - cbn. destruct st as [fs []]. cbn. f_equal; lia.
  - cbn [fold_left]. rewrite IH, classify_css.
    cbn [baselineCount limitedCount nonBaselineCount].
    rewrite !filter_cons.
    repeat destruct (decide _); cbn [length]; f_equal; lia.
Qed.

End CSSCounts.

(** X6. The command-line analyzer counts a style sheet declaration by
    declaration: its three counters are the numbers of scanned declarations
    whose name the CSS catalog lists as baseline, lists as limited, and,
    the catalog being an object literal, names a member that every object
    inherits (such as [constructor]).  A declaration of any other name is
    counted nowhere. *)
Theorem analyzeCSSFile_counts (filePath content : text)
    (document : vscode.TextDocument) :
  let names :=
    map parser.name (parser.extractCSSProperties content document) in
  analyzer.counts (analyzer.analyzeCSSFile filePath content)
  = mkCounts
      (N.of_nat (length (filter
         (λ n, analyzer.baselineData_css !! n = Some (codes "baseline"))
         names)))
      (N.of_nat (length (filter
         (λ n, analyzer.baselineData_css !! n = Some (codes "limited"))
         names)))
      (N.of_nat (length (filter (λ n, JSObject.inherited n = true) names))).
Proof.
  intros names. unfold analyzer.analyzeCSSFile. cbn [analyzer.counts].
  assert (En : names
               = map (λ m, default [] (Regex.group 1 m))
                   (Regex.matchAll parser.propertyRegex content)).
  { subst names. unfold parser.extractCSSProperties.
    rewrite <- list_fmap_compose. done. }
  rewrite En. clear En names.
  transitivity
    (fold_left (analyzer.classify analyzer.baselineData_css)
       (map (λ m, default [] (Regex.group 1 m))
          (Regex.matchAll parser.propertyRegex content))
       ([], noCounts)).2.
  - f_equal. generalize (([], noCounts) : list text * Counts).
    induction (Regex.matchAll parser.propertyRegex content) as [|m l IH];
      intros st; [done|]. cbn [fold_left map]. apply IH.
  - rewrite fold_classify_css. cbn [snd noCounts baselineCount limitedCount
      nonBaselineCount]. by rewrite !N.add_0_l.
Qed.

(** ** Texts that the matcher accepts *)
Section RegexForward.
Import Regex RegexSpec.

Lemma prev_after_cons prev c w :
  prev_after prev (c :: w) = prev_after (Some c) w.
Proof.
  unfold prev_after. destruct w as [|d w]; [done|].
  rewrite last_cons. by destruct (last (d :: w)).
Qed.

Lemma star_take p k w : ∀ prev pos caps rest res,
  Forall (λ c, p c = true) w → stops p rest →
  k (MState (prev_after prev w) rest (pos + length w) caps) = Some res →
  star p k prev (w ++ rest) pos caps = Some res.
Proof.
  induction w as [|c w IH]; intros prev pos caps rest res Hw Hs Hk.
  - change (prev_after prev []) with prev in Hk.
    cbn [length] in Hk. rewrite Nat.add_0_r in Hk.
    destruct rest as [|d tl]; cbn; [done|]. cbn in Hs. by rewrite Hs.
  - apply Forall_cons in Hw as [Hc Hw]. cbn. rewrite Hc.
    rewrite (IH (Some c) (S pos) caps rest res); [done..|].
    rewrite <- (prev_after_cons prev). cbn [length] in Hk.
    by replace (S pos + length w) with (pos + S (length w)) by lia.
Qed.

Lemma run_Plus_take p k w prev pos caps rest res :
  w ≠ [] → Forall (λ c, p c = true) w → stops p rest →
  k (MState (prev_after prev w) rest (pos + length w) caps) = Some res →
  run (Plus p) (MState prev (w ++ rest) pos caps) k = Some res.
Proof.
  intros Hne Hw Hs Hk. destruct w as [|c w]; [done|].
  apply Forall_cons in Hw as [Hc Hw]. cbn. rewrite Hc.
  apply star_take; [done..|].
  rewrite <- (prev_after_cons prev). cbn [length] in Hk.
  by replace (S pos + length w) with (pos + S (length w)) by lia.
Qed.

Lemma run_Star_take p k w prev pos caps rest res :
  Forall (λ c, p c = true) w → stops p rest →
  k (MState (prev_after prev w) rest (pos + length w) caps) = Some res →
  run (Star p) (MState prev (w ++ rest) pos caps) k = Some res.
Proof. intros. cbn. by apply star_take. Qed.

Lemma run_lit_codes s : ∀ k prev pos caps rest,
  run (lit_codes s) (MState prev (s ++ rest) pos caps) k
  = k (MState (prev_after prev s) rest (pos + length s) caps).
Proof.
  induction s as [|c s IH]; intros k prev pos caps rest.
  - cbn. by rewrite Nat.add_0_r.
  - destruct s as [|d s].
    + cbn. rewrite N.eqb_refl. do 2 f_equal. lia.
    + change (lit_codes (c :: d :: s))
        with (Seq (Class (N.eqb c)) (lit_codes (d :: s))).
      change ((c :: d :: s) ++ rest) with (c :: ((d :: s) ++ rest)).
      cbn [run m_rest m_pos m_caps m_prev]. rewrite N.eqb_refl.
      rewrite IH, (prev_after_cons prev). do 2 f_equal. cbn [length]. lia.
Qed.

End RegexForward.

(** ** A declaration is found *)
Section CSSRoundTrip.
Import Regex RegexSpec.

Lemma isSpace_not_name c :
  isSpace c = true → (isWord c || (c =? 45)%N) = false.
Proof.
  unfold isSpace, isWord.
  rewrite !orb_true_iff, !andb_true_iff, !orb_false_iff, !andb_false_iff,
    !N.leb_le, !N.eqb_eq, !N.leb_gt, !N.eqb_neq.
  lia.
Qed.

Lemma stops_app p w rest :
  Forall (λ c, p c = false) w → stops p rest → stops p (w ++ rest).
Proof.
  intros Hw Hr. destruct w as [|c w]; [done|].
  by apply Forall_cons in Hw as [? _].
Qed.

Lemma take_prefix (w rest : text) a b :
  b = a + length w → take (b - a) (w ++ rest) = w.
Proof.
  intros ->. replace (a + length w - a) with (length w) by lia.
  by rewrite take_app_length.
Qed.

Lemma run_declaration prev pos caps name sp1 sp2 val post :
  name ≠ [] → Forall (λ c, (isWord c || (c =? 45)%N) = true) name →
  Forall (λ c, isSpace c = true) sp1 →
  Forall (λ c, isSpace c = true) sp2 →
  val ≠ [] → (59%N ∉ val) → stops isSpace val →
  ∃ prev',
    run parser.propertyRegex
      (MState prev
         (name ++ sp1 ++ [58%N] ++ sp2 ++ val ++ [59%N] ++ post) pos caps)
      Some
    = Some (MState prev' post
              (pos + length (name ++ sp1 ++ [58%N] ++ sp2 ++ val ++ [59%N]))
              ((2, val) :: (1, name) :: caps)).
Proof.
  intros Hn0 Hn H1 H2 Hv0 Hv Hvs.
  eexists. unfold parser.propertyRegex.
  cbn [run]. apply run_Plus_take; [done..| |].
  { apply stops_app; [|done].
    eapply Forall_impl; [exact H1|]. intros c. apply isSpace_not_name. }
  cbn [m_rest m_pos m_caps m_prev].
  apply run_Star_take; [done|done|].
  change (lit ":") with (lit_codes [58%N]).
  change ([58%N] ++ sp2 ++ val ++ [59%N] ++ post)
    with ([58%N] ++ (sp2 ++ val ++ [59%N] ++ post)).
  rewrite run_lit_codes.
  cbn [run]. apply run_Star_take; [done| |].
  { destruct val as [|c val]; [done|]. exact Hvs. }
  cbn [m_rest m_pos m_caps m_prev].
  apply run_Plus_take; [done| |done|].
  { apply Forall_forall. intros c Hc.
    destruct (N.eqb_spec c 59) as [->|]; [done|done]. }
  cbn [m_rest m_pos m_caps m_prev].
  change (lit ";") with (lit_codes [59%N]).
  rewrite run_lit_codes.
  rewrite take_prefix by done.
  rewrite take_prefix by done.
  f_equal. f_equal. fold Nat.add. rewrite !length_app. lia.
Qed.

End CSSRoundTrip.

Section CSSRoundTrip2.
Import Regex RegexSpec.

Lemma scan_skip_all r :
  (∀ prev pos, exec_at r prev [] pos = None) →
  ∀ rest prev pos, scan r prev rest pos (length rest) = [].
Proof.
  intros He. induction rest as [|c tl IH]; intros prev pos; cbn.
  - by rewrite He.
  - apply IH.
Qed.

Lemma matchAll_declaration name sp1 sp2 val post :
  name ≠ [] → Forall (λ c, (isWord c || (c =? 45)%N) = true) name →
  Forall (λ c, isSpace c = true) sp1 →
  Forall (λ c, isSpace c = true) sp2 →
  val ≠ [] → (59%N ∉ val) → stops isSpace val →
  ∃ more,
    matchAll parser.propertyRegex
      (name ++ sp1 ++ [58%N] ++ sp2 ++ val ++ [59%N] ++ post)
    = RMatch 0 (name ++ sp1 ++ [58%N] ++ sp2 ++ val ++ [59%N])
        [(2, val); (1, name)] :: more
    ∧ (post = [] → more = []).
Proof.
  intros Hn0 Hn H1 H2 Hv0 Hv Hvs.
  destruct (run_declaration None 0 [] name sp1 sp2 val post) as [prev' Hr];
    [done..|].
  set (decl := name ++ sp1 ++ [58%N] ++ sp2 ++ val ++ [59%N]) in *.
  assert (Et : name ++ sp1 ++ [58%N] ++ sp2 ++ val ++ [59%N] ++ post
               = decl ++ post) by (subst decl; by rewrite <- !app_assoc).
  rewrite Et in *.
  assert (Ex : exec_at parser.propertyRegex None (decl ++ post) 0
               = Some (RMatch 0 decl [(2, val); (1, name)])).
  { unfold exec_at. rewrite Hr. cbn [m_pos m_caps]. do 2 f_equal.
    by apply take_prefix. }
  unfold matchAll.
  destruct decl as [|c tl] eqn:Ed.
  { subst decl. by destruct name. }
  change ((c :: tl) ++ post) with (c :: (tl ++ post)) in *.
  cbn [scan]. rewrite Ex. eexists. split; [reflexivity|].
  intros ->. rewrite app_nil_r. cbn [whole length].
  replace (S (length tl) - 1) with (length tl) by lia.
  by apply scan_skip_all.
Qed.

End CSSRoundTrip2.

(** X3. A text that begins with a declaration (a nonempty name of word
    characters and hyphens, optional white space, a colon, optional white
    space, a nonempty value without semicolon that does not begin with
    white space, and a semicolon) makes the CSS scanner report that
    declaration first, with the value trimmed; when nothing follows the
    semicolon it is the only one reported. *)
Theorem extractCSSProperties_finds_declaration
    (document : vscode.TextDocument) (name sp1 sp2 val post : text) :
  name ≠ [] → Forall (λ c, (isWord c || (c =? 45)%N) = true) name →
  Forall (λ c, isSpace c = true) sp1 →
  Forall (λ c, isSpace c = true) sp2 →
  val ≠ [] → (59%N ∉ val) → RegexSpec.stops isSpace val →
  ∃ more,
    parser.extractCSSProperties
      (name ++ sp1 ++ [58%N] ++ sp2 ++ val ++ [59%N] ++ post) document
    = parser.mkCSSProperty name (trim val)
        (vscode.mkRange (vscode.positionAt document 0)
           (vscode.positionAt document (length name)))
        (vscode.line (vscode.positionAt document 0))
      :: more
    ∧ (post = [] → more = []).
Proof.
  intros Hn0 Hn H1 H2 Hv0 Hv Hvs.
  destruct (matchAll_declaration name sp1 sp2 val post) as (more & E & Hp);
    [done..|].
  unfold parser.extractCSSProperties. rewrite E. cbn [map].
  eexists. split; [reflexivity|].
  intros Hpost. by rewrite (Hp Hpost).
Qed.

Lemma extractCSSProperties_finds_declaration_witness :
  let name := codes "gap" in
  let val := codes "1rem " in
  let post := codes " }" in
  let t := name ++ codes " " ++ [58%N] ++ codes " " ++ val ++ [59%N] ++ post in
  let document := vscode.document_of t in
  ∃ more,
    parser.extractCSSProperties t document
    = parser.mkCSSProperty name (trim val)
        (vscode.mkRange (vscode.positionAt document 0)
           (vscode.positionAt document (length name)))
        (vscode.line (vscode.positionAt document 0))
      :: more
    ∧ (post = [] → more = []).
Proof.
  intros name val post t document.
  apply (extractCSSProperties_finds_declaration document name (codes " ")
           (codes " ") val post);
    [ done
    | repeat first [apply Forall_nil_2 | apply Forall_cons_2; [reflexivity|]]
    | repeat first [apply Forall_nil_2 | apply Forall_cons_2; [reflexivity|]]
    | repeat first [apply Forall_nil_2 | apply Forall_cons_2; [reflexivity|]]
    | done
    | intros H; vm_compute in H;
      repeat (apply elem_of_cons in H as [H|H]; [discriminate H|]);
      by apply elem_of_nil in H
    | reflexivity ].
Defined.

(** ** The dashboard's statistics *)
Section DashboardBounds.
Import baselineData parser dashboard.

Variable dataProvider : BaselineDataProvider.

Lemma countCSS_total properties : ∀ c,
  (total (countCSS dataProvider properties c)
   ≤ total c + N.of_nat (length properties))%N.
Proof.
  unfold countCSS.
  induction properties as [|p properties IH]; intros c; cbn [fold_left length].
  - lia.
  - etransitivity; [apply IH|].
    destruct (getCSSFeature dataProvider (name p)) as [f|];
      rewrite ?total_bump; lia.
Qed.

Lemma countJS_total apis : ∀ seen c,
  (total (countJS dataProvider apis seen c)
   ≤ total c + N.of_nat (length apis))%N.
Proof.
  induction apis as [|a apis IH]; intros seen c; cbn [countJS length].
  - lia.
  - destruct (decide _); [etransitivity; [apply IH|]; lia|].
    destruct (getJSFeature dataProvider (api a)) as [f|];
      (etransitivity; [apply IH|]); rewrite ?total_bump; lia.
Qed.

Lemma cssFile_keeps st document :
  classified_le_scanned st →
  classified_le_scanned (cssFile dataProvider st document).
Proof.
  intros [Hc Hj]. split; [|exact Hj]. unfold cssFile.
  cbn [l_css l_totalCSSProperties].
  etransitivity; [apply countCSS_total|]. lia.
Qed.

Lemma jsFile_keeps st document :
  classified_le_scanned st →
  classified_le_scanned (jsFile dataProvider st document).
Proof.
  intros [Hc Hj]. split; [exact Hc|]. unfold jsFile. cbn [l_js l_totalJSAPIs].
  etransitivity; [apply countJS_total|]. lia.
Qed.

Lemma locals_classified_le_scanned css js :
  classified_le_scanned
    (fold_left (jsFile dataProvider) js
       (fold_left (cssFile dataProvider) css (mkLocals 0 0 noCounts noCounts))).
Proof.
  apply (fold_left_invariant _ classified_le_scanned).
  { intros st d _. apply jsFile_keeps. }
  apply (fold_left_invariant _ classified_le_scanned).
  { intros st d _. apply cssFile_keeps. }
  split; unfold total; cbn; lia.
Qed.

End DashboardBounds.

Lemma score_bounded b t :
  (b ≤ t)%N → (Z.of_N t < 2 ^ 53)%Z →
  ∃ s, Scorer.baselineScore b t = Some s ∧ (0 ≤ s ≤ 100)%Z.
Proof.
  intros Hb Ht.
  destruct (N.eq_dec t 0%N) as [->|Hnz].
  - exists 100%Z. done.
  - destruct (N.eq_dec b 0%N) as [->|Hbz].
    + exists 0%Z. rewrite score_zero by lia. done.
    + destruct (score_mono_pos b t t t) as (s & s' & E & E' & Hs);
        [lia..|nia|].
      rewrite score_full in E' by lia. injection E' as <-.
      exists s. done.
Qed.

(** X15. In the dashboard's statistics the three CSS counters never add up
    to more than [totalCSSProperties], nor the three JS counters to more
    than [totalJSAPIs]; and as long as the two totals together stay below
    2^53 the score is an integer between 0 and 100. *)
Theorem getProjectStats_classified_le_scanned
    (dataProvider : baselineData.BaselineDataProvider)
    (workspaceFolders : option dashboard.Workspace) :
  let s := dashboard.getProjectStats dataProvider workspaceFolders in
  (dashboard.baselineCSSCount s + dashboard.limitedCSSCount s
   + dashboard.nonBaselineCSSCount s ≤ dashboard.totalCSSProperties s)%N
  ∧ (dashboard.baselineJSCount s + dashboard.limitedJSCount s
     + dashboard.nonBaselineJSCount s ≤ dashboard.totalJSAPIs s)%N
  ∧ ((Z.of_N (dashboard.totalCSSProperties s + dashboard.totalJSAPIs s)
      < 2 ^ 53)%Z →
     ∃ score, dashboard.baselineScore s = Some score ∧ (0 ≤ score ≤ 100)%Z).
Proof.
  destruct workspaceFolders as [ws|]; cbn zeta.
  - unfold dashboard.getProjectStats.
    destruct (locals_classified_le_scanned dataProvider
                (take 50 (dashboard.cssUris ws))
                (take 50 (dashboard.jsUris ws)))
      as [Hc Hj].
    revert Hc Hj.
    generalize (fold_left (dashboard.jsFile dataProvider)
                  (take 50 (dashboard.jsUris ws))
                  (fold_left (dashboard.cssFile dataProvider)
                     (take 50 (dashboard.cssUris ws))
                     (dashboard.mkLocals 0 0 noCounts noCounts))).
    intros st Hc Hj. cbn. unfold total in Hc, Hj.
    split; [exact Hc|]. split; [exact Hj|].
    intros Hr. apply score_bounded; lia.
  - cbn. split; [lia|]. split; [lia|]. intros _. exists 100%Z. done.
Qed.

(** X16. The dashboard analyzes the first fifty style sheets and the first
    fifty scripts only, each kind on its own: style sheets beyond the
    fiftieth and scripts beyond the fiftieth raise [totalFiles] and change
    neither a usage counter nor the score. *)
Theorem getProjectStats_first_fifty
    (dataProvider : baselineData.BaselineDataProvider)
    (css js moreCSS moreJS : list vscode.TextDocument) :
  50 ≤ length css ∨ moreCSS = [] →
  50 ≤ length js ∨ moreJS = [] →
  let s := dashboard.getProjectStats dataProvider
             (Some (dashboard.mkWorkspace css js)) in
  let s' := dashboard.getProjectStats dataProvider
              (Some (dashboard.mkWorkspace (css ++ moreCSS) (js ++ moreJS))) in
  dashboard.totalFiles s'
  = (dashboard.totalFiles s + N.of_nat (length moreCSS + length moreJS))%N
  ∧ dashboard.totalCSSProperties s' = dashboard.totalCSSProperties s
  ∧ dashboard.totalJSAPIs s' = dashboard.totalJSAPIs s
  ∧ dashboard.baselineCSSCount s' = dashboard.baselineCSSCount s
  ∧ dashboard.limitedCSSCount s' = dashboard.limitedCSSCount s
  ∧ dashboard.nonBaselineCSSCount s' = dashboard.nonBaselineCSSCount s
  ∧ dashboard.baselineJSCount s' = dashboard.baselineJSCount s
  ∧ dashboard.limitedJSCount s' = dashboard.limitedJSCount s
  ∧ dashboard.nonBaselineJSCount s' = dashboard.nonBaselineJSCount s
  ∧ dashboard.baselineScore s' = dashboard.baselineScore s.
Proof.
  intros Hc Hj s s'. subst s s'. unfold dashboard.getProjectStats.
  cbn [dashboard.cssUris dashboard.jsUris].
  assert (Ec : take 50 (css ++ moreCSS) = take 50 css).
  { destruct Hc as [Hc| ->]; [by rewrite take_app_le|by rewrite app_nil_r]. }
  assert (Ej : take 50 (js ++ moreJS) = take 50 js).
  { destruct Hj as [Hj| ->]; [by rewrite take_app_le|by rewrite app_nil_r]. }
  rewrite Ec, Ej.
  cbn [dashboard.totalFiles dashboard.cssFiles dashboard.jsFiles
       dashboard.totalCSSProperties dashboard.totalJSAPIs
       dashboard.baselineCSSCount dashboard.limitedCSSCount
       dashboard.nonBaselineCSSCount dashboard.baselineJSCount
       dashboard.limitedJSCount dashboard.nonBaselineJSCount
       dashboard.baselineScore].
  split; [|repeat split]. rewrite !length_app. lia.
Qed.

Lemma getProjectStats_first_fifty_witness :
  let dataProvider := baselineData.createMockData in
  let css := replicate 50 (vscode.document_of (codes "a { gap: 1px; }")) in
  let moreCSS :=
    replicate 10 (vscode.document_of (codes "b { display: grid; }")) in
  let js := replicate 3 (vscode.document_of (codes "fetch(u)")) in
  let s := dashboard.getProjectStats dataProvider
             (Some (dashboard.mkWorkspace css js)) in
  let s' := dashboard.getProjectStats dataProvider
              (Some (dashboard.mkWorkspace (css ++ moreCSS) (js ++ []))) in
  dashboard.totalFiles s' = (dashboard.totalFiles s + 10)%N
  ∧ dashboard.totalCSSProperties s' = dashboard.totalCSSProperties s
  ∧ dashboard.baselineScore s' = dashboard.baselineScore s.
Proof.
  intros dataProvider css moreCSS js s s'.
  destruct (getProjectStats_first_fifty dataProvider css js moreCSS [])
    as (H1 & H2 & _ & _ & _ & _ & _ & _ & _ & H10);
    [left; vm_compute; lia|by right|].
  split; [exact H1|]. split; [exact H2|exact H10].
Defined.

(** ** The inline badges *)
Section Badges.
Import baselineData.

Variable dataProvider : BaselineDataProvider.

Lemma css_push_counts d ds :
  cssBadgeCounts (cssDecorator.push d ds)
  = bump (status (css_feature (cssDecorator.hover d))) (cssBadgeCounts ds).
Proof.
  unfold cssDecorator.push, cssBadgeCounts.
  destruct (status _); cbn; rewrite length_app; cbn; f_equal; lia.
Qed.

Lemma js_push_total d ds :
  total (jsBadgeCounts (jsDecorations.push d ds))
  = (total (jsBadgeCounts ds) + 1)%N.
Proof.
  unfold jsDecorations.push, jsBadgeCounts, total.
  destruct (status _); cbn; rewrite length_app; cbn; lia.
Qed.

Lemma css_decorations_counts properties : ∀ ds,
  cssBadgeCounts
    (fold_left
       (λ ds prop,
          match getCSSFeature dataProvider (parser.name prop) with
          | None => ds
          | Some feature =>
              cssDecorator.push
                (cssDecorator.mkDecoration (parser.css_line prop) feature) ds
          end)
       properties ds)
  = dashboard.countCSS dataProvider properties (cssBadgeCounts ds).
Proof.
  unfold dashboard.countCSS.
  induction properties as [|p properties IH]; intros ds; cbn [fold_left];
    [done|].
  rewrite IH. f_equal.
  destruct (getCSSFeature dataProvider (parser.name p)); [|done].
  by rewrite css_push_counts.
Qed.

Lemma js_decorations_total entries : ∀ ds,
  total (jsBadgeCounts
           (fold_left
              (λ ds '(lineNumber, feature),
                 jsDecorations.push (jsDecorations.mkDecoration lineNumber feature)
                   ds)
              entries ds))
  = (total (jsBadgeCounts ds) + N.of_nat (length entries))%N.
Proof.
  induction entries as [|[ln f] entries IH]; intros ds; cbn [fold_left length].
  - lia.
  - rewrite IH, js_push_total. lia.
Qed.

(** The entries of the decorator's map, from a map that already holds
    [entries]. *)
Lemma lineFeatures_from apis : ∀ entries,
  NoDup (map fst entries) →
  let result :=
    fold_left
      (λ entries usage,
         match getJSFeature dataProvider (parser.api usage) with
         | None => entries
         | Some feature =>
             if bool_decide (parser.line usage ∈ map fst entries)
             then entries
             else entries ++ [(parser.line usage, feature)]
         end)
      apis entries in
  NoDup (map fst result)
  ∧ ∀ ln f, (ln, f) ∈ result ↔
      (ln, f) ∈ entries
      ∨ ((ln ∉ map fst entries)
         ∧ firstKnownOnLine dataProvider apis ln = Some f).
Proof.
  induction apis as [|u apis IH]; intros entries Hnd; cbn zeta.
  - cbn. split; [done|]. intros ln f. split; [by left|].
    by intros [?|[_ ?]].
  - cbn [fold_left firstKnownOnLine].
    destruct (getJSFeature dataProvider (parser.api u)) as [g|] eqn:Eg.
    + case_bool_decide as Hin.
      * destruct (IH entries Hnd) as [Hnd' Hiff]. split; [exact Hnd'|].
        intros ln f. rewrite Hiff.
        split; (intros [?|[Hout Hf]]; [by left|right]).
        -- split; [done|]. case_bool_decide as El; [|done]. by subst ln.
        -- split; [done|]. case_bool_decide as El; [|done]. by subst ln.
      * assert (Hnd1 : NoDup (map fst (entries ++ [(parser.line u, g)]))).
        { rewrite map_app. cbn. apply NoDup_app. split; [done|].
          split; [|apply NoDup_singleton].
          intros x Hx Hx'. apply list_elem_of_singleton in Hx'. by subst x. }
        destruct (IH _ Hnd1) as [Hnd' Hiff]. split; [exact Hnd'|].
        intros ln f. rewrite Hiff, map_app, !elem_of_app. cbn.
        rewrite !list_elem_of_singleton.
        split.
        -- intros [[?|[= -> ->]]|[Hout Hf]].
           ++ by left.
           ++ right. split; [done|]. by rewrite bool_decide_eq_true_2.
           ++ right. split; [tauto|].
              rewrite bool_decide_eq_false_2; [done|]. intros <-. tauto.
        -- intros [?|[Hout Hf]]; [by left; left|].
           case_bool_decide as El.
           ++ injection Hf as <-. subst ln. left. by right.
           ++ right. split; [|done]. intros [?|?]; [done|]. by apply El.
    + destruct (IH entries Hnd) as [Hnd' Hiff]. split; [exact Hnd'|].
      intros ln f. rewrite Hiff. by case_bool_decide.
Qed.

End Badges.

(** X18. In a style sheet the decorator shows one badge per declaration
    with a catalog record, filed under the record's status; the numbers of
    badges per status are the three CSS counters that the dashboard derives
    from the same document. *)
Theorem css_badges_match_dashboard
    (dataProvider : baselineData.BaselineDataProvider)
    (languageId : text) (document : vscode.TextDocument)
    (ds : cssDecorator.Decorations) :
  cssDecorator.decorateDocument dataProvider languageId document = Some ds →
  cssBadgeCounts ds
  = dashboard.l_css
      (dashboard.cssFile dataProvider
         (dashboard.mkLocals 0 0 noCounts noCounts) document).
Proof.
  unfold cssDecorator.decorateDocument.
  destruct (negb _); [done|]. intros [= <-].
  rewrite css_decorations_counts. done.
Qed.

Lemma css_badges_match_dashboard_witness :
  let document :=
    vscode.document_of (codes "a { gap: 1px; color: red; }") in
  let dataProvider := baselineData.createMockData in
  let ds :=
    default (cssDecorator.mkDecorations [] [] [])
      (cssDecorator.decorateDocument dataProvider (codes "css") document) in
  cssDecorator.decorateDocument dataProvider (codes "css") document = Some ds
  ∧ cssBadgeCounts ds
    = dashboard.l_css
        (dashboard.cssFile dataProvider
           (dashboard.mkLocals 0 0 noCounts noCounts) document).
Proof.
  intros document dataProvider ds.
  assert (H : cssDecorator.decorateDocument dataProvider (codes "css")
                document = Some ds) by (by vm_compute).
  split; [exact H|].
  exact (css_badges_match_dashboard dataProvider (codes "css") document ds H).
Defined.

(** X19. The map from lines to records that the JS decorator fills holds a
    line at most once, and holds for a line the record of the first usage
    on it that has a catalog record.  Its entries, listed in insertion
    order, are those of the finite map [jsDecorator.lineFeatures]. *)
Theorem js_lineFeatures_first_known
    (dataProvider : baselineData.BaselineDataProvider)
    (apiUsages : list parser.JSAPIUsage) :
  let entries := jsDecorations.lineFeatures dataProvider apiUsages in
  NoDup (map fst entries)
  ∧ (∀ ln f, (ln, f) ∈ entries ↔
       firstKnownOnLine dataProvider apiUsages ln = Some f)
  ∧ ∀ ln, jsDecorator.lineFeatures dataProvider apiUsages !! ln
          = firstKnownOnLine dataProvider apiUsages ln.
Proof.
  cbn zeta. unfold jsDecorations.lineFeatures.
  destruct (lineFeatures_from dataProvider apiUsages [] NoDup_nil_2)
    as [Hnd Hiff].
  split; [exact Hnd|]. split.
  - intros ln f. rewrite Hiff. split.
    + intros [H|[_ H]]; [by apply elem_of_nil in H|done].
    + intros H. right. split; [apply not_elem_of_nil|done].
  - clear Hnd Hiff. intros ln. unfold jsDecorator.lineFeatures.
    transitivity
      (match (∅ : gmap nat baselineData.JSFeature) !! ln with
       | Some f => Some f
       | None => firstKnownOnLine dataProvider apiUsages ln
       end); [|by rewrite lookup_empty].
    generalize (∅ : gmap nat baselineData.JSFeature).
    induction apiUsages as [|u apis IH]; intros m.
    + cbn. by destruct (m !! ln).
    + cbn [fold_left firstKnownOnLine]. rewrite IH.
      destruct (baselineData.getJSFeature dataProvider (parser.api u))
        as [g|]; [|by case_bool_decide].
      destruct (m !! parser.line u) as [h|] eqn:Em.
      * case_bool_decide as El; [|done]. subst ln. by rewrite Em.
      * case_bool_decide as El.
        -- subst ln. by rewrite lookup_insert_eq, Em.
        -- by rewrite lookup_insert_ne.
Qed.

Section BadgesAndDashboard.
Import baselineData.

Variable dataProvider : BaselineDataProvider.

Lemma firstKnownOnLine_is_Some apis u :
  u ∈ apis → isKnown dataProvider u →
  is_Some (firstKnownOnLine dataProvider apis (parser.line u)).
Proof.
  intros Hu Hk. induction apis as [|a apis IH]; [by apply elem_of_nil in Hu|].
  cbn [firstKnownOnLine]. apply elem_of_cons in Hu as [<-|Hu].
  - rewrite bool_decide_eq_true_2 by done.
    destruct Hk as [f Hf]. unfold getJSFeature in *. rewrite Hf. eauto.
  - case_bool_decide; [|by apply IH].
    destruct (getJSFeature dataProvider (parser.api a)); [eauto|by apply IH].
Qed.

Lemma lineFeatures_entries apis :
  NoDup (map fst (jsDecorations.lineFeatures dataProvider apis))
  ∧ ∀ ln f, (ln, f) ∈ jsDecorations.lineFeatures dataProvider apis ↔
      firstKnownOnLine dataProvider apis ln = Some f.
Proof.
  unfold jsDecorations.lineFeatures.
  destruct (lineFeatures_from dataProvider apis [] NoDup_nil_2) as [Hnd Hiff].
  split; [exact Hnd|].
  intros ln f. rewrite Hiff. split.
  - intros [H|[_ H]]; [by apply elem_of_nil in H|done].
  - intros H. right. split; [apply not_elem_of_nil|done].
Qed.

Lemma countJS_le_entries apis :
  (total (dashboard.countJS dataProvider apis ∅ noCounts)
   ≤ N.of_nat (length (jsDecorations.lineFeatures dataProvider apis)))%N.
Proof.
  destruct (countJS_picks dataProvider apis ∅ noCounts)
    as (picked & -> & Hnd & Hfirst & _).
  rewrite total_tally. change (total noCounts) with 0%N.
  destruct (lineFeatures_entries apis) as [_ He].
  set (known := filter (isKnown dataProvider) picked).
  assert (Hs : map parser.line known
               ⊆+ map fst (jsDecorations.lineFeatures dataProvider apis)).
  { apply NoDup_submseteq.
    - eapply sublist_NoDup; [exact Hnd|].
      apply fmap_sublist, sublist_filter.
    - intros ln Hln. apply list_elem_of_fmap in Hln as (p & -> & Hp).
      apply list_elem_of_filter in Hp as [Hk Hp].
      destruct (Hfirst p Hp) as [_ Hf].
      apply find_some in Hf as [Hin _]. apply list_elem_of_In in Hin.
      destruct (firstKnownOnLine_is_Some apis p Hin Hk) as [f Hf].
      apply He in Hf. apply list_elem_of_fmap. by exists (parser.line p, f). }
  apply submseteq_length in Hs. rewrite !length_map in Hs. lia.
Qed.

End BadgesAndDashboard.

(** X20. For one JavaScript document, the dashboard never counts more
    usages than the decorator shows badges. *)
Theorem dashboard_js_le_badges
    (dataProvider : baselineData.BaselineDataProvider)
    (languageId : text) (document : vscode.TextDocument)
    (ds : jsDecorations.Decorations) :
  jsDecorations.decorateDocument dataProvider languageId document = Some ds →
  (total (dashboard.l_js
            (dashboard.jsFile dataProvider
               (dashboard.mkLocals 0 0 noCounts noCounts) document))
   ≤ total (jsBadgeCounts ds))%N.
Proof.
  unfold jsDecorations.decorateDocument.
  destruct (negb _); [done|]. intros [= <-].
  rewrite js_decorations_total. unfold dashboard.jsFile. cbn [dashboard.l_js].
  etransitivity; [apply countJS_le_entries|].
  change (total (jsBadgeCounts (jsDecorations.mkDecorations [] [] [])))
    with 0%N.
  lia.
Qed.

Lemma dashboard_js_le_badges_witness :
  let document :=
    vscode.document_of (codes "fetch(u); new Promise(f)") in
  let dataProvider := baselineData.createMockData in
  let ds :=
    default (jsDecorations.mkDecorations [] [] [])
      (jsDecorations.decorateDocument dataProvider (codes "javascript")
         document) in
  jsDecorations.decorateDocument dataProvider (codes "javascript") document
  = Some ds
  ∧ (total (dashboard.l_js
              (dashboard.jsFile dataProvider
                 (dashboard.mkLocals 0 0 noCounts noCounts) document))
     ≤ total (jsBadgeCounts ds))%N.
Proof.
  intros document dataProvider ds.
  assert (H : jsDecorations.decorateDocument dataProvider
                (codes "javascript") document = Some ds) by (by vm_compute).
  split; [exact H|].
  exact (dashboard_js_le_badges dataProvider (codes "javascript") document
           ds H).
Defined.

(** ** The built-in catalog *)
Section MockCatalog.
Import baselineData dashboard.

Lemma mock_css_status k f :
  getCSSFeature createMockData k = Some f →
  status (css_feature f) ≠ not_baseline.
Proof.
  assert (H : map_Forall (λ _ f, status (css_feature f) ≠ not_baseline)
                (cssFeatures createMockData)).
  { refine (bool_decide_unpack _ _). by vm_compute. }
  intros Hk. exact (H k f Hk).
Qed.

Lemma mock_js_status k f :
  getJSFeature createMockData k = Some f →
  status (js_feature f) ≠ not_baseline.
Proof.
  assert (H : map_Forall (λ _ f, status (js_feature f) ≠ not_baseline)
                (jsFeatures createMockData)).
  { refine (bool_decide_unpack _ _). by vm_compute. }
  intros Hk. exact (H k f Hk).
Qed.

Lemma bump_keeps s c :
  s ≠ not_baseline → nonBaselineCount (bump s c) = nonBaselineCount c.
Proof. by destruct s. Qed.

Lemma mock_countCSS properties : ∀ c,
  nonBaselineCount (countCSS createMockData properties c)
  = nonBaselineCount c.
Proof.
  unfold countCSS.
  induction properties as [|p properties IH]; intros c; cbn [fold_left];
    [done|].
  rewrite IH.
  destruct (getCSSFeature createMockData (parser.name p)) as [f|] eqn:E;
    [|done].
  apply bump_keeps. by apply (mock_css_status (parser.name p)).
Qed.

Lemma mock_countJS apis : ∀ seen c,
  nonBaselineCount (countJS createMockData apis seen c) = nonBaselineCount c.
Proof.
  induction apis as [|a apis IH]; intros seen c; cbn [countJS]; [done|].
  destruct (decide _); [apply IH|].
  destruct (getJSFeature createMockData (parser.api a)) as [f|] eqn:E;
    rewrite IH; [|done].
  apply bump_keeps. by apply (mock_js_status (parser.api a)).
Qed.

End MockCatalog.

(** X17. With the built-in catalog ([createMockData]) the dashboard never
    counts a non-baseline usage, whatever the workspace holds: no record
    that a lookup can return has that status. *)
Theorem dashboard_mock_never_non_baseline
    (workspaceFolders : option dashboard.Workspace) :
  let s := dashboard.getProjectStats baselineData.createMockData
             workspaceFolders in
  dashboard.nonBaselineCSSCount s = 0%N
  ∧ dashboard.nonBaselineJSCount s = 0%N.
Proof.
  destruct workspaceFolders as [ws|]; [|done].
  cbn zeta. unfold dashboard.getProjectStats.
  cbn [dashboard.nonBaselineCSSCount dashboard.nonBaselineJSCount].
  apply (fold_left_invariant _
           (λ st, nonBaselineCount (dashboard.l_css st) = 0%N
                  ∧ nonBaselineCount (dashboard.l_js st) = 0%N)).
  { intros st d _ [Hc Hj]. unfold dashboard.jsFile.
    cbn [dashboard.l_css dashboard.l_js]. by rewrite mock_countJS. }
  apply (fold_left_invariant _
           (λ st, nonBaselineCount (dashboard.l_css st) = 0%N
                  ∧ nonBaselineCount (dashboard.l_js st) = 0%N)).
  { intros st d _ [Hc Hj]. unfold dashboard.cssFile.
    cbn [dashboard.l_css dashboard.l_js]. by rewrite mock_countCSS. }
  done.
Qed.

(** ** The dependency audit *)
Section Auditor.
Import dependencyAuditor.

Lemma createIssue_severity packageName issueText :
  severity (createIssue packageName issueText) = medium
  ∨ severity (createIssue packageName issueText) = low.
Proof.
  unfold createIssue.
  destruct (match lookup knownPackages packageName with
            | Own knownPackage => flag knownPackage
            | _ => None
            end) as [[]|]; cbn; [by right|by left|].
  destruct (includes issueText _); cbn; [by left|by right].
Qed.

Lemma hasIssues_issues d :
  hasIssues d = match issues d with [] => false | _ :: _ => true end →
  map (createIssue (name d)) (if hasIssues d then issues d else [])
  = map (createIssue (name d)) (issues d).
Proof. intros ->. by destruct (issues d). Qed.

Lemma auditPackage_hasIssues_issues n v ty :
  hasIssues (auditPackage n v ty)
  = match issues (auditPackage n v ty) with [] => false | _ :: _ => true end.
Proof. done. Qed.

Lemma issuesOf_app ds ds' : issuesOf (ds ++ ds') = issuesOf ds ++ issuesOf ds'.
Proof. unfold issuesOf. by rewrite map_app, concat_app. Qed.

Lemma pushInfo_audited n v ty st :
  pushInfo n (auditPackage n v ty) st
  = (st.1 ++ audited ty [(n, v)], st.2 ++ issuesOf (audited ty [(n, v)])).
Proof.
  unfold pushInfo, audited, issuesOf. cbn [map concat fst snd].
  rewrite app_nil_r. f_equal.
  change (name (auditPackage n v ty)) with n.
  rewrite (auditPackage_hasIssues_issues n v ty).
  destruct (issues (auditPackage n v ty)); [by rewrite app_nil_r|done].
Qed.

Lemma fold_auditEntry_thrown ty es e :
  fold_left (auditEntry ty) es (inl e) = inl e.
Proof. induction es as [|x es IH]; [done|]. cbn. apply IH. Qed.

(** A loop of [audit] comes to its end exactly when every version is a
    string; it has then pushed the audited dependencies and their
    issues. *)
Lemma fold_auditEntry ty es : ∀ st st',
  fold_left (auditEntry ty) es (inr st) = inr st' ↔
  ∃ l, es = stringEntries l
       ∧ st' = (st.1 ++ audited ty l, st.2 ++ issuesOf (audited ty l)).
Proof.
  induction es as [|[n v] es IH]; intros st st'.
  - cbn [fold_left]. split.
    + intros [= <-]. exists []. cbn. rewrite !app_nil_r. by destruct st.
    + intros (l & E & ->). destruct l; [|done]. cbn.
      rewrite !app_nil_r. by destruct st.
  - cbn [fold_left]. unfold auditEntry at 2. cbn [bind].
    destruct v as [| | |s| |];
      try (rewrite fold_auditEntry_thrown; split; [done|];
           intros (l & E & _); destruct l as [|[? ?] l]; discriminate E).
    rewrite IH, pushInfo_audited. cbn [fst snd]. split.
    + intros (l & -> & ->). exists ((n, s) :: l). split; [done|].
      change (audited ty ((n, s) :: l))
        with (audited ty [(n, s)] ++ audited ty l).
      by rewrite issuesOf_app, !app_assoc.
    + intros (l & E & ->). destruct l as [|[n' s'] l]; [done|].
      injection E as -> -> ->. exists l. split; [done|].
      change (audited ty ((n', s') :: l))
        with (audited ty [(n', s')] ++ audited ty l).
      by rewrite issuesOf_app, !app_assoc.
Qed.

(** When [audit] returns, and what. *)
Lemma audit_inr file r :
  audit file = inr r ↔
  ∃ packageJson d dd prod devs,
    file = Parsed packageJson
    ∧ JSON.get packageJson (codes "dependencies") = inr d
    ∧ JSON.get packageJson (codes "devDependencies") = inr dd
    ∧ JSON.entries (JSON.orEmpty d) = inr (stringEntries prod)
    ∧ JSON.entries (JSON.orEmpty dd) = inr (stringEntries devs)
    ∧ r = mkDependencyAuditResult
            (N.of_nat (length prod + length devs))
            (N.of_nat (length prod)) (N.of_nat (length devs))
            (audited production prod ++ audited dev devs)
            (issuesOf (audited production prod ++ audited dev devs)).
Proof.
  split.
  - destruct file as [| | |packageJson]; [done..|]. cbn [audit].
    destruct (JSON.get packageJson (codes "dependencies")) as [[]|d] eqn:Ed;
      [done|].
    destruct (JSON.get packageJson (codes "devDependencies"))
      as [[]|dd] eqn:Edd; [done|].
    cbn [lift bind].
    destruct (JSON.entries (JSON.orEmpty d)) as [[]|es] eqn:Ee; [done|].
    cbn [lift bind].
    destruct (fold_left (auditEntry production) es (inr ([], [])))
      as [e|st] eqn:Ef; [done|].
    apply fold_auditEntry in Ef as (prod & -> & ->). cbn [bind fst snd app].
    destruct (JSON.entries (JSON.orEmpty dd)) as [[]|des] eqn:Ede; [done|].
    cbn [lift bind].
    destruct (fold_left (auditEntry dev) des _) as [e|st] eqn:Ef; [done|].
    apply fold_auditEntry in Ef as (devs & -> & ->). cbn [bind fst snd].
    intros [= <-]. exists packageJson, d, dd, prod, devs.
    repeat split; [done..|].
    unfold stringEntries, audited.
    rewrite issuesOf_app, length_app, !length_map.
    by rewrite Nat2N.inj_add, <- !Nat2N.inj_add.
  - intros (packageJson & d & dd & prod & devs & -> & Ed & Edd & Ee & Ede
            & ->).
    cbn [audit]. rewrite Ed, Edd. cbn [lift bind]. rewrite Ee.
    cbn [lift bind].
    rewrite (proj2 (fold_auditEntry production (stringEntries prod)
                      ([], []) _) (ex_intro _ prod (conj eq_refl eq_refl))).
    cbn [bind fst snd app]. rewrite Ede. cbn [lift bind].
    rewrite (proj2 (fold_auditEntry dev (stringEntries devs) _ _)
               (ex_intro _ devs (conj eq_refl eq_refl))).
    cbn [bind fst snd]. unfold stringEntries, audited.
    by rewrite issuesOf_app, length_app, !length_map.
Qed.

Lemma own_knownPackages_notes name r :
  own knownPackages name = Some r → codes (notes r) ≠ [].
Proof.
  unfold knownPackages. cbn [own].
  repeat (destruct (text_eqb name _); [by intros [= <-]|]).
  done.
Qed.

Lemma own_oldVersions_truthy name t :
  own oldVersions name = Some t → Number.truthy (Some t) = true.
Proof.
  unfold oldVersions. cbn [own].
  repeat (destruct (text_eqb name _); [by intros [= <-]|]).
  done.
Qed.

End Auditor.

Section AuditorReport.
Import dependencyAuditor.

(** X21. The audit never rates an issue [high]: the high-priority group of
    the report is always empty, and the medium and the low group together
    hold every issue. *)
Theorem audit_never_high (file : PackageFile) (r : DependencyAuditResult) :
  audit file = inr r →
  bySeverity high (potentialIssues r) = []
  ∧ length (bySeverity medium (potentialIssues r))
    + length (bySeverity low (potentialIssues r))
    = length (potentialIssues r).
Proof.
  intros H.
  apply audit_inr in H as (pj & d & dd & prod & devs & _ & _ & _ & _ & _ & ->).
  cbn [potentialIssues].
  set (l := issuesOf _).
  assert (H : Forall (λ i, severity i = medium ∨ severity i = low) l).
  { subst l. apply Forall_forall. intros i Hi. unfold issuesOf in Hi.
    apply elem_of_concat in Hi as (m & Hi & Hm).
    apply list_elem_of_fmap in Hm as (e & -> & _).
    apply list_elem_of_fmap in Hi as (t & -> & _).
    apply createIssue_severity. }
  clearbody l. induction H as [|i l [Hi|Hi] _ [IH1 IH2]]; [done|..];
    unfold bySeverity in *; cbn [List.filter length]; rewrite Hi;
    cbn [length]; rewrite IH1; split; [done|lia|done|lia].
Qed.

Lemma audit_never_high_witness :
  let file :=
    Parsed
      (JSON.JObject
         [(codes "dependencies",
           JSON.JObject
             [(codes "react", JSON.JString (codes "^15.2.0"));
              (codes "moment", JSON.JString (codes "2.29.0"))]);
          (codes "devDependencies",
           JSON.JObject
             [(codes "jquery", JSON.JString (codes "3.0.0"))])]) in
  let r :=
    match audit file with
    | inr r => r
    | inl _ => mkDependencyAuditResult 0 0 0 [] []
    end in
  audit file = inr r
  ∧ bySeverity high (potentialIssues r) = []
  ∧ length (bySeverity medium (potentialIssues r))
    + length (bySeverity low (potentialIssues r))
    = length (potentialIssues r).
Proof.
  intros file r.
  assert (H : audit file = inr r) by (by vm_compute).
  split; [exact H|]. exact (audit_never_high file r H).
Defined.

Lemma issues_empty_iff ds :
  Forall (λ d, hasIssues d
               = match issues d with [] => false | _ :: _ => true end) ds →
  issuesOf ds = [] ↔ Forall (λ d, hasIssues d = false) ds.
Proof.
  unfold issuesOf. induction 1 as [|d ds Hd _ IH]; [done|].
  cbn [map concat]. rewrite Forall_cons, <- IH, Hd.
  destruct (issues d); cbn; [tauto|].
  split; [done|]. by intros [? _].
Qed.

(** X22. The audit returns a result exactly when [package.json] is there,
    is read and parsed, the parsed value is not [null], and every version
    among the entries of [dependencies] and of [devDependencies] is a
    string; in every other case it throws.  The result lists the
    production dependencies and then the development dependencies, each
    audited in the order in which [Object.entries] lists them; the total
    is the sum of the two numbers; the issue list holds the issues of the
    dependencies in that order, and it is empty exactly when no dependency
    has issues. *)
Theorem audit_report (file : PackageFile) (r : DependencyAuditResult) :
  (audit file = inr r ↔
   ∃ packageJson d dd prod devs,
     file = Parsed packageJson
     ∧ JSON.get packageJson (codes "dependencies") = inr d
     ∧ JSON.get packageJson (codes "devDependencies") = inr dd
     ∧ JSON.entries (JSON.orEmpty d) = inr (stringEntries prod)
     ∧ JSON.entries (JSON.orEmpty dd) = inr (stringEntries devs)
     ∧ r = mkDependencyAuditResult
             (N.of_nat (length prod + length devs))
             (N.of_nat (length prod)) (N.of_nat (length devs))
             (audited production prod ++ audited dev devs)
             (issuesOf (audited production prod ++ audited dev devs)))
  ∧ (audit file = inr r →
     totalDependencies r = (productionDependencies r + devDependencies r)%N
     ∧ potentialIssues r = issuesOf (dependencies r)
     ∧ (potentialIssues r = [] ↔
        Forall (λ d, hasIssues d = false) (dependencies r))).
Proof.
  split; [apply audit_inr|]. intros H.
  apply audit_inr in H as (pj & d & dd & prod & devs & _ & _ & _ & _ & _ & ->).
  cbn [totalDependencies productionDependencies devDependencies
       potentialIssues dependencies].
  split; [lia|]. split; [done|].
  apply issues_empty_iff. apply Forall_app.
  split; apply Forall_forall; intros x Hx;
    apply list_elem_of_fmap in Hx as (e & -> & _); done.
Qed.

Lemma audit_report_witness :
  let packageJson :=
    JSON.JObject
      [(codes "name", JSON.JString (codes "app"));
       (codes "dependencies",
        JSON.JObject [(codes "react", JSON.JString (codes "^15.2.0"))])] in
  let prod := [(codes "react", codes "^15.2.0")] in
  audit (Parsed packageJson)
  = inr (mkDependencyAuditResult 1 1 0 (audited production prod)
           (issuesOf (audited production prod)))
  ∧ audit (Parsed JSON.JNull) = inl TypeError
  ∧ audit
      (Parsed
         (JSON.JObject
            [(codes "dependencies",
              JSON.JObject
                [(codes "react", JSON.JNumber (Number.of_N 16))])]))
    = inl TypeError.
Proof.
  intros packageJson prod. split; [|by vm_compute].
  apply (proj1 (audit_report (Parsed packageJson) _)).
  exists packageJson,
    (Some (JSON.JObject [(codes "react", JSON.JString (codes "^15.2.0"))])),
    None, prod, [].
  by vm_compute.
Defined.

End AuditorReport.

(** ** Versions *)
Section ParseInt.
Import parseInt.

Lemma uint_codes_digits d : Forall (λ c, isDigit c = true) (uint_codes d).
Proof. induction d; cbn; constructor; done. Qed.

Lemma digits_uint d : ∀ acc,
  digits 10 (uint_codes d) (Some (Z.of_nat acc))
  = Some (Z.of_nat (Nat.of_uint_acc d acc)).
Proof.
  induction d; intros acc; cbn [uint_codes Nat.of_uint_acc]; [done|..];
    cbn [digits]; change (digit 10 _) with (Some 0%Z) || idtac;
    (etransitivity; [|apply IHd]); cbn [digits digit default];
    rewrite ?Nat.tail_mul_spec; do 2 f_equal; cbn; lia.
Qed.

Lemma to_uint_not_Nil n : Nat.to_uint n ≠ Decimal.Nil.
Proof.
  intros H. pose proof (Unsigned.of_to n) as E. rewrite H in E. cbn in E.
  subst n. discriminate H.
Qed.

Lemma parseInt_nat_codes n : parseInt (nat_codes n) = Some (Z.of_nat n).
Proof.
  unfold nat_codes.
  pose proof (Unsigned.of_to n) as E.
  pose proof (to_uint_not_Nil n) as Hn.
  pose proof (uint_codes_digits (Nat.to_uint n)) as Hd.
  assert (Hv : digits 10 (uint_codes (Nat.to_uint n)) None
               = Some (Z.of_nat n)).
  { rewrite <- E at 2. unfold Nat.of_uint. rewrite <- digits_uint.
    destruct (Nat.to_uint n); done. }
  revert Hv Hd. generalize (uint_codes (Nat.to_uint n)). intros s Hv Hd.
  destruct s as [|c s]; [done|].
  apply Forall_cons in Hd as [Hc Hd]. unfold isDigit in Hc.
  apply andb_true_iff in Hc as [Hc1 Hc2].
  apply N.leb_le in Hc1, Hc2.
  unfold parseInt.
  assert (Hs : isSpace c = false).
  { unfold isSpace.
    rewrite !orb_false_iff, !andb_false_iff, !N.leb_gt, !N.eqb_neq. lia. }
  cbn [trimStart]. rewrite Hs. cbn zeta.
  assert (E45 : (c =? 45)%N = false) by (apply N.eqb_neq; lia).
  assert (E43 : (c =? 43)%N = false) by (apply N.eqb_neq; lia).
  rewrite E45, E43. cbn [orb].
  assert (Hx : match c :: s with
               | c0 :: x :: _ => (c0 =? 48)%N && ((x =? 120)%N || (x =? 88)%N)
               | _ => false
               end = false).
  { destruct s as [|x s]; [done|]. apply Forall_cons in Hd as [Hx _].
    unfold isDigit in Hx. apply andb_true_iff in Hx as [Hx1 Hx2].
    apply N.leb_le in Hx1, Hx2.
    assert ((x =? 120)%N = false) as -> by (apply N.eqb_neq; lia).
    assert ((x =? 88)%N = false) as -> by (apply N.eqb_neq; lia).
    by rewrite andb_false_r. }
  rewrite Hx, Hv. f_equal. lia.
Qed.

End ParseInt.

Section OldVersion.
Import Regex dependencyAuditor RegexSpec.

Lemma remove_first_anchored r : ∀ rest prev pos,
  remove_first (Seq Begin r) prev rest (S pos) = rest.
Proof.
  induction rest as [|c tl IH]; intros prev pos; [done|].
  cbn [remove_first]. unfold exec_at. cbn [run m_pos Nat.eqb].
  by rewrite IH.
Qed.

Lemma remove_first_match r prev rest pos m :
  exec_at r prev rest pos = Some m →
  remove_first r prev rest pos = drop (length (whole m)) rest.
Proof. intros H. destruct rest; cbn [remove_first]; by rewrite H. Qed.

Lemma strip_prefix prefix s :
  Forall (λ c, isRangeChar c = true) prefix → stops isRangeChar s →
  remove_first prefixRegex None (prefix ++ s) 0 = s.
Proof.
  intros Hp Hs. unfold prefixRegex.
  destruct prefix as [|c w].
  - cbn [app]. destruct s as [|d tl]; [done|]. cbn in Hs.
    cbn [remove_first]. unfold exec_at.
    cbn [run Plus m_pos m_rest Nat.eqb]. rewrite Hs.
    by rewrite remove_first_anchored.
  - assert (Hr : run (Seq Begin (Plus isRangeChar))
                   (MState None ((c :: w) ++ s) 0 []) Some
                 = Some (MState (prev_after None (c :: w)) s
                           (0 + length (c :: w)) [])).
    { cbn [run m_pos Nat.eqb]. by apply run_Plus_take. }
    rewrite (remove_first_match _ _ _ _ (RMatch 0 (c :: w) [])).
    + cbn [whole]. by rewrite drop_app_length.
    + unfold exec_at. rewrite Hr. cbn [m_pos m_caps]. do 2 f_equal.
      by apply take_prefix.
Qed.

Lemma beforeDot_app ds tl :
  (46%N ∉ ds) → (tl = [] ∨ ∃ r, tl = 46%N :: r) → beforeDot (ds ++ tl) = ds.
Proof.
  intros Hd Ht. induction ds as [|c ds IH]; cbn.
  - destruct Ht as [->|(r & ->)]; done.
  - destruct (N.eqb_spec c 46) as [->|Hc].
    + exfalso. apply Hd. left.
    + f_equal. apply IH. intros H. apply Hd. by right.
Qed.

Lemma digits_no_dot s : Forall (λ c, isDigit c = true) s → 46%N ∉ s.
Proof.
  intros H Hin. rewrite Forall_forall in H. by apply H in Hin.
Qed.

End OldVersion.

Section AuditorVersions.
Import dependencyAuditor.

(** X23. For a version made of range characters ([^], [~], [>], [=], [<]),
    a decimal major number and, optionally, a dot and more, [isOldVersion]
    answers whether the major number is below the threshold that the table
    gives the package; a package without own entry in the table is never
    old. *)
Theorem isOldVersion_major (name prefix tl : text) (major : nat) :
  Forall (λ c, isRangeChar c = true) prefix →
  tl = [] ∨ (∃ r, tl = 46%N :: r) →
  isOldVersion name (prefix ++ nat_codes major ++ tl)
  = match own oldVersions name with
    | Some threshold => (Z.of_nat major <? threshold)%Z
    | None => false
    end.
Proof.
  intros Hp Ht. unfold isOldVersion.
  pose proof (uint_codes_digits (Nat.to_uint major)) as Hd.
  fold (nat_codes major) in Hd.
  assert (Hne : nat_codes major ≠ []).
  { unfold nat_codes. pose proof (to_uint_not_Nil major) as Hn.
    by destruct (Nat.to_uint major). }
  rewrite strip_prefix; [|done|].
  2:{ destruct (nat_codes major) as [|c s]; [done|].
      apply Forall_cons in Hd as [Hc _]. cbn. unfold isDigit in Hc.
      apply andb_true_iff in Hc as [Hc1 Hc2]. apply N.leb_le in Hc1, Hc2.
      unfold isRangeChar. rewrite !orb_false_iff, !N.eqb_neq. lia. }
  cbn zeta. rewrite beforeDot_app; [|by apply digits_no_dot|done].
  destruct (nat_codes major) as [|c s] eqn:En; [done|].
  rewrite <- En, parseInt_nat_codes.
  unfold lookup. destruct (own oldVersions name) as [t|] eqn:Eo.
  - by rewrite (own_oldVersions_truthy _ _ Eo).
  - by destruct (JSObject.inherited name).
Qed.

Lemma isOldVersion_major_witness :
  isOldVersion (codes "react") (codes "^15.2.0") = true.
Proof.
  apply (isOldVersion_major (codes "react") (codes "^") (codes ".2.0") 15).
  - repeat constructor.
  - right. by eexists.
Defined.

(** X24. A dependency is reported with issues exactly when the table of
    known packages has an own entry for its name, or its version is old. *)
Theorem auditPackage_hasIssues (name version : text) (type : DependencyType) :
  hasIssues (auditPackage name version type) = true ↔
  is_Some (own knownPackages name) ∨ isOldVersion name version = true.
Proof.
  unfold auditPackage. cbn zeta. cbn [hasIssues]. unfold lookup.
  destruct (own knownPackages name) as [r|] eqn:Eo.
  - split; [intros _; left; eauto|intros _].
    pose proof (own_knownPackages_notes _ _ Eo) as Hn.
    destruct (codes (notes r)) as [|c n]; [done|].
    destruct (isOldVersion name version), (flag r) as [[]|]; done.
  - assert (E : (match (if JSObject.inherited name
                        then Inherited else Missing) with
                 | Own knownPackage =>
                     match flag knownPackage with
                     | Some polyfill => [polyfillIssue]
                     | Some unnecessary => [unnecessaryIssue]
                     | None => []
                     end
                     ++ match codes (notes knownPackage) with
                        | [] => []
                        | c :: l => [c :: l]
                        end
                 | _ => []
                 end) = []) by (by destruct (JSObject.inherited name)).
    rewrite E. destruct (isOldVersion name version); cbn.
    + split; [by right|done].
    + split; [done|]. intros [[? ?]|?]; done.
Qed.

End AuditorVersions.

(** ** The per-feature table *)
Section FeatureTable.
Import featureTable.

Lemma insert_perm a l : insert a l ≡ₚ a :: l.
Proof.
  induction l as [|b l IH]; cbn; [done|].
  destruct (count b <? count a)%N; [done|].
  rewrite IH. apply perm_swap.
Qed.

Lemma sort_perm l : sort l ≡ₚ l.
Proof.
  unfold sort. rewrite <- (app_nil_r l) at 2.
  generalize (@nil FeatureUsage). induction l as [|a l IH]; intros acc; cbn.
  - done.
  - rewrite IH, insert_perm. by rewrite Permutation_middle.
Qed.

Lemma insert_sorted a l :
  StronglySorted countsAtLeast l → StronglySorted countsAtLeast (insert a l).
Proof.
  induction 1 as [|b l Hs IH Hb]; cbn.
  - repeat constructor.
  - destruct (N.ltb_spec (count b) (count a)) as [Hlt|Hge].
    + constructor; [by constructor|].
      constructor; [unfold countsAtLeast; lia|].
      eapply Forall_impl; [exact Hb|]. unfold countsAtLeast. intros c. lia.
    + constructor; [exact IH|].
      rewrite insert_perm. by constructor.
Qed.

Lemma sort_sorted l : StronglySorted countsAtLeast (sort l).
Proof.
  unfold sort.
  assert (H : StronglySorted countsAtLeast []) by constructor.
  revert H. generalize (@nil FeatureUsage).
  induction l as [|a l IH]; intros acc H; cbn; [done|].
  apply IH. by apply insert_sorted.
Qed.

Lemma featureMap_listings results : ∀ m,
  fold_left
    (λ m result, fold_left (λ m feature, record result feature m)
                   (analyzer.features result) m)
    results m
  = fold_left (λ m p, record p.1 p.2 m) (listings results) m.
Proof.
  unfold listings. induction results as [|r results IH]; intros m; [done|].
  cbn [fold_left flat_map]. rewrite fold_left_app, IH. f_equal.
  generalize (analyzer.features r). intros fs. revert m.
  induction fs as [|f fs IHf]; intros m; [done|]. cbn. apply IHf.
Qed.

Lemma record_fresh r f m :
  f ∉ map name m →
  record r f m
  = m ++ [mkFeatureUsage f f (statusOf (analyzer.language r) f) 1
            [analyzer.file r]].
Proof.
  induction m as [|e m IH]; intros Hf; cbn; [done|].
  cbn [map] in Hf. rewrite not_elem_of_cons in Hf. destruct Hf as [Hne Hf].
  unfold text_eqb. rewrite bool_decide_eq_false_2 by done.
  by rewrite IH.
Qed.

Lemma record_existing r f m :
  f ∈ map name m → NoDup (map name m) →
  ∃ m1 e m2,
    m = m1 ++ e :: m2 ∧ name e = f
    ∧ record r f m
      = m1 ++ mkFeatureUsage (name e) (feature e) (status e) (count e + 1)
                (files e ++ [analyzer.file r]) :: m2.
Proof.
  induction m as [|e m IH]; intros Hf Hnd; [by apply elem_of_nil in Hf|].
  cbn [record]. unfold text_eqb. case_bool_decide as He.
  - exists [], e, m. done.
  - cbn in Hf. apply elem_of_cons in Hf as [Hf|Hf]; [done|].
    apply NoDup_cons in Hnd as [_ Hnd].
    destruct (IH Hf Hnd) as (m1 & e' & m2 & -> & Hn & ->).
    by exists (e :: m1), e', m2.
Qed.

Lemma filesListing_snoc k l r f :
  filesListing k (l ++ [(r, f)])
  = filesListing k l ++ (if decide (f = k) then [analyzer.file r] else []).
Proof.
  unfold filesListing. rewrite filter_app, map_app. f_equal.
  destruct (decide (f = k)) as [->|Hne].
  - by rewrite filter_cons_True.
  - by rewrite filter_cons_False.
Qed.

Lemma filesListing_absent k l : k ∉ map snd l → filesListing k l = [].
Proof.
  unfold filesListing. induction l as [|[r f] l IH]; intros H; [done|].
  cbn [map snd] in H. rewrite not_elem_of_cons in H. destruct H as [Hne H].
  rewrite filter_cons_False by (cbn; congruence). by apply IH.
Qed.

Lemma recorded_step l m r f :
  recorded l m → recorded (l ++ [(r, f)]) (record r f m).
Proof.
  intros (Hnd & Hdom & Hent).
  destruct (decide (f ∈ map name m)) as [Hin|Hout].
  - destruct (record_existing r f m Hin Hnd) as (m1 & e & m2 & -> & Hn & ->).
    assert (En : ∀ x, map name (m1 ++ x :: m2)
                      = map name m1 ++ name x :: map name m2)
      by (intros x; by rewrite map_app).
    split; [|split].
    + rewrite En. cbn [name]. by rewrite <- En.
    + intros k. rewrite En. cbn [name]. rewrite <- En, Hdom.
      rewrite map_app, elem_of_app. cbn. split; [by left|].
      intros [?|Hk]; [done|]. apply list_elem_of_singleton in Hk. subst k.
      apply Hdom. by rewrite <- Hn in Hin |- *.
    + intros e' He'. apply elem_of_app in He' as [He'|He'].
      * destruct (Hent e') as (H1 & H2 & H3); [apply elem_of_app; by left|].
        split; [done|]. split; [done|].
        rewrite filesListing_snoc, H3.
        rewrite decide_False; [by rewrite app_nil_r|].
        intros ->. rewrite En in Hnd. apply NoDup_app in Hnd as (_ & Hd & _).
        apply (Hd (name e')); [by apply list_elem_of_fmap_2|]. rewrite Hn. left.
      * apply elem_of_cons in He' as [->|He'].
        -- destruct (Hent e) as (H1 & H2 & H3);
             [apply elem_of_app; right; left|].
           cbn [feature name count files]. split; [done|].
           rewrite filesListing_snoc, <- H3, decide_True by done.
           split; [|done]. rewrite length_app, H2. cbn. lia.
        -- destruct (Hent e') as (H1 & H2 & H3);
             [apply elem_of_app; right; by right|].
           split; [done|]. split; [done|].
           rewrite filesListing_snoc, H3.
           rewrite decide_False; [by rewrite app_nil_r|].
           intros ->. rewrite En in Hnd.
           apply NoDup_app in Hnd as (_ & _ & Hd).
           apply NoDup_cons in Hd as [Hd _]. apply Hd.
           rewrite Hn. by apply list_elem_of_fmap_2.
  - rewrite record_fresh by done.
    split; [|split].
    + rewrite map_app. cbn. apply NoDup_app. split; [done|].
      split; [|apply NoDup_singleton].
      intros x Hx Hx'. apply list_elem_of_singleton in Hx'. by subst x.
    + intros k. rewrite !map_app, !elem_of_app, Hdom. cbn. done.
    + intros e He. apply elem_of_app in He as [He|He].
      * destruct (Hent e He) as (H1 & H2 & H3).
        split; [done|]. split; [done|].
        rewrite filesListing_snoc, H3.
        rewrite decide_False; [by rewrite app_nil_r|].
        intros ->. apply Hout. by apply list_elem_of_fmap_2.
      * apply list_elem_of_singleton in He as ->.
        cbn [feature name count files]. split; [done|]. split; [done|].
        rewrite filesListing_snoc, decide_True by done.
        rewrite filesListing_absent; [done|]. by rewrite <- Hdom.
Qed.

Lemma featureMap_recorded results :
  recorded (listings results) (featureMap results).
Proof.
  unfold featureMap. rewrite featureMap_listings.
  induction (listings results) as [|[r f] l IH] using rev_ind.
  - split; [constructor|]. split; [done|].
    intros e He. by apply elem_of_nil in He.
  - rewrite fold_left_app. cbn [fold_left]. by apply recorded_step.
Qed.

End FeatureTable.

Section FeatureTableReport.
Import featureTable.

Lemma listings_features results k :
  k ∈ map snd (listings results) ↔
  ∃ r, r ∈ results ∧ k ∈ analyzer.features r.
Proof.
  unfold listings. rewrite list_elem_of_fmap. split.
  - intros ([r f] & -> & H). apply list_elem_of_In, in_flat_map in H
      as (r' & Hr' & H). apply list_elem_of_In in H, Hr'.
    apply list_elem_of_fmap in H as (f' & [= -> ->] & Hf).
    by exists r'.
  - intros (r & Hr & Hk). exists (r, k). split; [done|].
    apply list_elem_of_In, in_flat_map. exists r.
    split; [by apply list_elem_of_In|].
    apply list_elem_of_In, list_elem_of_fmap. by exists k.
Qed.

(** X10. The per-feature table of the report names every feature once, is
    sorted by falling count, and names exactly the features that some file
    result lists. *)
Theorem aggregateFeatures_names (results : list analyzer.FileResult) :
  let table := aggregateFeatures results in
  NoDup (map name table)
  ∧ StronglySorted countsAtLeast table
  ∧ ∀ k, k ∈ map name table ↔
         ∃ r, r ∈ results ∧ k ∈ analyzer.features r.
Proof.
  cbn zeta. unfold aggregateFeatures.
  destruct (featureMap_recorded results) as (Hnd & Hdom & _).
  pose proof (sort_perm (featureMap results)) as Hp.
  split; [by rewrite Hp|]. split; [apply sort_sorted|].
  intros k. by rewrite Hp, Hdom, listings_features.
Qed.

(** X11. In every entry of the per-feature table [feature] repeats the
    name, [files] lists the files whose result has the feature, in the
    order of the results, and [count] is the number of those files. *)
Theorem aggregateFeatures_counts (results : list analyzer.FileResult)
    (e : FeatureUsage) :
  e ∈ aggregateFeatures results →
  feature e = name e
  ∧ files e = filesListing (name e) (listings results)
  ∧ count e = N.of_nat (length (files e)).
Proof.
  unfold aggregateFeatures. rewrite sort_perm. intros He.
  destruct (featureMap_recorded results) as (_ & _ & Hent).
  destruct (Hent e He) as (H1 & H2 & H3). done.
Qed.

Lemma aggregateFeatures_counts_witness :
  let results :=
    [analyzer.analyzeCSSFile (codes "a.css") (codes "a { gap: 1px; }");
     analyzer.analyzeCSSFile (codes "b.css")
       (codes "b { gap: 2px; display: grid; }")] in
  let e :=
    default (mkFeatureUsage [] [] JSObject.VInherited 0 [])
      (head (aggregateFeatures results)) in
  e ∈ aggregateFeatures results
  ∧ name e = codes "gap"
  ∧ files e = filesListing (name e) (listings results)
  ∧ count e = N.of_nat (length (files e)).
Proof.
  intros results e.
  assert (H : e ∈ aggregateFeatures results) by (vm_compute; left).
  split; [exact H|]. split; [by vm_compute|].
  exact (proj2 (aggregateFeatures_counts results e H)).
Defined.

End FeatureTableReport.

(** ** The plugins' counters *)
Section PluginCounts.

Lemma countUsages_app fs gs c :
  countUsages (fs ++ gs) c = countUsages gs (countUsages fs c).
Proof. unfold countUsages. by rewrite fold_left_app. Qed.

Lemma total_JSObject_bump s c : total (JSObject.bump s c) = (total c + 1)%N.
Proof.
  unfold JSObject.bump, total.
  destruct (JSObject.strictEq s "baseline"); [cbn; lia|].
  destruct (JSObject.strictEq s "limited"); cbn; lia.
Qed.

Lemma total_countUsages fs : ∀ c,
  total (countUsages fs c) = (total c + N.of_nat (length fs))%N.
Proof.
  unfold countUsages.
  induction fs as [|f fs IH]; intros c; cbn [fold_left length].
  - lia.
  - rewrite IH, total_JSObject_bump. lia.
Qed.

Lemma record_tallied found a : tallied a → tallied (bundler.record found a).
Proof.
  unfold tallied, bundler.record. cbn [bundler.counts bundler.features].
  intros ->. by rewrite countUsages_app.
Qed.

Lemma transform_tallied config code id a :
  tallied a → tallied (bundler.transform config code id a).
Proof.
  intros H. unfold bundler.transform.
  destruct (includes id _); [done|]. cbn zeta.
  unfold bundler.analyzeCSS, bundler.analyzeJavaScript.
  destruct (_ && _); destruct (_ && _); auto using record_tallied.
Qed.

(** Counting is additive: the tally from [c] is [c] plus the tally from
    nothing. *)
Lemma bump_plus s c :
  JSObject.bump s c = plus c (JSObject.bump s noCounts).
Proof.
  unfold JSObject.bump, plus.
  destruct (JSObject.strictEq s "baseline"); [cbn; f_equal; lia|].
  destruct (JSObject.strictEq s "limited"); cbn; f_equal; lia.
Qed.

Lemma plus_noCounts c : plus c noCounts = c.
Proof. destruct c. unfold plus. cbn. f_equal; lia. Qed.

Lemma countUsages_plus fs : ∀ c,
  countUsages fs c = plus c (countUsages fs noCounts).
Proof.
  unfold countUsages. induction fs as [|f fs IH]; intros c; cbn [fold_left].
  - by rewrite plus_noCounts.
  - rewrite IH, (IH (JSObject.bump _ noCounts)), bump_plus.
    by rewrite plus_assoc.
Qed.

Lemma bump_comm s s' c :
  JSObject.bump s (JSObject.bump s' c) = JSObject.bump s' (JSObject.bump s c).
Proof.
  unfold JSObject.bump.
  destruct (JSObject.strictEq s "baseline"), (JSObject.strictEq s "limited"),
    (JSObject.strictEq s' "baseline"), (JSObject.strictEq s' "limited");
    reflexivity.
Qed.

Lemma countUsages_perm fs gs c :
  fs ≡ₚ gs → countUsages fs c = countUsages gs c.
Proof.
  intros H. revert c.
  induction H as [|f fs gs _ IH|f g fs|fs gs hs _ IH1 _ IH2];
    intros c.
  - done.
  - unfold countUsages in *. cbn [fold_left]. apply IH.
  - unfold countUsages. cbn [fold_left]. f_equal. apply bump_comm.
  - by rewrite IH1.
Qed.

End PluginCounts.

Lemma concat_Permutation {A} (l l' : list (list A)) :
  l ≡ₚ l' → concat l ≡ₚ concat l'.
Proof.
  induction 1 as [|x l l' _ IH|x y l|l1 l2 l3 _ IH1 _ IH2]; cbn.
  - done.
  - by rewrite IH.
  - rewrite !app_assoc. f_equal. by rewrite (Permutation_app_comm x y).
  - by rewrite IH1.
Qed.

(** X13. However many modules the [transform] hook of the Vite and Rollup
    plugins has seen, the counters of the shared analysis are the tally of
    its [features] array, and they add up to the length of that array. *)
Theorem bundler_counts_are_tally (config : PluginOptions)
    (modules : list (text * text)) :
  let analysis :=
    fold_left (λ a '(code, id), bundler.transform config code id a) modules
      bundler.emptyAnalysis in
  bundler.counts analysis = countUsages (bundler.features analysis) noCounts
  ∧ total (bundler.counts analysis)
    = N.of_nat (length (bundler.features analysis)).
Proof.
  cbn zeta.
  assert (H : tallied
                (fold_left (λ a '(code, id), bundler.transform config code id a)
                   modules bundler.emptyAnalysis)).
  { apply (fold_left_invariant _ tallied); [|done].
    intros a [code id] _. apply transform_tallied. }
  split; [exact H|]. rewrite H, total_countUsages. done.
Qed.

(** X14. The result of the webpack plugin (counters, score and errors)
    does not depend on the order in which the compilation lists its
    assets. *)
Theorem webpack_emit_order (options : PluginOptions)
    (exclude : list Regex.regex) (assets assets' : list (text * text)) :
  assets ≡ₚ assets' →
  webpack.emit options exclude assets = webpack.emit options exclude assets'.
Proof.
  intros Hp. unfold webpack.emit. cbn zeta.
  set (f := λ '(filename, source), _).
  assert (E : countUsages (concat (map f assets)) noCounts
              = countUsages (concat (map f assets')) noCounts).
  { apply countUsages_perm, concat_Permutation. by rewrite Hp. }
  by rewrite E.
Qed.

Lemma webpack_emit_order_witness :
  let a := (codes "a.js", codes "fetch(u)") in
  let b := (codes "b.css", codes "gap: 1px; container-type: size;") in
  webpack.emit (mkPluginOptions false (Some 80%Z) false false) [] [a; b]
  = webpack.emit (mkPluginOptions false (Some 80%Z) false false) [] [b; a].
Proof.
  intros a b. apply webpack_emit_order. apply perm_swap.
Defined.

(** ** The features of a file result *)
Section FeatureSets.
Import analyzer.

Lemma set_add_NoDup x s : NoDup s → NoDup (set_add x s).
Proof.
  intros H. unfold set_add. case_bool_decide as Hx; [done|].
  apply NoDup_app. split; [done|]. split; [|apply NoDup_singleton].
  intros y Hy Hy'. apply list_elem_of_singleton in Hy'. by subst y.
Qed.

Lemma elem_of_set_add y x s : y ∈ set_add x s ↔ y = x ∨ y ∈ s.
Proof.
  unfold set_add. case_bool_decide as Hx.
  - split; [by right|]. by intros [->|?].
  - rewrite elem_of_app, list_elem_of_singleton. tauto.
Qed.

Lemma classify_features data ids : ∀ st,
  NoDup st.1 →
  let st' := fold_left (classify data) ids st in
  NoDup st'.1
  ∧ ∀ x, x ∈ st'.1 ↔
      x ∈ st.1 ∨ (x ∈ ids ∧ JSObject.truthy (JSObject.get data x) = true).
Proof.
  induction ids as [|i ids IH]; intros st Hnd; cbn zeta.
  - cbn. split; [done|]. intros x. split; [by left|].
    intros [?|[H _]]; [done|by apply elem_of_nil in H].
  - cbn [fold_left].
    assert (Hnd' : NoDup (classify data st i).1).
    { unfold classify. cbn zeta. destruct (JSObject.truthy _); [|done].
      by apply set_add_NoDup. }
    destruct (IH _ Hnd') as [H1 H2]. split; [exact H1|].
    intros x. rewrite H2, elem_of_cons. unfold classify. cbn zeta.
    destruct (JSObject.truthy (JSObject.get data i)) eqn:Et; cbn [fst].
    + rewrite elem_of_set_add. split.
      * intros [[->|?]|[? ?]]; [right; by split; [left|]|by left|].
        right. split; [by right|done].
      * intros [?|[[->|?] ?]]; [left; by right|left; by left|].
        right. by split.
    + split.
      * intros [?|[? ?]]; [by left|]. right. split; [by right|done].
      * intros [?|[[->|?] Hx]]; [by left|congruence|]. right. by split.
Qed.

End FeatureSets.

(** X9. The [features] of a file result hold no name twice.  For a style
    sheet they are exactly the scanned declaration names to which the CSS
    catalog gives a truthy status; for a JavaScript file every one of them
    has a truthy status in the JS catalog. *)
Theorem analyzer_features_set (filePath content : text)
    (document : vscode.TextDocument) :
  let css := analyzer.analyzeCSSFile filePath content in
  let js := analyzer.analyzeJSFile filePath content in
  NoDup (analyzer.features css)
  ∧ (∀ x, x ∈ analyzer.features css ↔
       x ∈ map parser.name (parser.extractCSSProperties content document)
       ∧ JSObject.truthy (JSObject.get analyzer.baselineData_css x) = true)
  ∧ NoDup (analyzer.features js)
  ∧ ∀ x, x ∈ analyzer.features js →
         JSObject.truthy (JSObject.get analyzer.baselineData_js x) = true.
Proof.
  cbn zeta. unfold analyzer.analyzeCSSFile, analyzer.analyzeJSFile.
  cbn [analyzer.features].
  assert (Ec : ∀ l st,
            fold_left
              (λ st m, analyzer.classify analyzer.baselineData_css st
                         (default [] (Regex.group 1 m))) l st
            = fold_left (analyzer.classify analyzer.baselineData_css)
                (map (λ m, default [] (Regex.group 1 m)) l) st).
  { induction l as [|m l IH]; intros st; [done|]. cbn. apply IH. }
  rewrite Ec.
  destruct (classify_features analyzer.baselineData_css
              (map (λ m, default [] (Regex.group 1 m))
                 (Regex.matchAll parser.propertyRegex content))
              ([], noCounts) (NoDup_nil_2)) as [H1 H2].
  split; [exact H1|]. split.
  { intros x. rewrite H2. unfold parser.extractCSSProperties.
    rewrite <- list_fmap_compose. split.
    - intros [H|H]; [by apply elem_of_nil in H|done].
    - intros H. by right. }
  apply (fold_left_invariant _
           (λ st : list text * Counts,
              NoDup st.1
              ∧ ∀ x, x ∈ st.1 →
                  JSObject.truthy (JSObject.get analyzer.baselineData_js x)
                  = true)).
  - intros st p _ Hst.
    apply (fold_left_invariant _
             (λ st : list text * Counts,
                NoDup st.1
                ∧ ∀ x, x ∈ st.1 →
                    JSObject.truthy (JSObject.get analyzer.baselineData_js x)
                    = true)); [|done].
    intros st' m _ [Hn Hx]. unfold analyzer.classify. cbn zeta.
    destruct (JSObject.truthy _) eqn:Et; [|done]. cbn [fst].
    split; [by apply set_add_NoDup|].
    intros x Hin. apply elem_of_set_add in Hin as [->|Hin]; [done|by apply Hx].
  - split; [constructor|]. intros x H. by apply elem_of_nil in H.
Qed.

(** ** The identifiers of the JS scanner *)
Section JSScanner.
Import Regex RegexSpec.

Lemma isWordOrDot_not_space c :
  parser.isWordOrDot c = true → isSpace c = false.
Proof.
  unfold parser.isWordOrDot, isWord, isSpace.
  rewrite !orb_true_iff, !andb_true_iff, !orb_false_iff, !andb_false_iff,
    !N.leb_le, !N.eqb_eq, !N.leb_gt, !N.eqb_neq.
  lia.
Qed.

Lemma trimStart_id w :
  (∀ c, head w = Some c → isSpace c = false) → trimStart w = w.
Proof. destruct w as [|c w]; [done|]. intros H. cbn. by rewrite (H c). Qed.

Lemma trim_word w :
  Forall (λ c, parser.isWordOrDot c = true) w → trim w = w.
Proof.
  intros H. unfold trim, trimEnd.
  rewrite (trimStart_id w).
  2:{ intros c Hc. apply isWordOrDot_not_space.
      rewrite Forall_forall in H. apply H. destruct w; [done|].
      injection Hc as ->. left. }
  rewrite (trimStart_id (rev w)); [by rewrite rev_involutive|].
  intros c Hc. apply isWordOrDot_not_space.
  rewrite Forall_forall in H. apply H.
  apply list_elem_of_In, in_rev, list_elem_of_In.
  destruct (rev w); [done|]. injection Hc as ->. left.
Qed.

(** [/^new\s+/] finds nothing in a text without white space. *)
Lemma remove_new_word w :
  Forall (λ c, parser.isWordOrDot c = true) w →
  remove_first newRegex None w 0 = w.
Proof.
  intros H.
  assert (He : exec_at newRegex None w 0 = None).
  { destruct (exec_at newRegex None w 0) as [m|] eqn:E; [|done]. exfalso.
    apply exec_at_sound in E as (st' & x & HM & Ew & _).
    unfold newRegex in HM.
    apply Seq_match in HM as (s1 & [_ ->] & HM).
    apply Seq_match in HM as (s2 & H2 & H3).
    apply lit_codes_match in H2 as (E2 & _ & _).
    apply Plus_match in H3 as (sp & Hsp0 & Hsp & E3 & _ & _).
    cbn [m_rest] in E2. rewrite E3 in E2.
    destruct sp as [|c sp]; [done|]. apply Forall_cons in Hsp as [Hc _].
    rewrite Forall_forall in H.
    rewrite (isWordOrDot_not_space c) in Hc; [done|].
    apply H. rewrite E2. apply elem_of_app. right. left. }
  destruct w as [|c tl]; cbn [remove_first]; rewrite He; [done|].
  unfold newRegex. by rewrite remove_first_anchored.
Qed.

Lemma cleanIdentifier_async : cleanIdentifier (codes "async") = true.
Proof. by vm_compute. Qed.

Lemma cleanAPIName_word w type :
  w ≠ [] → Forall (λ c, parser.isWordOrDot c = true) w →
  cleanIdentifier (parser.cleanAPIName w type) = true.
Proof.
  intros Hne Hw. unfold parser.cleanAPIName.
  change (remove_first _ None w 0) with (remove_first newRegex None w 0).
  rewrite remove_new_word by done. cbn zeta.
  destruct (text_eqb w _ || includes w (codes "async")) eqn:E1;
    [apply cleanIdentifier_async|].
  destruct (includes w (codes "await")) eqn:E2;
    [apply cleanIdentifier_async|].
  apply orb_false_iff in E1 as [_ E1].
  assert (Hq : cleanIdentifier w = true).
  { unfold cleanIdentifier. rewrite E1, E2. cbn [orb implb].
    rewrite andb_true_r. apply andb_true_iff. split; [by destruct w|].
    apply forallb_forall. intros x Hx. rewrite Forall_forall in Hw.
    apply Hw. by apply list_elem_of_In. }
  destruct (_ || _); [done|]. by rewrite trim_word.
Qed.

(** A match of [new\s+([\w.]+)\s*\(] captures a run of word characters and
    dots. *)
Lemma constructor_caps st st' :
  Matches (Seq (lit "new") (Seq (Plus isSpace)
     (Seq (Group 1 (Plus parser.isWordOrDot))
        (Seq (Star isSpace) (lit "("))))) st st' →
  ∃ w, w ≠ [] ∧ Forall (λ c, parser.isWordOrDot c = true) w
       ∧ m_caps st' = (1, w) :: m_caps st.
Proof.
  intros H.
  apply Seq_match in H as (s1 & H1 & H).
  apply Seq_match in H as (s2 & H2 & H).
  apply Seq_match in H as (s3 & H3 & H).
  apply Seq_match in H as (s4 & H4 & H5).
  apply lit_codes_match in H1 as (_ & _ & C1).
  apply Plus_match in H2 as (sp & _ & _ & _ & _ & C2).
  apply (Group_match _ _ _ _
           (λ w, w ≠ [] ∧ Forall (λ c, parser.isWordOrDot c = true) w))
    in H3 as (w & (Hw0 & Hw) & _ & _ & C3);
    [|intros st1 Hs; apply Plus_match in Hs as (w & ? & ? & ?); by exists w].
  apply Star_match in H4 as (sp' & _ & _ & _ & C4).
  apply lit_codes_match in H5 as (_ & _ & C5).
  exists w. repeat split; [done..|]. by rewrite C5, C4, C3, C2, C1.
Qed.

Lemma yieldsWhole_caps pattern (W P : text → Prop) :
  (∀ st st', Matches pattern st st' →
     ∃ w, W w ∧ m_caps st' = (1, w) :: m_caps st) →
  (∀ w, W w → w ≠ [] ∧ P w) →
  yieldsWhole pattern P.
Proof.
  intros Hc HW content m H.
  apply matchAll_sound in H
    as (pre & x & post & st' & prev' & -> & HM & E & ->).
  apply Hc in HM as (w & Hw & C). cbn in C.
  unfold parser.group1_or_whole, group. cbn. rewrite C. cbn.
  apply HW in Hw as [Hne HP]. by destruct w.
Qed.

Lemma yieldsWhole_alts l pattern (P : text → Prop) :
  (∀ st st', Matches pattern st st' →
     ∃ s, s ∈ l ∧ m_caps st' = (1, codes s) :: m_caps st) →
  Forall (λ s, s ≠ ""%string ∧ P (codes s)) l →
  yieldsWhole pattern P.
Proof.
  intros Hc Hl. apply (yieldsWhole_caps _ (λ w, ∃ s, s ∈ l ∧ w = codes s)).
  - intros st st' H. apply Hc in H as (s & Hs & C).
    exists (codes s). split; [by exists s|done].
  - intros w (s & Hs & ->). rewrite Forall_forall in Hl.
    apply Hl in Hs as [Hs HP]. split; [|done].
    intros E. by apply codes_nil in E.
Qed.

Lemma yieldsWhole_groupless pattern (W P : text → Prop) :
  groupless pattern = true →
  (∀ st st', Matches pattern st st' →
     ∃ w, W w ∧ m_rest st = w ++ m_rest st') →
  (∀ w, W w → P w) →
  yieldsWhole pattern P.
Proof.
  intros G Hc HW content m H.
  apply matchAll_sound in H
    as (pre & x & post & st' & prev' & -> & HM & E & ->).
  pose proof (groupless_caps _ _ _ G HM) as C. cbn in C.
  apply Hc in HM as (w & Hw & Er). cbn in Er. rewrite E in Er.
  apply app_inv_tail in Er as ->.
  unfold parser.group1_or_whole, group. cbn. rewrite C. cbn. by apply HW.
Qed.

Lemma remove_new_a tl :
  remove_first newRegex None (97%N :: tl) 0 = 97%N :: tl.
Proof.
  cbn [remove_first].
  replace (exec_at newRegex None (97%N :: tl) 0) with (@None rmatch)
    by (by vm_compute).
  unfold newRegex. by rewrite remove_first_anchored.
Qed.

Lemma startsWith_app p s : startsWith (p ++ s) p = true.
Proof.
  induction p as [|c p IH]; [by destruct s|]. cbn. by rewrite N.eqb_refl.
Qed.

Lemma includes_prefix p s : includes (p ++ s) p = true.
Proof.
  assert (E : ∀ x, includes x p = true ↔
                startsWith x p = true
                ∨ match x with
                  | [] => False
                  | _ :: x' => includes x' p = true
                  end).
  { intros [|c x]; cbn [includes]; rewrite orb_true_iff; [|done].
    split; intros [?|?]; auto; done. }
  apply E. left. apply startsWith_app.
Qed.

Lemma cleanAPIName_async_function sp type :
  parser.cleanAPIName (codes "async" ++ sp ++ codes "function") type
  = codes "async".
Proof.
  unfold parser.cleanAPIName.
  change (remove_first _ None ?w 0) with (remove_first newRegex None w 0).
  change (codes "async" ++ sp ++ codes "function")
    with (97%N :: (codes "sync" ++ sp ++ codes "function")).
  rewrite remove_new_a. cbn zeta.
  change (97%N :: (codes "sync" ++ sp ++ codes "function"))
    with (codes "async" ++ (sp ++ codes "function")).
  by rewrite includes_prefix, orb_true_r.
Qed.

Lemma cleanAPIName_await sp type :
  parser.cleanAPIName (codes "await" ++ sp) type = codes "async".
Proof.
  unfold parser.cleanAPIName.
  change (remove_first _ None ?w 0) with (remove_first newRegex None w 0).
  change (codes "await" ++ sp) with (97%N :: (codes "wait" ++ sp)).
  rewrite remove_new_a. cbn zeta.
  change (97%N :: (codes "wait" ++ sp)) with (codes "await" ++ sp).
  rewrite includes_prefix. by destruct (_ || _).
Qed.

Lemma parser_patterns_yield :
  Forall (λ '(pattern, type),
            yieldsWhole pattern
              (λ w, cleanIdentifier (parser.cleanAPIName w type) = true))
    parser.patterns.
Proof.
  unfold parser.patterns.
  repeat first [apply Forall_nil_2 | apply Forall_cons_2].
  - apply (yieldsWhole_caps _
             (λ w, w ≠ [] ∧ Forall (λ c, parser.isWordOrDot c = true) w)).
    + intros st st' H. apply constructor_caps in H as (w & ? & ? & ?).
      by exists w.
    + intros w [? ?]. split; [done|]. by apply cleanAPIName_word.
  - apply (yieldsWhole_alts
             ["fetch"; "localStorage"; "sessionStorage"; "crypto";
              "navigator"]%string);
      [intros st st'; by apply caps_around|yield_side].
  - apply (yieldsWhole_alts
             ["IntersectionObserver"; "ResizeObserver"; "MutationObserver";
              "PerformanceObserver"]%string);
      [intros st st'; by apply caps_around|yield_side].
  - apply (yieldsWhole_groupless _
             (λ w, ∃ sp, w = codes "async" ++ sp ++ codes "function"));
      [done| |].
    + intros st st' H.
      apply Seq_match in H as (s1 & [_ ->] & H).
      apply Seq_match in H as (s2 & H2 & H).
      apply Seq_match in H as (s3 & H3 & H4).
      apply lit_codes_match in H2 as (E2 & _ & _).
      apply Plus_match in H3 as (sp & _ & _ & E3 & _ & _).
      apply lit_codes_match in H4 as (E4 & _ & _).
      exists (codes "async" ++ sp ++ codes "function").
      split; [by exists sp|]. rewrite E2, E3, E4. by rewrite <- !app_assoc.
    + intros w [sp ->]. rewrite cleanAPIName_async_function.
      apply cleanIdentifier_async.
  - apply (yieldsWhole_groupless _ (λ w, ∃ sp, w = codes "await" ++ sp));
      [done| |].
    + intros st st' H.
      apply Seq_match in H as (s1 & [_ ->] & H).
      apply Seq_match in H as (s2 & H2 & H3).
      apply lit_codes_match in H2 as (E2 & _ & _).
      apply Plus_match in H3 as (sp & _ & _ & E3 & _ & _).
      exists (codes "await" ++ sp).
      split; [by exists sp|]. rewrite E2, E3. by rewrite <- !app_assoc.
    + intros w [sp ->]. rewrite cleanAPIName_await.
      apply cleanIdentifier_async.
  - apply (yieldsWhole_groupless _ (λ w, w = codes "Promise")); [done| |].
    + intros st st' H.
      apply Seq_match in H as (s1 & [_ ->] & H).
      apply Seq_match in H as (s2 & H2 & [_ ->]).
      apply lit_codes_match in H2 as (E2 & _ & _).
      by exists (codes "Promise").
    + by intros w ->.
  - apply (yieldsWhole_alts
             ["WeakMap"; "WeakSet"; "Map"; "Set"]%string);
      [intros st st'; by apply caps_around|yield_side].
  - apply (yieldsWhole_alts
             ["Proxy"; "Reflect"]%string);
      [intros st st'; by apply caps_around|yield_side].
  - apply (yieldsWhole_alts
             ["querySelector"; "querySelectorAll"; "getElementById"]%string);
      [intros st st'; by apply caps_around|yield_side].
  - apply (yieldsWhole_alts
             ["BroadcastChannel"; "WebSocket"; "Worker"; "ServiceWorker"]%string);
      [intros st st'; by apply caps_around|yield_side].
  - apply (yieldsWhole_alts
             ["share"; "geolocation"; "mediaDevices"; "serviceWorker"]%string);
      [intros st st'; by apply caps_after|yield_side].
  - apply (yieldsWhole_alts
             ["startViewTransition"; "requestStorageAccess"]%string);
      [intros st st'; by apply caps_after|yield_side].
Qed.

Lemma rawUsages_clean t document u :
  u ∈ parser.rawUsages t document → cleanIdentifier (parser.api u) = true.
Proof.
  unfold parser.rawUsages. intros H.
  apply elem_of_concat in H as (l & Hu & Hl).
  apply list_elem_of_fmap in Hl as ([pattern type] & -> & Hp).
  apply list_elem_of_fmap in Hu as (m & -> & Hm).
  pose proof parser_patterns_yield as Hy. rewrite Forall_forall in Hy.
  apply Hy in Hp. cbn in Hp. apply Hp in Hm.
  unfold parser.usage_of_match. by cbn.
Qed.

(** X4. Every identifier that the JS scanner reports is nonempty and made
    of word characters and dots; one that mentions [async] or [await] is
    exactly [async]. *)
Theorem extractAPIUsage_identifiers t document u :
  u ∈ parser.extractAPIUsage t document →
  parser.api u ≠ []
  ∧ Forall (λ c, parser.isWordOrDot c = true) (parser.api u)
  ∧ ((includes (parser.api u) (codes "async")
      || includes (parser.api u) (codes "await")) = true →
     parser.api u = codes "async").
Proof.
  intros H.
  assert (Hr : u ∈ parser.rawUsages t document).
  { unfold parser.extractAPIUsage, parser.deduplicateUsages in H.
    exact (sublist_subseteq _ _ (dedup_filter_sublist _ _) u H). }
  apply rawUsages_clean in Hr. unfold cleanIdentifier in Hr.
  apply andb_true_iff in Hr as [Hr H3]. apply andb_true_iff in Hr as [H1 H2].
  split; [by destruct (parser.api u)|]. split.
  - apply Forall_forall. intros c Hc. rewrite forallb_forall in H2.
    by apply H2, list_elem_of_In.
  - intros Hi. rewrite Hi in H3. cbn in H3.
    unfold text_eqb in H3. by apply bool_decide_eq_true in H3.
Qed.

Lemma extractAPIUsage_identifiers_witness :
  let t := codes "x = await new Foo.Bar (1)" in
  let document := vscode.document_of t in
  let u := parser.mkJSAPIUsage (codes "async")
             (vscode.mkRange (vscode.mkPosition 0 4) (vscode.mkPosition 0 10))
             0 t in
  parser.api u ≠ []
  ∧ Forall (λ c, parser.isWordOrDot c = true) (parser.api u)
  ∧ ((includes (parser.api u) (codes "async")
      || includes (parser.api u) (codes "await")) = true →
     parser.api u = codes "async").
Proof.
  intros t document u. apply (extractAPIUsage_identifiers t document u).
  vm_compute. right. left.
Defined.

End JSScanner.

(** ** The position helpers *)
Section Positions.
Import positions.

Lemma braceDepth_counts t : ∀ offset depth,
  braceDepth t offset depth
  = (depth
     + Z.of_nat (length (filter (λ c, c = 123%N) (take offset t)))
     - Z.of_nat (length (filter (λ c, c = 125%N) (take offset t))))%Z.
Proof.
  induction t as [|c t IH]; intros offset depth.
  - destruct offset; cbn; lia.
  - destruct offset as [|offset]; [cbn; lia|].
    cbn [braceDepth take]. rewrite IH, !filter_cons.
    destruct (N.eqb_spec c 123) as [E1|E1];
      destruct (N.eqb_spec c 125) as [E2|E2];
      repeat case_decide; try done; cbn [length]; lia.
Qed.

Lemma indexOf_Some s p : ∀ from i,
  indexOf s p from = Some i →
  from ≤ i ∧ startsWith (drop (i - from) s) p = true
  ∧ ∀ j, j < i - from → startsWith (drop j s) p = false.
Proof.
  induction s as [|c s IH]; intros from i H; cbn [indexOf] in H.
  - destruct (startsWith [] p) eqn:E; [|done]. injection H as <-.
    rewrite Nat.sub_diag. repeat split; [lia|done|lia].
  - destruct (startsWith (c :: s) p) eqn:E.
    + injection H as <-. rewrite Nat.sub_diag. repeat split; [lia|done|lia].
    + apply IH in H as (Hle & Hs & Hn).
      replace (i - from) with (S (i - S from)) by lia.
      repeat split; [lia|done|].
      intros [|j] Hj; [done|]. cbn [drop]. apply Hn. lia.
Qed.

Lemma indexOf_None s p : ∀ from,
  indexOf s p from = None → ∀ j, startsWith (drop j s) p = false.
Proof.
  induction s as [|c s IH]; intros from H j; cbn [indexOf] in H.
  - destruct (startsWith [] p) eqn:E; [done|]. by rewrite drop_nil.
  - destruct (startsWith (c :: s) p) eqn:E; [done|].
    destruct j as [|j]; [done|]. cbn [drop]. by apply (IH (S from)).
Qed.

End Positions.

(** X27. [isInsideRuleBlock] answers [true] exactly when the text before
    the offset holds more opening than closing braces; the braces are
    counted wherever they stand, and an offset beyond the end of the text
    counts the whole text. *)
Theorem isInsideRuleBlock_counts (t : text) (offset : nat) :
  positions.isInsideRuleBlock t offset = true ↔
  length (filter (λ c, c = 125%N) (take offset t))
  < length (filter (λ c, c = 123%N) (take offset t)).
Proof.
  unfold positions.isInsideRuleBlock. rewrite braceDepth_counts, Z.ltb_lt. lia.
Qed.

(** X28. [isInsideComment] answers [true] exactly when two slashes start
    on the line somewhere before the position's character, whatever
    precedes them. *)
Theorem isInsideComment_after_slashes (line : text) (charPos : nat) :
  positions.isInsideComment line charPos = true ↔
  ∃ s, s < charPos ∧ startsWith (drop s line) (codes "//") = true.
Proof.
  unfold positions.isInsideComment.
  destruct (positions.indexOf line (codes "//") 0) as [i|] eqn:E.
  - apply indexOf_Some in E as (_ & Hs & Hn). rewrite Nat.sub_0_r in Hs, Hn.
    rewrite Nat.ltb_lt. split.
    + intros Hi. by exists i.
    + intros (s & Hlt & Hss). destruct (decide (i ≤ s)) as [?|Hgt]; [lia|].
      rewrite Hn in Hss by lia. done.
  - split; [done|]. intros (s & _ & Hss).
    by rewrite (indexOf_None _ _ _ E) in Hss.
Qed.
